(** * csp-resources: the concurrent orchestration core of [utils.py]

    A shallow embedding of the identifier resolver, the discovery executor,
    the cloud aggregator, the item operation executor ([utils.py]) and the
    AWS task builder ([awssvc/session.py]), with the properties the
    specification states about them.

    Conventions of the embedding.
    - A Python [str] is a [string] whose characters are read as the code
      points 0..255 (Latin-1).  [py_isspace], [py_lower] and [py_int] follow
      CPython on that range.
    - An item is a Python [dict] living in a heap of objects; lists of items
      are lists of references, so that "the same record" means the same
      reference and "unchanged" means an unchanged heap.
    - Effects (logging, printing, the terminal, the clock, handler
      invocations, exceptions) are threaded through a state and error monad
      [M].  Log lines are kept as structured events carrying the arguments
      of the source's f-strings; their rendering ([.upper()], number
      formatting) is not modelled.
    - A thread pool is modelled by its observable behaviour: every submitted
      call runs, its outcome is the outcome of the submitted function, and
      [as_completed] delivers the futures in an order chosen by the
      scheduler, given as the list [order] of submission indices. *)

From Stdlib Require Import ZArith Ascii String List Permutation Lia.
From stdpp Require Import base gmap strings list pretty.

Local Open Scope string_scope.
Local Open Scope list_scope.
Local Open Scope Z_scope.

(** ** Python strings *)

Module PyStr.

Definition code (c : ascii) : Z := Z.of_nat (nat_of_ascii c).

(** [str.isspace] on one character: TAB..CR, FS..US, SPACE, NEL, NBSP. *)
Definition py_isspace (c : ascii) : bool :=
  let n := code c in
  ((9 <=? n) && (n <=? 13)) || ((28 <=? n) && (n <=? 32))
  || (n =? 133) || (n =? 160).

Fixpoint lstrip (s : string) : string :=
  match s with
  | String c r => if py_isspace c then lstrip r else s
  | EmptyString => EmptyString
  end.

(** Drops trailing whitespace: a character is kept when it is not a space
    or when something is kept after it. *)
Fixpoint rstrip (s : string) : string :=
  match s with
  | String c r =>
      match rstrip r with
      | EmptyString => if py_isspace c then EmptyString else String c EmptyString
      | r' => String c r'
      end
  | EmptyString => EmptyString
  end.

(** [s.strip()] *)
Definition strip (s : string) : string := rstrip (lstrip s).

(** [s.split(sep)] for a one-character separator: never returns the empty
    list, and the empty string gives one empty field. *)
Fixpoint split (sep : ascii) (s : string) : list string :=
  match s with
  | EmptyString => [EmptyString]
  | String c r =>
      if Ascii.eqb c sep then EmptyString :: split sep r
      else match split sep r with
           | h :: t => String c h :: t
           | [] => [String c EmptyString]
           end
  end.

(** [c.lower()] on Latin-1: A..Z and the accented capitals except the
    multiplication sign. *)
Definition lower_char (c : ascii) : ascii :=
  let n := code c in
  if ((65 <=? n) && (n <=? 90))
     || ((192 <=? n) && (n <=? 222) && negb (n =? 215))
  then ascii_of_nat (Z.to_nat (n + 32)) else c.

Fixpoint py_lower (s : string) : string :=
  match s with
  | String c r => String (lower_char c) (py_lower r)
  | EmptyString => EmptyString
  end.

Definition digit (c : ascii) : option Z :=
  let n := code c in
  if (48 <=? n) && (n <=? 57) then Some (n - 48) else None.

(** Digits after the first one; [us] tells that the previous character was
    an underscore, which must be followed by a digit. *)
Fixpoint digits_from (us : bool) (acc : Z) (s : string) : option Z :=
  match s with
  | EmptyString => if us then None else Some acc
  | String c r =>
      if Ascii.eqb c "_"%char then
        if us then None else digits_from true acc r
      else match digit c with
           | Some d => digits_from false (10 * acc + d) r
           | None => None
           end
  end.

Definition unsigned_int (s : string) : option Z :=
  match s with
  | String c r =>
      match digit c with
      | Some d => digits_from false d r
      | None => None
      end
  | EmptyString => None
  end.

(** [int(s)] in base 10: [Some n] when it returns [n], [None] when it raises
    [ValueError].  Surrounding whitespace is ignored, one sign is allowed,
    and single underscores may separate digits.  The interpreter's limit on
    the number of digits of an integer string is not modelled: a token over
    that limit also raises [ValueError]. *)
Definition py_int (s : string) : option Z :=
  match strip s with
  | String "+"%char r => unsigned_int r
  | String "-"%char r => Z.opp <$> unsigned_int r
  | t => unsigned_int t
  end.

End PyStr.

Import PyStr.


(** ** Values, items and the heap of objects *)

(** The values an item can hold: what [json.load] produces (floats left
    out) and what the provider modules put into the records. *)
#[warnings="-register-all"]
Inductive value :=
  | VNone
  | VBool (b : bool)
  | VInt (n : Z)
  | VStr (s : string)
  | VList (l : list value)
  | VDict (d : list (string * value)).

(** Truth value of an object, as tested by [if v]. *)
Definition truthy (v : value) : bool :=
  match v with
  | VNone => false
  | VBool b => b
  | VInt n => negb (n =? 0)
  | VStr s => negb (String.eqb s "")
  | VList l => match l with [] => false | _ => true end
  | VDict d => match d with [] => false | _ => true end
  end.

(** Lists and dicts cannot be used as dictionary keys. *)
Definition hashable (v : value) : bool :=
  match v with
  | VList _ | VDict _ => false
  | _ => true
  end.

(** An item is a dict from field names to values. *)
Abbreviation Item := (gmap string value).

(** References to dict objects. *)
Abbreviation loc := positive.

Abbreviation heap := (gmap loc Item).

(** ** Exceptions, log events and the world *)

Inductive exn :=
  | KeyError (key : string)
  | IndexError
  | TypeError (what : string)
  | AttributeError (what : string)
  | ValueError (what : string)
  | Error (msg : string).  (* any other [Exception], with its [str(e)] *)

(** [str(e)] as far as the core uses it; a [KeyError] shows its key in
    quotes. *)
Definition exn_str (e : exn) : string :=
  match e with
  | KeyError k => "'" +:+ k +:+ "'"
  | IndexError => "list index out of range"
  | TypeError m | AttributeError m | ValueError m | Error m => m
  end.

(** The arguments of each message the core emits, one constructor per
    source line that logs or prints. *)
Inductive message :=
  (* find_items_by_identifier *)
  | IndexOutOfRange (index : Z) (len : nat)
  | NoItemFound (identifier : string)
  (* confirm_action *)
  | ConfirmHeader (descr : string)
  | ConfirmRule
  | ConfirmItem (name cloud account location : value)
  | ConfirmTotal (n : nat)
  | ConfirmPrompt
  | ConfirmEcho (response : string)
  (* execute_items_operation *)
  | NoItems
  | Cancelled
  | Starting (descr : string) (n : nat)
  | UnknownCloud (cloud : string) (name : value)
  | Progress (processed total : nat) (cloud name : value)
  | HandlerError (e : exn)
  | Tally (descr : string) (success total : nat)
  (* execute_discovery_tasks *)
  | Found (completed total : nat) (cloud location : string) (n : nat)
          (resource : string)
  | TaskError (completed total : nat) (cloud location : string) (e : exn)
  (* awssvc.session.build_discovery_tasks *)
  | RegionsError (profile : string) (e : exn)
  | BuildError (e : exn).

Inductive event :=
  | LogInfo (m : message)
  | LogWarning (m : message)
  | LogError (m : message)
  | Print (m : message).

(** A handler invocation handed to the pool: the handler-map key and the
    item it is applied to. *)
Record call := Call { call_cloud : string; call_item : loc }.

Record world := World {
  w_heap : heap;              (* the dict objects *)
  w_log : list event;         (* what was logged and printed, oldest first *)
  w_calls : list call;        (* handler invocations, in submission order *)
  w_stdin : string;           (* what the terminal will deliver *)
  w_clock : nat -> Z;         (* the reading of the n-th [datetime.now()] *)
  w_ticks : nat               (* number of readings so far *)
}.

Definition set_log (w : world) (l : list event) : world :=
  World (w_heap w) l (w_calls w) (w_stdin w) (w_clock w) (w_ticks w).
Definition set_calls (w : world) (c : list call) : world :=
  World (w_heap w) (w_log w) c (w_stdin w) (w_clock w) (w_ticks w).
Definition set_stdin (w : world) (s : string) : world :=
  World (w_heap w) (w_log w) (w_calls w) s (w_clock w) (w_ticks w).
Definition set_ticks (w : world) (n : nat) : world :=
  World (w_heap w) (w_log w) (w_calls w) (w_stdin w) (w_clock w) n.

(** ** The monad of the core: state and exceptions *)

Inductive result (A : Type) :=
  | Ok (a : A)
  | Raise (e : exn).
Arguments Ok {A} a.
Arguments Raise {A} e.

Definition M (A : Type) : Type := world -> result A * world.

Definition ret {A} (a : A) : M A := fun w => (Ok a, w).

Definition bind {A B} (m : M A) (k : A -> M B) : M B :=
  fun w => match m w with
           | (Ok a, w') => k a w'
           | (Raise e, w') => (Raise e, w')
           end.

Definition raise {A} (e : exn) : M A := fun w => (Raise e, w).

(** [try: m except Exception as e: h e] *)
Definition try_except {A} (m : M A) (h : exn -> M A) : M A :=
  fun w => match m w with
           | (Ok a, w') => (Ok a, w')
           | (Raise e, w') => h e w'
           end.

Declare Scope py_scope.
Delimit Scope py_scope with py.
Notation "x <~ m ;; k" := (bind m (fun x => k))
  (at level 100, m at next level, right associativity) : py_scope.
Notation "m ;;; k" := (bind m (fun _ => k))
  (at level 100, right associativity) : py_scope.
Local Open Scope py_scope.

Definition emit (e : event) : M unit :=
  fun w => (Ok tt, set_log w (w_log w ++ [e])).

(** The value of a field of an item, if the item has it. *)
Definition field (h : heap) (it : loc) (key : string) : option value :=
  h !! it ≫= fun d => d !! key.

(** [item.get(key)]: [None] when the key is absent. *)
Definition item_get (it : loc) (key : string) : M (option value) :=
  fun w => (Ok (field (w_heap w) it key), w).

(** [item.get(key, default)] *)
Definition item_get_default (it : loc) (key : string) (d : value) : M value :=
  v <~ item_get it key ;; ret (default d v).

(** [datetime.now()] *)
Definition now : M Z :=
  fun w => (Ok (w_clock w (w_ticks w)), set_ticks w (S (w_ticks w))).

(** [for x in l: body x] *)
Fixpoint for_each {A} (body : A -> M unit) (l : list A) : M unit :=
  match l with
  | [] => ret tt
  | x :: r => body x ;;; for_each body r
  end.

(** A loop that updates local variables [S]. *)
Fixpoint for_fold {A S} (body : S -> A -> M S) (l : list A) (s : S) : M S :=
  match l with
  | [] => ret s
  | x :: r => s' <~ body s x ;; for_fold body r s'
  end.

(** [as_completed(futures)]: the futures in the order in which they
    complete; [order] lists their submission indices in that order.  The
    pool completes every future once, so [order] is a permutation of the
    indices; an index that names no future delivers nothing. *)
Definition as_completed {F} (futures : list F) (order : list nat) : list F :=
  omap (fun i => futures !! i) order.

(** ** IdentifierResolver: [find_items_by_identifier] *)

(** The dict comprehension
    [{item.get(key): item for item in items if item.get(key)}].
    A later item replaces an earlier one under the same key, and a truthy
    key that is a list or a dict raises [TypeError].  The map is only ever
    probed with a [str], which equals no key of another type, so the
    entries under keys that are not strings are left out. *)
Definition lookup_map_step (key : string) (m : gmap string loc) (item : loc)
    : M (gmap string loc) :=
  k <~ item_get item key ;;
  match k with
  | Some v =>
      if truthy v then
        match v with
        | VStr s => ret (<[s := item]> m)
        | _ => if hashable v then ret m else raise (TypeError "unhashable type")
        end
      else ret m
  | None => ret m
  end.

Definition lookup_map (key : string) (items : list loc) : M (gmap string loc) :=
  for_fold (lookup_map_step key) items ∅.

(** The body of the loop over the identifiers; [matching] is the local
    list [matching_items]. *)
Definition find_step (items : list loc) (id_map name_map : gmap string loc)
    (matching : list loc) (identifier : string) : M (list loc) :=
  match py_int identifier with
  | Some index =>
      if (1 <=? index) && (index <=? Z.of_nat (length items)) then
        match items !! Z.to_nat (index - 1) with
        | Some item => ret (matching ++ [item])
        | None => raise IndexError
        end
      else
        emit (LogError (IndexOutOfRange index (length items))) ;;;
        ret matching
  | None =>
      match id_map !! identifier with
      | Some item => ret (matching ++ [item])
      | None =>
          match name_map !! identifier with
          | Some item => ret (matching ++ [item])
          | None =>
              emit (LogError (NoItemFound identifier)) ;;; ret matching
          end
      end
  end.

Definition find_items_by_identifier (items : list loc) (identifiers : string)
    (id_key name_key : string) : M (list loc) :=
  let identifier_list := map strip (split ","%char identifiers) in
  id_map <~ lookup_map id_key items ;;
  name_map <~ lookup_map name_key items ;;
  for_fold (find_step items id_map name_map) identifier_list [].

(** ** The confirmation port: [getch] and [confirm_action] *)

(** [getch()]: one character from the terminal, the empty string at end of
    input.  Failures of the terminal itself are not modelled. *)
Definition getch : M string :=
  fun w => match w_stdin w with
           | String c r => (Ok (String c EmptyString), set_stdin w r)
           | EmptyString => (Ok EmptyString, w)
           end.

(** A method of [str] applied to a value: [AttributeError] on anything that
    is not a string. *)
Definition as_str (method : string) (v : value) : M string :=
  match v with
  | VStr s => ret s
  | _ => raise (AttributeError method)
  end.

(** The account shown for an item: the first of the three keys present. *)
Definition account_of (item : loc) : M value :=
  p <~ item_get item "profile" ;;
  match p with
  | Some v => ret v
  | None =>
      a <~ item_get item "account_id" ;;
      match a with
      | Some v => ret v
      | None => item_get_default item "subscription_id" (VStr "")
      end
  end.

Definition confirm_action (items : list loc) (action_description : string)
    : M bool :=
  match items with
  | [] => ret false
  | _ =>
      emit (Print (ConfirmHeader action_description)) ;;;
      emit (Print ConfirmRule) ;;;
      for_each (fun item =>
        c <~ item_get_default item "cloud" (VStr "Unknown") ;;
        cloud <~ as_str "upper" c ;;
        name <~ item_get_default item "name" (VStr "Unknown") ;;
        account <~ account_of item ;;
        l <~ item_get_default item "location" (VStr "Unknown") ;;
        location <~ item_get_default item "region" l ;;
        emit (Print (ConfirmItem name (VStr cloud) account location))) items ;;;
      emit (Print ConfirmRule) ;;;
      emit (Print (ConfirmTotal (length items))) ;;;
      emit (Print ConfirmPrompt) ;;;
      c <~ getch ;;
      let response := py_lower c in
      emit (Print (ConfirmEcho response)) ;;;
      ret (String.eqb response "y")
  end.

(** ** ItemOperationExecutor: [execute_items_operation] *)

(** An operation handler: [(item) -> bool], may raise.  It reads the heap;
    what it does on the provider's side is outside the model. *)
Definition handler : Type := heap -> loc -> result bool.

(** [ThreadPoolExecutor(max_workers=n)] refuses a pool without workers. *)
Definition thread_pool (max_workers : Z) : M unit :=
  if max_workers <=? 0 then raise (ValueError "max_workers must be greater than 0")
  else ret tt.

(** [executor.submit(op, item)]: the call is handed to the pool, and the
    future holds what the call returns or raises. *)
Definition submit (cloud : string) (op : handler) (item : loc)
    : M (result bool) :=
  fun w => (Ok (op (w_heap w) item),
            set_calls w (w_calls w ++ [Call cloud item])).

(** The local counters of [execute_items_operation], returned for the
    proofs; the source logs them and returns [None]. *)
Record tally := Tally_ {
  success_count : nat;
  processed_count : nat;
  total_count : nat
}.

(** The body of the dispatch loop; [futures] is [future_to_item] in
    insertion order. *)
Definition dispatch_step (cloud_operations : gmap string handler)
    (futures : list (loc * result bool)) (item : loc)
    : M (list (loc * result bool)) :=
  c <~ item_get_default item "cloud" (VStr "") ;;
  s <~ as_str "lower" c ;;
  let cloud := py_lower s in
  match cloud_operations !! cloud with
  | Some op =>
      future <~ submit cloud op item ;;
      ret (futures ++ [(item, future)])
  | None =>
      name <~ item_get_default item "name" (VStr "unknown") ;;
      emit (LogWarning (UnknownCloud cloud name)) ;;;
      ret futures
  end.

(** The body of the loop over [as_completed]; the state is
    [(processed_count, success_count)]. *)
Definition completion_step (total_count : nat) (st : nat * nat)
    (completed : loc * result bool) : M (nat * nat) :=
  let item := completed.1 in
  let processed := S (fst st) in
  id <~ item_get_default item "id" (VStr "Unknown") ;;
  name <~ item_get_default item "name" id ;;
  c <~ item_get_default item "cloud" (VStr "unknown") ;;
  cloud <~ as_str "upper" c ;;
  emit (LogInfo (Progress processed total_count (VStr cloud) name)) ;;;
  match completed.2 with
  | Ok b => ret (processed, if b : bool then S (snd st) else snd st)
  | Raise e => emit (LogError (HandlerError e)) ;;; ret (processed, snd st)
  end.

Definition execute_items_operation (items : list loc)
    (cloud_operations : gmap string handler) (action_description : string)
    (confirm : bool) (max_workers : Z) (order : list nat)
    : M (option tally) :=
  match items with
  | [] => emit (LogInfo NoItems) ;;; ret None
  | _ =>
      go <~ (if confirm then
               confirm_action items
                 (action_description +:+ " " +:+ pretty (length items)
                    +:+ " item(s)")
             else ret true) ;;
      if negb go then emit (LogInfo Cancelled) ;;; ret None
      else
        emit (LogInfo (Starting action_description (length items))) ;;;
        let total_count := length items in
        thread_pool max_workers ;;;
        futures <~ for_fold (dispatch_step cloud_operations) items [] ;;
        st <~ for_fold (completion_step total_count)
                (as_completed futures order) (0%nat, 0%nat) ;;
        emit (LogInfo (Tally action_description (snd st) total_count)) ;;;
        ret (Some (Tally_ (snd st) (fst st) total_count))
  end.

(** ** DiscoveryExecutor: [execute_discovery_tasks] *)

(** [d[key]] on a dict of strings. *)
Definition dict_index (d : gmap string string) (key : string) : M string :=
  match d !! key with
  | Some v => ret v
  | None => raise (KeyError key)
  end.

Section Discovery.

(** Discovered items are opaque to the two discovery layers. *)
Context {A : Type}.

(** A task dictionary with its three keys ['func'], ['args'] and
    ['context']; the context is itself a dict. *)
Record task := Task {
  func : list string -> result (list A);
  args : list string;
  context : gmap string string
}.

(** The body of the loop over [as_completed]; the state is
    [(all_resources, completed_tasks)].  The results are added to
    [all_resources] before the line is logged, so they stay when the
    context has no ['resource']. *)
Definition discovery_step (total_tasks : nat) (st : list A * nat)
    (completed : result (list A) * gmap string string) : M (list A * nat) :=
  let context := completed.2 in
  let completed_tasks := S (snd st) in
  cloud <~ dict_index context "cloud" ;;
  let location := default "" (context !! "location") in
  let failed e :=
    emit (LogError (TaskError completed_tasks total_tasks cloud location e)) in
  match completed.1 with
  | Ok resources =>
      try_except
        (resource_name <~ dict_index context "resource" ;;
         emit (LogInfo (Found completed_tasks total_tasks cloud location
                          (length resources) resource_name)))
        failed ;;;
      ret (fst st ++ resources, completed_tasks)
  | Raise e => failed e ;;; ret (fst st, completed_tasks)
  end.

Definition execute_discovery_tasks (tasks : list task) (max_workers : Z)
    (order : list nat) : M (list A) :=
  match tasks with
  | [] => ret []
  | _ =>
      let total_tasks := length tasks in
      thread_pool max_workers ;;;
      let future_to_context :=
        map (fun t => (func t (args t), context t)) tasks in
      st <~ for_fold (discovery_step total_tasks)
              (as_completed future_to_context order) ([], 0%nat) ;;
      ret (fst st)
  end.

(** ** CloudAggregator: [discover_across_clouds] *)

(** A stats dict; a key that was never set is [None]. *)
Record stats_record := Stats {
  start_time : option Z;
  end_time : option Z;
  duration : option Z;
  count : option nat;
  status : option string;
  error : option string
}.

(** [{'start_time': t}] *)
Definition started (t : Z) : stats_record :=
  Stats (Some t) None None None None None.

(** [d.update({'end_time': .., 'duration': .., 'count': .., 'status': ..})] *)
Definition update_done (e d : Z) (n : nat) (st : string) (r : stats_record)
    : stats_record :=
  Stats (start_time r) (Some e) (Some d) (Some n) (Some st) (error r).

(** The same with an ['error'] key. *)
Definition update_failed (e d : Z) (msg : string) (r : stats_record)
    : stats_record :=
  Stats (start_time r) (Some e) (Some d) (Some 0%nat) (Some "failed") (Some msg).

(** [stats[name]['start_time']] *)
Definition start_of (stats : gmap string stats_record) (name : string) : M Z :=
  match stats !! name with
  | Some r =>
      match start_time r with
      | Some t => ret t
      | None => raise (KeyError "start_time")
      end
  | None => raise (KeyError name)
  end.

Record discovery := Discovery {
  items : list A;
  stats : gmap string stats_record
}.

(** The body of the submission loop; the state is [(stats, futures)], the
    futures in submission order with their cloud name. *)
Definition submit_cloud
    (st : gmap string stats_record * list (string * result (list A)))
    (entry : string * (unit -> result (list A)))
    : M (gmap string stats_record * list (string * result (list A))) :=
  start <~ now ;;
  ret (<[entry.1 := started start]> (fst st),
       snd st ++ [(entry.1, entry.2 tt)]).

(** The body of the loop over [as_completed]; the state is
    [(all_resources, stats)]. *)
Definition collect_cloud (st : list A * gmap string stats_record)
    (completed : string * result (list A))
    : M (list A * gmap string stats_record) :=
  let cloud := completed.1 in
  e <~ now ;;
  start <~ start_of (snd st) cloud ;;
  let d := e - start in
  match completed.2 with
  | Ok resources =>
      ret (fst st ++ resources,
           alter (update_done e d (length resources) "success") cloud (snd st))
  | Raise err =>
      ret (fst st, alter (update_failed e d (exn_str err)) cloud (snd st))
  end.

(** [cloud_discovery_functions] is the dict in insertion order. *)
Definition discover_across_clouds
    (cloud_discovery_functions : list (string * (unit -> result (list A))))
    (max_workers : Z) (order : list nat) : M discovery :=
  t0 <~ now ;;
  let stats0 : gmap string stats_record := {[ "all" := started t0 ]} in
  thread_pool max_workers ;;;
  sub <~ for_fold submit_cloud cloud_discovery_functions (stats0, []) ;;
  st <~ for_fold collect_cloud (as_completed (snd sub) order) ([], fst sub) ;;
  e <~ now ;;
  start <~ start_of (snd st) "all" ;;
  ret (Discovery (fst st)
         (alter (update_done e (e - start) (length (fst st)) "success") "all"
            (snd st))).

(** ** TaskBuilder for AWS: [awssvc.session.build_discovery_tasks] *)

Section Aws.

(** The two collaborators: the configured profiles
    ([config.get_aws_profiles]) and the provider's region listing for a
    profile (the [describe_regions] round trip). *)
Variable get_aws_profiles : result (list string).
Variable describe_regions : string -> result (list string).

Definition lift {B} (r : result B) : M B := fun w => (r, w).

Definition get_profiles : M (list string) := lift get_aws_profiles.

Definition get_regions (profile : string) : M (list string) :=
  p <~ (if String.eqb profile "" then
          profiles <~ lift get_aws_profiles ;;
          match profiles with
          | [] => raise (ValueError "No AWS profiles found in config")
          | p :: _ => ret p
          end
        else ret profile) ;;
  lift (describe_regions p).

Definition aws_task (get_resource_func : list string -> result (list A))
    (resource_name profile region : string) : task :=
  Task get_resource_func [profile; region]
    (<["cloud" := "aws"]>
       (<["location" := profile +:+ " " +:+ region]>
          (<["resource" := resource_name]> ∅))).

(** The body of the loop over the profiles; [tasks] is the local list. *)
Definition profile_step (get_resource_func : list string -> result (list A))
    (resource_name : string) (tasks : list task) (profile : string)
    : M (list task) :=
  try_except
    (regions <~ get_regions profile ;;
     ret (tasks ++ map (aws_task get_resource_func resource_name profile) regions))
    (fun e => emit (Print (RegionsError profile e)) ;;; ret tasks).

Definition build_discovery_tasks
    (get_resource_func : list string -> result (list A))
    (resource_name : string) : M (list task) :=
  try_except
    (profiles <~ get_profiles ;;
     match profiles with
     | [] => ret []
     | _ => for_fold (profile_step get_resource_func resource_name) profiles []
     end)
    (fun e => emit (Print (BuildError e)) ;;; ret []).

End Aws.

End Discovery.

Arguments task : clear implicits.
Arguments discovery : clear implicits.

(** ** Auxiliary definitions for the statements *)

(** The world after logging [evs]. *)
Definition logged (w : world) (evs : list event) : world :=
  set_log w (w_log w ++ evs).

(** The identifiers of an expression, as the loop sees them. *)
Definition tokens (identifiers : string) : list string :=
  map strip (split ","%char identifiers).

(** The fields under [key] can be used as dictionary keys. *)
Definition key_ok (h : heap) (key : string) (item : loc) : bool :=
  match field h item key with
  | Some v => implb (truthy v) (hashable v)
  | None => true
  end.

Definition keys_ok (h : heap) (key : string) (items : list loc) : bool :=
  forallb (key_ok h key) items.

(** The lookup dict as a value. *)
Definition index_entry (h : heap) (key : string) (m : gmap string loc)
    (item : loc) : gmap string loc :=
  match field h item key with
  | Some (VStr s) => if String.eqb s "" then m else <[s := item]> m
  | _ => m
  end.

Definition index_map (h : heap) (key : string) (items : list loc)
    : gmap string loc :=
  foldl (index_entry h key) ∅ items.

(** What one identifier selects and what it logs. *)
Definition resolve (items : list loc) (id_map name_map : gmap string loc)
    (identifier : string) : option loc * list event :=
  match py_int identifier with
  | Some index =>
      if (1 <=? index) && (index <=? Z.of_nat (length items)) then
        (items !! Z.to_nat (index - 1), [])
      else (None, [LogError (IndexOutOfRange index (length items))])
  | None =>
      match id_map !! identifier with
      | Some item => (Some item, [])
      | None =>
          match name_map !! identifier with
          | Some item => (Some item, [])
          | None => (None, [LogError (NoItemFound identifier)])
          end
      end
  end.

Definition selected (h : heap) (items : list loc) (id_key name_key : string)
    (identifier : string) : list loc :=
  option_list
    (resolve items (index_map h id_key items) (index_map h name_key items)
       identifier).1.

Definition complaints (h : heap) (items : list loc) (id_key name_key : string)
    (identifier : string) : list event :=
  (resolve items (index_map h id_key items) (index_map h name_key items)
     identifier).2.

(** The item has the string [tok] under [key]. *)
Definition holds (h : heap) (key tok : string) (item : loc) : bool :=
  match field h item key with
  | Some (VStr s) => String.eqb s tok
  | _ => false
  end.

(** The last candidate that has [tok] under [key]. *)
Fixpoint last_holding (h : heap) (key tok : string) (items : list loc)
    : option loc :=
  match items with
  | [] => None
  | item :: rest =>
      match last_holding h key tok rest with
      | Some x => Some x
      | None => if holds h key tok item then Some item else None
      end
  end.

(** The resolution of one identifier in the words of the specification:
    an integer is a 1-based index; otherwise the identifier selects a
    candidate by its id, otherwise by its name.  The empty identifier
    matches no candidate, and among several candidates with the same id
    (or name) the last one is selected. *)
Definition resolve_spec (h : heap) (items : list loc) (id_key name_key : string)
    (identifier : string) : option loc * list event :=
  match py_int identifier with
  | Some index =>
      if (1 <=? index) && (index <=? Z.of_nat (length items)) then
        (items !! Z.to_nat (index - 1), [])
      else (None, [LogError (IndexOutOfRange index (length items))])
  | None =>
      let by_id :=
        if String.eqb identifier "" then None
        else last_holding h id_key identifier items in
      let by_name :=
        if String.eqb identifier "" then None
        else last_holding h name_key identifier items in
      match by_id with
      | Some item => (Some item, [])
      | None =>
          match by_name with
          | Some item => (Some item, [])
          | None => (None, [LogError (NoItemFound identifier)])
          end
      end
  end.

(** What an integer identifier selects: a function of the candidate list
    alone. *)
Definition positional (items : list loc) (identifier : string) : list loc :=
  match py_int identifier with
  | Some index =>
      if (1 <=? index) && (index <=? Z.of_nat (length items)) then
        option_list (items !! Z.to_nat (index - 1))
      else []
  | None => []
  end.

(** *** A small inventory used in the examples *)

Definition ex_item (id name cloud : string) : Item :=
  {[ "id" := VStr id; "name" := VStr name; "cloud" := VStr cloud ]}.

Definition ex_heap : heap :=
  {[ 1%positive := ex_item "a" "web" "aws";
     2%positive := ex_item "b" "db" "Azure";
     3%positive := ex_item "c" "cache" "unknown-cloud" ]}.

Definition ex_world (keys : string) : world :=
  World ex_heap [] [] keys (fun n => Z.of_nat n) 0.

(** One item whose id is the empty string. *)
Definition ex_blank_world : world :=
  World {[ 1%positive := ex_item "" "web" "aws" ]} [] [] ""
    (fun n => Z.of_nat n) 0.

(** The first candidate has the id ["2"]. *)
Definition ex_numeric_world : world :=
  World {[ 1%positive := ex_item "2" "web" "aws";
           2%positive := ex_item "b" "db" "azure" ]} [] [] ""
    (fun n => Z.of_nat n) 0.

(** From [w] to [w'] no dict object was touched, the only handler
    invocations handed to the pool are on items of [items], and what was
    logged or printed satisfies [P]. *)
Definition quiet (P : event -> Prop) (items : list loc) (w w' : world) : Prop :=
  w_heap w' = w_heap w
  /\ (exists cs, w_calls w' = w_calls w ++ cs
                 /\ Forall (fun c => call_item c ∈ items) cs)
  /\ (exists evs, w_log w' = w_log w ++ evs /\ Forall P evs).

Definition respects {A} (P : event -> Prop) (items : list loc) (m : M A)
    : Prop :=
  forall w, quiet P items w (m w).2.

Definition is_print (e : event) : Prop :=
  match e with
  | Print _ => True
  | _ => False
  end.

Definition any_event (e : event) : Prop := True.

(** The world after handing the calls [cs] to the pool. *)
Definition called (w : world) (cs : list call) : world :=
  set_calls w (w_calls w ++ cs).

(** The handler-map key an item is looked up under:
    [item.get('cloud', '').lower()], and [None] when the tag is not a
    string, where [.lower()] raises. *)
Definition provider_tag (h : heap) (item : loc) : option string :=
  match field h item "cloud" with
  | None => Some ""
  | Some (VStr s) => Some (py_lower s)
  | Some _ => None
  end.

Definition tags_ok (h : heap) (items : list loc) : bool :=
  forallb (fun item => bool_decide (is_Some (provider_tag h item))) items.

(** The handler an item is dispatched to, with its key. *)
Definition handler_of (h : heap) (ops : gmap string handler) (item : loc)
    : option (string * handler) :=
  c ← provider_tag h item; op ← ops !! c; Some (c, op).

(** The items that are dispatched, the futures and the calls this gives,
    and the warnings for the others. *)
Definition dispatched (h : heap) (ops : gmap string handler)
    (items : list loc) : list loc :=
  filter (fun item => is_Some (handler_of h ops item)) items.

Definition futures_of (h : heap) (ops : gmap string handler)
    (items : list loc) : list (loc * result bool) :=
  omap (fun item => (fun co : string * handler => (item, co.2 h item))
                      <$> handler_of h ops item) items.

Definition calls_of (h : heap) (ops : gmap string handler)
    (items : list loc) : list call :=
  omap (fun item => (fun co : string * handler => Call co.1 item)
                      <$> handler_of h ops item) items.

Definition warnings_of (h : heap) (ops : gmap string handler)
    (items : list loc) : list event :=
  items ≫= fun item =>
    match handler_of h ops item with
    | Some _ => []
    | None =>
        [LogWarning
           (UnknownCloud (default "" (provider_tag h item))
              (default (VStr "unknown") (field h item "name")))]
    end.

(** The handler returned a true value. *)
Definition succeeded (f : loc * result bool) : bool :=
  match f.2 with
  | Ok true => true
  | _ => false
  end.

Definition successes (fs : list (loc * result bool)) : nat :=
  length (List.filter succeeded fs).

(** Handlers and handler maps used in the examples. *)
Definition ex_ok : handler := fun _ _ => Ok true.

Definition ex_ops : gmap string handler :=
  {[ "aws" := ex_ok; "azure" := ex_ok ]}.

Definition ex_upper_ops : gmap string handler := {[ "AWS" := ex_ok ]}.

(** C3 as the specification states it: the total of the final tally counts
    the dispatched items only. *)
Definition tally_over_dispatched (h : heap) (ops : gmap string handler)
    (items : list loc) (t : tally) : Prop :=
  total_count t = length (dispatched h ops items).

(** C8 as the specification states it: an item is dispatched whenever its
    tag equals a key of the handler map ignoring letter case. *)
Definition case_insensitive_dispatch (h : heap) (ops : gmap string handler)
    (items : list loc) (calls : list call) : Prop :=
  forall item tag key,
    item ∈ items -> field h item "cloud" = Some (VStr tag) ->
    is_Some (ops !! key) -> py_lower tag = py_lower key ->
    exists c, Call c item ∈ calls.

(** What a task contributes: its result list, nothing when it raises. *)
Definition task_block {A} (t : task A) : list A :=
  match func t (args t) with
  | Ok resources => resources
  | Raise _ => []
  end.

(** Every task context names its cloud. *)
Definition contexts_ok {A} (tasks : list (task A)) : bool :=
  forallb (fun t => bool_decide (is_Some (context t !! "cloud"))) tasks.

(** Tasks used in the examples: the second one raises, the third one has no
    ['resource'] in its context. *)
Definition ex_tasks : list (task nat) :=
  [ Task (fun _ => Ok [1; 2]%nat) ["p"; "r1"]
      {[ "cloud" := "aws"; "location" := "p r1"; "resource" := "VM" ]};
    Task (fun _ => Raise (Error "throttled")) ["p"; "r2"]
      {[ "cloud" := "aws"; "location" := "p r2"; "resource" := "VM" ]};
    Task (fun _ => Ok [3]%nat) ["q"] {[ "cloud" := "gcp" ]} ].

(** The regions [get_regions] returns for a profile, as a value. *)
Definition regions_of (get_aws_profiles : result (list string))
    (describe_regions : string -> result (list string)) (profile : string)
    : result (list string) :=
  if String.eqb profile "" then
    match get_aws_profiles with
    | Ok [] => Raise (ValueError "No AWS profiles found in config")
    | Ok (p :: _) => describe_regions p
    | Raise e => Raise e
    end
  else describe_regions profile.

(** The tasks built for one profile, and what is printed for it. *)
Definition profile_tasks {A} (get_aws_profiles : result (list string))
    (describe_regions : string -> result (list string))
    (get_resource_func : list string -> result (list A))
    (resource_name profile : string) : list (task A) :=
  match regions_of get_aws_profiles describe_regions profile with
  | Ok regions => aws_task get_resource_func resource_name profile <$> regions
  | Raise _ => []
  end.

Definition profile_prints (get_aws_profiles : result (list string))
    (describe_regions : string -> result (list string)) (profile : string)
    : list event :=
  match regions_of get_aws_profiles describe_regions profile with
  | Ok _ => []
  | Raise e => [Print (RegionsError profile e)]
  end.

(** What a provider contributes to the merged list. *)
Definition cloud_block {A} (entry : string * (unit -> result (list A)))
    : list A :=
  match entry.2 tt with
  | Ok resources => resources
  | Raise _ => []
  end.

(** The stats record of a provider whose discovery function had the
    outcome [out], as the specification gives it. *)
Definition provider_record {A} (out : result (list A)) (r : stats_record)
    : Prop :=
  match out with
  | Ok resources =>
      status r = Some "success" /\ count r = Some (length resources)
      /\ error r = None
  | Raise e =>
      status r = Some "failed" /\ count r = Some 0%nat
      /\ error r = Some (exn_str e)
  end.

(** C2 as the specification states it, for the per-provider records: every
    provider of the mapping has the record of its outcome. *)
Definition per_provider_stats {A}
    (funcs : list (string * (unit -> result (list A)))) (d : discovery A)
    : Prop :=
  forall name f, (name, f) ∈ funcs ->
    exists r, stats d !! name = Some r /\ provider_record (f tt) r.

(** Discovery functions used in the examples. *)
Definition ex_clouds : list (string * (unit -> result (list nat))) :=
  [ ("aws", fun _ => Ok [1; 2]%nat);
    ("azure", fun _ => Raise (Error "login expired"));
    ("gcp", fun _ => Ok [3]%nat) ].

Definition ex_all_cloud : list (string * (unit -> result (list nat))) :=
  [ ("all", fun _ => Raise (Error "down")) ].

(** The future of a provider, and what it contributes. *)
Definition future_of {A} (entry : string * (unit -> result (list A)))
    : string * result (list A) :=
  (entry.1, entry.2 tt).

Definition future_block {A} (f : string * result (list A)) : list A :=
  match f.2 with
  | Ok resources => resources
  | Raise _ => []
  end.

(** The record of a provider once its future was collected. *)
Definition collected {A} (f : string * result (list A)) (r : stats_record)
    : Prop :=
  is_Some (start_time r) /\ provider_record f.2 r.

(** The invariant of the collecting loop, [pre] being the futures collected
    so far: the merged list holds their blocks, a collected provider has the
    record of its outcome, and a provider still running has the record made
    at submission. *)
Definition collecting {A} (names : list string)
    (pre : list (string * result (list A)))
    (st : list A * gmap string stats_record) : Prop :=
  st.1 = pre ≫= future_block
  /\ forall name, name ∈ names ->
       (forall f, f ∈ pre -> f.1 = name ->
          exists r, st.2 !! name = Some r /\ collected f r)
       /\ (name ∉ pre.*1 -> exists t, st.2 !! name = Some (started t)).

(** C6 as the specification states it: the same three tiers, an identifier
    that is not an integer selecting a candidate whose id, otherwise whose
    name, is exactly the identifier. *)
Definition resolve_as_stated (h : heap) (items : list loc)
    (id_key name_key : string) (identifier : string) : option loc :=
  match py_int identifier with
  | Some index =>
      if (1 <=? index) && (index <=? Z.of_nat (length items)) then
        items !! Z.to_nat (index - 1)
      else None
  | None =>
      match last_holding h id_key identifier items with
      | Some item => Some item
      | None => last_holding h name_key identifier items
      end
  end.

(** One item whose id is a list, and a task whose context is empty. *)
Definition ex_list_id_world : world :=
  World {[ 1%positive := <["id" := VList [VStr "a"]]> (ex_item "a" "web" "aws") ]}
    [] [] "" (fun n => Z.of_nat n) 0.

Definition ex_bare_task : task nat := Task (fun _ => Ok [1]%nat) ["p"] ∅.

(** ** Auxiliary definitions for further properties *)

(** The answer the confirmation prompt reads from what the terminal will
    deliver: yes on [y] or [Y], no on any other key and at end of input. *)
Definition accepts (keys : string) : bool :=
  match keys with
  | String c _ => Ascii.eqb c "y"%char || Ascii.eqb c "Y"%char
  | EmptyString => false
  end.

(** What is left on the terminal after one key was read. *)
Definition after_key (keys : string) : string :=
  match keys with
  | String _ r => r
  | EmptyString => EmptyString
  end.

(** The line printed for one item by [confirm_action]. *)
Definition confirm_line (h : heap) (item : loc) : event :=
  Print
    (ConfirmItem
       (default (VStr "Unknown") (field h item "name"))
       (default (VStr "Unknown") (field h item "cloud"))
       (match field h item "profile" with
        | Some v => v
        | None =>
            match field h item "account_id" with
            | Some v => v
            | None => default (VStr "") (field h item "subscription_id")
            end
        end)
       (default (default (VStr "Unknown") (field h item "location"))
          (field h item "region"))).

(** Everything [confirm_action] prints for a non-empty list. *)
Definition confirm_prints (h : heap) (items : list loc) (descr keys : string)
    : list event :=
  [Print (ConfirmHeader descr); Print ConfirmRule]
  ++ (confirm_line h <$> items)
  ++ [Print ConfirmRule; Print (ConfirmTotal (length items));
      Print ConfirmPrompt;
      Print (ConfirmEcho (py_lower (match keys with
                                    | String c _ => String c EmptyString
                                    | EmptyString => EmptyString
                                    end)))].

(** The one line [execute_discovery_tasks] logs for a task, the [k]-th to
    complete out of [total]: an info line for a result, an error line for
    an exception, also the [KeyError] of a context without ['resource']. *)
Definition task_line {A} (total k : nat) (t : task A) : event :=
  let cloud := default "" (context t !! "cloud") in
  let location := default "" (context t !! "location") in
  match func t (args t) with
  | Ok resources =>
      match context t !! "resource" with
      | Some name =>
          LogInfo (Found k total cloud location (length resources) name)
      | None =>
          LogError (TaskError k total cloud location (KeyError "resource"))
      end
  | Raise e => LogError (TaskError k total cloud location e)
  end.

(** The number of commas of an expression. *)
Fixpoint commas (s : string) : nat :=
  match s with
  | String c r => if Ascii.eqb c ","%char then S (commas r) else commas r
  | EmptyString => 0
  end.

Definition is_error (e : event) : Prop :=
  match e with
  | LogError _ => True
  | _ => False
  end.

(** All characters of a string are decimal digits. *)
Fixpoint all_digits (s : string) : bool :=
  match s with
  | String c r => bool_decide (is_Some (digit c)) && all_digits r
  | EmptyString => true
  end.

(** A stats record whose start was read from the clock at a reading in
    [lo, mid), whose end was read at a reading in [mid, hi), and whose
    duration is the difference of the two. *)
Definition timed_record (clock : nat -> Z) (lo mid hi : nat)
    (r : stats_record) : Prop :=
  exists j j', (lo <= j < mid)%nat /\ (mid <= j' < hi)%nat
    /\ start_time r = Some (clock j) /\ end_time r = Some (clock j')
    /\ duration r = Some (clock j' - clock j).

(** The clock never goes back. *)
Definition monotone (clock : nat -> Z) : Prop :=
  forall i j, (i <= j)%nat -> clock i <= clock j.

(** The invariant of the collecting loop with the clock: [k0] is the
    reading taken for the aggregate, the providers were submitted at the
    readings [k0 + 1 .. k1 - 1] and are collected from [k1] on. *)
Definition collecting_timed {A} (clock : nat -> Z) (k0 k1 : nat)
    (names : list string) (D : gset string)
    (pre : list (string * result (list A)))
    (st : list A * gmap string stats_record) (w : world) : Prop :=
  w_clock w = clock
  /\ w_ticks w = (k1 + length pre)%nat
  /\ dom st.2 = D
  /\ st.2 !! "all" = Some (started (clock k0))
  /\ forall name, name ∈ names ->
       (name ∈ pre.*1 ->
        exists r, st.2 !! name = Some r
                  /\ timed_record clock (S k0) k1 (k1 + length pre) r)
       /\ (name ∉ pre.*1 ->
           exists j, (S k0 <= j < k1)%nat
                     /\ st.2 !! name = Some (started (clock j))).

(** ** Further code of [utils.py]: [truncate_account_name] and
    [normalize_tags] *)

(** [s[:n]] and [s[n:]] for [n >= 0]. *)
Fixpoint str_take (n : nat) (s : string) : string :=
  match n, s with
  | S n', String c r => String c (str_take n' r)
  | _, _ => EmptyString
  end.

Fixpoint str_drop (n : nat) (s : string) : string :=
  match n, s with
  | S n', String _ r => str_drop n' r
  | _, _ => s
  end.

(** [s[-n:]] for [n > 0]: the last [n] characters, the whole string when it
    is shorter. *)
Definition str_last (n : nat) (s : string) : string :=
  str_drop (String.length s - n) s.

Definition truncate_account_name (account_name : string) : string :=
  if (20 <? String.length account_name)%nat then
    str_take 10 account_name +:+ "..." +:+ str_last 7 account_name
  else account_name.

(** A Python dict with string keys, in insertion order. *)
Abbreviation pydict := (list (string * value)).

(** [d[k] = v]: the value is replaced where the key is, a new key goes to
    the end. *)
Fixpoint dict_set (k : string) (v : value) (d : pydict) : pydict :=
  match d with
  | [] => [(k, v)]
  | (k', v') :: r =>
      if String.eqb k' k then (k, v) :: r else (k', v') :: dict_set k v r
  end.

(** [d.get(k)] *)
Fixpoint dict_get (k : string) (d : pydict) : option value :=
  match d with
  | [] => None
  | (k', v') :: r => if String.eqb k' k then Some v' else dict_get k r
  end.

(** One step of the loop over a list of AWS tags: a dict with ['Key'] and
    ['Value'] sets the lower-cased key, anything else is passed over; a key
    that is not a string has no [.lower()]. *)
Definition aws_tag_step (tags : pydict) (tag : value) : result pydict :=
  match tag with
  | VDict t =>
      match dict_get "Key" t, dict_get "Value" t with
      | Some key, Some v =>
          match key with
          | VStr k => Ok (dict_set (py_lower k) v tags)
          | _ => Raise (AttributeError "lower")
          end
      | _, _ => Ok tags
      end
  | _ => Ok tags
  end.

Fixpoint aws_tags (l : list value) (tags : pydict) : result pydict :=
  match l with
  | [] => Ok tags
  | tag :: r =>
      match aws_tag_step tags tag with
      | Ok tags' => aws_tags r tags'
      | Raise e => Raise e
      end
  end.

(** The loop over the items of a dict of tags or labels. *)
Definition dict_tags (d : pydict) (tags : pydict) : pydict :=
  foldl (fun acc kv => dict_set (py_lower kv.1) kv.2 acc) tags d.

Definition normalize_tags (tags_input : value) : result pydict :=
  if truthy tags_input then
    match tags_input with
    | VList l => aws_tags l []
    | VDict d => Ok (dict_tags d [])
    | _ => Ok []
    end
  else Ok [].

(** The value of the last entry of [d] whose lower-cased key is [k]. *)
Fixpoint last_lowered (k : string) (d : pydict) : option value :=
  match d with
  | [] => None
  | (k', v) :: r =>
      match last_lowered k r with
      | Some x => Some x
      | None => if String.eqb (py_lower k') k then Some v else None
      end
  end.

(** All keys are in lower case. *)
Definition lower_keys (d : pydict) : Prop :=
  Forall (fun kv : string * value => py_lower kv.1 = kv.1) d.

(** ** The scripts around the core

    The command-line scripts log lines of their own, read files and leave
    through [sys.exit].  They are embedded in a second monad [X] over the
    world of the core: its state adds the transcript of the script, into
    which the lines of the core are copied in the order in which they
    appear, and its outcomes add the exit. *)

(** A row of the table of [print_vms]: number, name, cloud, account and
    region. *)
Record vm_row := VmRow {
  row_idx : nat;
  row_name : string;
  row_cloud : value;
  row_account : value;
  row_region : value
}.

(** A row of the table of [print_vpcs]. *)
Record vpc_row := VpcRow {
  vrow_idx : nat;
  vrow_name : value;
  vrow_cloud : string;       (* shown in upper case *)
  vrow_account : value;
  vrow_location : value;
  vrow_cidr : value;
  vrow_eni_count : value;
  vrow_vm_count : value
}.

(** One line of the transcript of a script. *)
Inductive xline :=
  | Core (e : event)                       (* a line of the core *)
  (* utils.process_identifiers_input *)
  | NoPathAfterAt
  | FileNotFound (path : string)
  | ReadFailed (path : string) (e : exn)
  | NoIdentifiersInFile (path : string)
  | LoadedIdentifiers (n : nat) (path : string)
  (* utils.load_from_json *)
  | InventoryNotFound (filename : string)
  | InventoryInvalid (filename : string)
  (* utils.log_discovery_stats *)
  | SummaryTitle
  | SummaryRule
  | CloudSummary (cloud : string) (duration : Z) (count : nat)
                 (resource_type : string)
  | CloudFailure (error : string)
  | TotalDiscovered (resource_type : string) (count : nat)
  | TotalTime (duration : Z)
  (* csp.vm and csp.vpc *)
  | TagToAdd (tag_name tag_value : string)
  | ProtectionStatus (status : string)
  (* vm.py *)
  | NoVmsFound
  | FoundVms (n : nat)
  | VmTable (rows : list vm_row)           (* [print(tabulate(..))] *)
  | BlankLine
  | TagAndValueTogether
  | NoMatchingVms
  | DeleteNeedsFilter
  | DeletePreventsAccident
  (* session.build_discovery_tasks of Azure and GCP *)
  | AzureBuildError (e : exn)
  | GcpBuildError (e : exn)
  (* vpc.py *)
  | NoVpcsFound
  | VpcTable (rows : list vpc_row)         (* [print(tabulate(..))] *)
  (* refresh_all.py *)
  | RefreshStarting
  | RefreshComplete
  | InventoryUpdated
  | InventoryFiles (json xlsx : string)
  | RefreshTotalTime (text : string).

Record xstate := XState {
  x_world : world;        (* the world of the core *)
  x_out : list xline      (* the transcript, oldest first *)
}.

Inductive outcome (A : Type) :=
  | Done (a : A)
  | Failed (e : exn)       (* an [Exception] propagates *)
  | Exited (code : Z).     (* [sys.exit(code)] *)
Arguments Done {A} a.
Arguments Failed {A} e.
Arguments Exited {A} code.

Definition X (A : Type) : Type := xstate -> outcome A * xstate.

Definition xret {A} (a : A) : X A := fun s => (Done a, s).

Definition xbind {A B} (m : X A) (k : A -> X B) : X B :=
  fun s => match m s with
           | (Done a, s') => k a s'
           | (Failed e, s') => (Failed e, s')
           | (Exited c, s') => (Exited c, s')
           end.

Definition xraise {A} (e : exn) : X A := fun s => (Failed e, s).

(** [sys.exit(code)] *)
Definition xexit {A} (code : Z) : X A := fun s => (Exited code, s).

(** [try: m except Exception as e: h e]; an exit is not an [Exception]. *)
Definition xtry {A} (m : X A) (h : exn -> X A) : X A :=
  fun s => match m s with
           | (Failed e, s') => h e s'
           | other => other
           end.

Definition xemit (l : xline) : X unit :=
  fun s => (Done tt, XState (x_world s) (x_out s ++ [l])).

(** A call of the core from a script: the lines the core logs are copied to
    the transcript. *)
Definition core {A} (m : M A) : X A :=
  fun s =>
    let w := x_world s in
    match m w with
    | (r, w') =>
        (match r with Ok a => Done a | Raise e => Failed e end,
         XState w' (x_out s ++ (Core <$> drop (length (w_log w)) (w_log w'))))
    end.

Declare Scope script_scope.
Delimit Scope script_scope with script.
Notation "x <~ m ;; k" := (xbind m (fun x => k))
  (at level 100, m at next level, right associativity) : script_scope.
Notation "m ;;; k" := (xbind m (fun _ => k))
  (at level 100, right associativity) : script_scope.

(** *** [utils.process_identifiers_input] *)

(** [str.splitlines]: the characters that end a line (LF, VT, FF, CR, FS,
    GS, RS, NEL). *)
Definition is_linebreak (c : ascii) : bool :=
  let n := code c in
  ((10 <=? n) && (n <=? 13)) || ((28 <=? n) && (n <=? 30)) || (n =? 133).

(** [s.splitlines(keepends=True)]: every line with its line end; a CR
    followed by LF is one line end. *)
Fixpoint splitlines (s : string) : list string :=
  match s with
  | EmptyString => []
  | String c r =>
      if is_linebreak c then
        match r with
        | String d r' =>
            if Ascii.eqb c "013"%char && Ascii.eqb d "010"%char
            then String c (String d EmptyString) :: splitlines r'
            else String c EmptyString :: splitlines r
        | EmptyString => [String c EmptyString]
        end
      else
        match splitlines r with
        | l :: ls => String c l :: ls
        | [] => [String c EmptyString]
        end
  end.

(** [sep.join(l)] *)
Fixpoint join (sep : string) (l : list string) : string :=
  match l with
  | [] => EmptyString
  | [x] => x
  | x :: r => x +:+ sep +:+ join sep r
  end.

(** What the file system holds under a path. *)
Inductive file :=
  | Unreachable (e : exn)         (* [exists()] raises, as for a directory
                                     that may not be searched *)
  | Missing                       (* [exists()] is false *)
  | Unreadable (e : exn)          (* [read_text()] raises *)
  | Text (content : string).      (* [read_text()] returns *)

(** [[line.strip() for line in lines if line.strip()]] *)
Definition nonblank_lines (content : string) : list string :=
  List.filter (fun l => negb (String.eqb l "")) (strip <$> splitlines content).

Section Files.

(** [Path.expanduser] and the file system are the collaborators;
    [expanduser] raises when the home directory of a [~] cannot be found. *)
Variable expanduser : string -> result string.
Variable fs : string -> file.

Local Open Scope script_scope.

Definition process_identifiers_input (identifiers : string) : X string :=
  match identifiers with
  | String "@"%char rest =>
      let file_path_str := strip rest in
      if String.eqb file_path_str "" then
        xemit NoPathAfterAt ;;; xexit 1
      else
        match expanduser file_path_str with
        | Raise e => xraise e
        | Ok file_path =>
            match fs file_path with
            | Unreachable e => xraise e
            | Missing => xemit (FileNotFound file_path) ;;; xexit 1
            | Unreadable e => xemit (ReadFailed file_path e) ;;; xexit 1
            | Text content =>
                let identifiers_list := nonblank_lines content in
                match identifiers_list with
                | [] => xemit (NoIdentifiersInFile file_path) ;;; xexit 1
                | _ =>
                    let result := join "," identifiers_list in
                    xemit (LoadedIdentifiers (length identifiers_list)
                             file_path) ;;;
                    xret result
                end
            end
        end
  | _ => xret identifiers
  end.

End Files.

(** A line of the transcript that [logger.error] wrote. *)
Definition is_xerror (l : xline) : bool :=
  match l with
  | Core (LogError _) => true
  | NoPathAfterAt | FileNotFound _ | ReadFailed _ _ | NoIdentifiersInFile _
  | InventoryNotFound _ | InventoryInvalid _ | CloudFailure _
  | TagAndValueTogether | DeleteNeedsFilter | DeletePreventsAccident => true
  | _ => false
  end.

(** A file system with one file of identifiers, and a home directory that
    needs no expansion. *)
Definition ex_expanduser (p : string) : result string := Ok p.

Definition ex_fs (p : string) : file :=
  if String.eqb p "ids.txt" then Text "i-1
  web 1  

i-2" else Missing.

Definition ex_state : xstate := XState (ex_world "") [].

(** *** [csp/vm.py]: the operations on items of all providers

    The handlers of the provider modules are the collaborators.  The
    operations of [csp/vpc.py] are the same with the handlers of the VPC
    modules and "VPCs" in the descriptions. *)

(** The dict literal [{'aws': .., 'azure': .., 'gcp': ..}]. *)
Definition by_cloud {V} (aws azure gcp : V) : gmap string V :=
  <["gcp" := gcp]> (<["azure" := azure]> (<["aws" := aws]> ∅)).

Section Csp.

Variables aws_delete azure_delete gcp_delete : handler.
Variables aws_add_tag azure_add_tag gcp_add_tag : string -> string -> handler.
Variables aws_set_protection azure_set_protection gcp_set_protection
  : bool -> handler.

Local Open Scope script_scope.

Definition csp_delete (vms : list loc) (order : list nat) : X unit :=
  let cloud_operations := by_cloud aws_delete azure_delete gcp_delete in
  core (execute_items_operation vms cloud_operations "Delete VMs" true 10
          order) ;;;
  xret tt.

Definition csp_add_tag (vms : list loc) (tag_name tag_value : string)
    (order : list nat) : X unit :=
  xemit (TagToAdd tag_name tag_value) ;;;
  let cloud_operations :=
    by_cloud (aws_add_tag tag_name tag_value)
             (azure_add_tag tag_name tag_value)
             (gcp_add_tag tag_name tag_value) in
  core (execute_items_operation vms cloud_operations "Tag VMs" true 10
          order) ;;;
  xret tt.

Definition csp_set_protection (vms : list loc) (value : bool)
    (order : list nat) : X unit :=
  let status := if value then "enable" else "disable" in
  xemit (ProtectionStatus status) ;;;
  let cloud_operations :=
    by_cloud (aws_set_protection value) (azure_set_protection value)
             (gcp_set_protection value) in
  (* [status.capitalize()] *)
  let capitalized := if value then "Enable" else "Disable" in
  core (execute_items_operation vms cloud_operations
          (capitalized +:+ " protection") true 10 order) ;;;
  xret tt.

(** The three operations, for the statements about all of them. *)
Inductive csp_operation :=
  | Delete
  | AddTag (tag_name tag_value : string)
  | SetProtection (value : bool).

Definition csp_apply (op : csp_operation) (vms : list loc) (order : list nat)
    : X unit :=
  match op with
  | Delete => csp_delete vms order
  | AddTag tag_name tag_value => csp_add_tag vms tag_name tag_value order
  | SetProtection value => csp_set_protection vms value order
  end.

End Csp.

(** The providers the scripts know. *)
Definition providers : list string := ["aws"; "azure"; "gcp"].

(** Handlers for the examples: AWS succeeds, Azure fails, GCP raises. *)
Definition ex_yes : handler := fun _ _ => Ok true.
Definition ex_no : handler := fun _ _ => Ok false.
Definition ex_boom : handler := fun _ _ => Raise (Error "quota").

(** [for x in l: body x] in a script. *)
Fixpoint xfor_each {A} (body : A -> X unit) (l : list A) : X unit :=
  match l with
  | [] => xret tt
  | x :: r => xbind (body x) (fun _ => xfor_each body r)
  end.

(** *** [utils.log_discovery_stats] *)

(** [d[key]] on a stats dict. *)
Definition stats_index {V} (field : option V) (key : string) : X V :=
  match field with
  | Some v => xret v
  | None => xraise (KeyError key)
  end.

Local Open Scope script_scope.

(** The body of the loop over the providers.  The line carries the name of
    the cloud, which the source prints in upper case. *)
Definition log_cloud_stats (stats : gmap string stats_record)
    (resource_type : string) (cloud : string) : X unit :=
  match stats !! cloud with
  | Some cloud_stats =>
      d <~ stats_index (duration cloud_stats) "duration" ;;
      n <~ stats_index (count cloud_stats) "count" ;;
      xemit (CloudSummary cloud d n resource_type) ;;;
      st <~ stats_index (status cloud_stats) "status" ;;
      if String.eqb st "failed" then
        xemit (CloudFailure (default "Unknown" (error cloud_stats)))
      else xret tt
  | None => xret tt
  end.

Definition log_discovery_stats (stats : gmap string stats_record)
    (resource_type : string) : X unit :=
  xemit SummaryTitle ;;;
  xemit SummaryRule ;;;
  xfor_each (log_cloud_stats stats resource_type) ["aws"; "azure"; "gcp"] ;;;
  xemit SummaryRule ;;;
  all <~ stats_index (stats !! "all") "all" ;;
  n <~ stats_index (count all) "count" ;;
  xemit (TotalDiscovered resource_type n) ;;;
  d <~ stats_index (duration all) "duration" ;;
  xemit (TotalTime d).

Local Close Scope script_scope.

(** *** [csp.vm.discover] and [refresh] of [vm.py] *)

Section Refresh.

Context {A : Type}.

(** The discovery functions of the provider modules, and the two writers of
    the inventory files, are the collaborators. *)
Variables aws_discover azure_discover gcp_discover : unit -> result (list A).
Variable save_to_json : list A -> string -> X unit.
Variable save_vms_to_excel : list A -> string -> X unit.

(** The directory of the inventory, next to the scripts. *)
Variable inventory_dir : string.

Definition get_inventory_path (resource_type extension : string) : string :=
  inventory_dir +:+ "/" +:+ resource_type +:+ "." +:+ extension.

Definition csp_discover (order : list nat) : M (discovery A) :=
  discover_across_clouds
    [("aws", aws_discover); ("azure", azure_discover); ("gcp", gcp_discover)]
    3 order.

Local Open Scope script_scope.

Definition refresh (order : list nat) : X unit :=
  result <~ core (csp_discover order) ;;
  log_discovery_stats (stats result) "VM" ;;;
  save_to_json (items result) (get_inventory_path "vm" "json") ;;;
  save_vms_to_excel (items result) (get_inventory_path "vm" "xlsx").

End Refresh.

(** The lines of the summary for one provider whose discovery function had
    the outcome [out] and took [d]. *)
Definition summary_lines {A} (resource_type cloud : string)
    (out : result (list A)) (d : Z) : list xline :=
  match out with
  | Ok resources => [CloudSummary cloud d (length resources) resource_type]
  | Raise e => [CloudSummary cloud d 0 resource_type; CloudFailure (exn_str e)]
  end.

(** What a provider contributes to the merged list. *)
Definition found {A} (out : result (list A)) : list A :=
  match out with
  | Ok resources => resources
  | Raise _ => []
  end.

(** Everything of the world but the clock. *)
Definition beside_clock (w w' : world) : Prop :=
  w_heap w' = w_heap w /\ w_log w' = w_log w /\ w_calls w' = w_calls w
  /\ w_stdin w' = w_stdin w.

(** Discovery functions for the examples: AWS finds two resources, Azure
    fails, GCP finds one. *)
Definition ex_aws_discover : unit -> result (list nat) :=
  fun _ => Ok [1; 2]%nat.
Definition ex_azure_discover : unit -> result (list nat) :=
  fun _ => Raise (Error "login expired").
Definition ex_gcp_discover : unit -> result (list nat) :=
  fun _ => Ok [3]%nat.

(** *** [print_vms] of [vm.py] *)

(** [s.split()]: the words between runs of whitespace. *)
Fixpoint words (s : string) : list string :=
  match s with
  | EmptyString => []
  | String c r =>
      if py_isspace c then words r
      else
        match r with
        | EmptyString => [String c EmptyString]
        | String d _ =>
            if py_isspace d then String c EmptyString :: words r
            else match words r with
                 | h :: t => String c h :: t
                 | [] => [String c EmptyString]
                 end
        end
  end.

Section PrintVms.

(** What slicing a dict raises depends on the interpreter: a [TypeError]
    for the unhashable slice up to Python 3.11, a [KeyError] from 3.12 on. *)
Variable dict_slice_error : exn.

(** [truncate_account_name] on whatever the item holds: [len] needs a
    sized object, and only a string can be cut and joined with ["..."]. *)
Definition truncate_account_value (account_name : value) : M value :=
  match account_name with
  | VStr s => ret (VStr (truncate_account_name s))
  | VList l =>
      if (20 <? length l)%nat
      then raise (TypeError "can only concatenate list (not str) to list")
      else ret account_name
  | VDict d =>
      if (20 <? length d)%nat then raise dict_slice_error
      else ret account_name
  | _ => raise (TypeError "object has no len()")
  end.

(** The name shown for a VM. *)
Definition vm_name (vm : loc) : M string :=
  n <~ item_get_default vm "name" (VStr "") ;;
  s <~ as_str "strip" n ;;
  let name := strip s in
  name <~ (if String.eqb name "" then
             v <~ item_get_default vm "id" (VStr "unknown") ;;
             as_str "split" v
           else ret name) ;;
  let name := join " " (words name) in
  ret (if (32 <? String.length name)%nat
       then str_take 22 name +:+ "..." +:+ str_last 7 name
       else name).

(** The body of the loop over [enumerate(vms, start=1)]. *)
Definition vm_table_step (table_data : list vm_row) (entry : nat * loc)
    : M (list vm_row) :=
  let idx := entry.1 in
  let vm := entry.2 in
  name <~ vm_name vm ;;
  cloud <~ item_get_default vm "cloud" (VStr "unknown") ;;
  id <~ item_get_default vm "account_id" (VStr "unknown") ;;
  a <~ item_get_default vm "account_name" id ;;
  account <~ truncate_account_value a ;;
  region <~ item_get_default vm "region" (VStr "unknown") ;;
  ret (table_data ++ [VmRow idx name cloud account region]).

Local Open Scope script_scope.

Definition print_vms (vms : list loc) : X unit :=
  match vms with
  | [] => xemit NoVmsFound
  | _ =>
      xemit (FoundVms (length vms)) ;;;
      table_data <~ core (for_fold vm_table_step
                            (zip (seq 1 (length vms)) vms) []) ;;
      xemit (VmTable table_data) ;;;
      xemit BlankLine
  end.

End PrintVms.

(** The field is a string, or is absent. *)
Definition str_or_absent (h : heap) (item : loc) (key : string) : bool :=
  match field h item key with
  | Some (VStr _) | None => true
  | Some _ => false
  end.

(** An item that [print_vms] can show: its name, id and account are strings
    where it has them. *)
Definition showable (h : heap) (vm : loc) : bool :=
  str_or_absent h vm "name" && str_or_absent h vm "id"
  && str_or_absent h vm "account_name" && str_or_absent h vm "account_id".

(** A name as the table shows it: no whitespace but single blanks between
    words. *)
Fixpoint tidy (s : string) : bool :=
  match s with
  | EmptyString => true
  | String c r =>
      (Ascii.eqb c " "%char || negb (py_isspace c)) && tidy r
  end.

(** A word has no whitespace. *)
Fixpoint solid (s : string) : bool :=
  match s with
  | EmptyString => true
  | String c r => negb (py_isspace c) && solid r
  end.

(** What a row shows of its VM. *)
Definition shows (h : heap) (entry : nat * loc) (row : vm_row) : Prop :=
  row_idx row = entry.1
  /\ (String.length (row_name row) <= 32)%nat
  /\ tidy (row_name row) = true
  /\ row_cloud row = default (VStr "unknown") (field h entry.2 "cloud")
  /\ row_region row = default (VStr "unknown") (field h entry.2 "region")
  /\ exists account, row_account row = VStr account
                     /\ (String.length account <= 20)%nat.

(** *** [utils.load_from_json] *)

(** What [open] and [json.load] make of the inventory file.  The file is
    taken to hold a list of objects, as [save_to_json] writes it. *)
Inductive json_file :=
  | JsonMissing                  (* [FileNotFoundError] *)
  | JsonInvalid                  (* [json.JSONDecodeError] *)
  | JsonFails (e : exn)          (* any other exception *)
  | Json (objects : list Item).  (* the objects of the list *)

Definition set_heap (w : world) (h : heap) : world :=
  World h (w_log w) (w_calls w) (w_stdin w) (w_clock w) (w_ticks w).

(** A new dict object. *)
Definition alloc (d : Item) : M loc :=
  fun w => let l := fresh (dom (w_heap w)) in
           (Ok l, set_heap w (<[l := d]> (w_heap w))).

(** The objects that [json.load] creates, in the order of the file. *)
Definition alloc_all (objects : list Item) : M (list loc) :=
  for_fold (fun acc d => l <~ alloc d ;; ret (acc ++ [l])) objects [].

(** The namespace that [argparse] returns. *)
Record namespace := Namespace {
  a_refresh : bool;
  a_vms : option string;
  a_delete : bool;
  a_tag : option string;
  a_value : option string;
  a_protected : option string
}.

(** Truth value of an optional string argument: [None] and the empty
    string are false. *)
Definition given (o : option string) : bool :=
  match o with
  | Some s => negb (String.eqb s "")
  | None => false
  end.

Section Main.

Context {A : Type}.

(** The collaborators of [vm.py]: the provider modules, the file system and
    the writers of the inventory. *)
Variables aws_delete azure_delete gcp_delete : handler.
Variables aws_add_tag azure_add_tag gcp_add_tag : string -> string -> handler.
Variables aws_set_protection azure_set_protection gcp_set_protection
  : bool -> handler.
Variables aws_discover azure_discover gcp_discover : unit -> result (list A).
Variable save_to_json : list A -> string -> X unit.
Variable save_vms_to_excel : list A -> string -> X unit.
Variable inventory_dir : string.
Variable expanduser : string -> result string.
Variable fs : string -> file.
Variable json_files : string -> json_file.
Variable dict_slice_error : exn.

Local Open Scope script_scope.

Definition load_from_json (filename : string) : X (list loc) :=
  match json_files filename with
  | Json objects => core (alloc_all objects)
  | JsonMissing => xemit (InventoryNotFound filename) ;;; xexit 1
  | JsonInvalid => xemit (InventoryInvalid filename) ;;; xexit 1
  | JsonFails e => xraise e
  end.

(** *** [parse_arguments] and [main] of [vm.py] *)

(** The validation after [parser.parse_args()], which returned [parsed]. *)
Definition parse_arguments (parsed : namespace) : X namespace :=
  if (given (a_tag parsed) && negb (given (a_value parsed)))
     || (given (a_value parsed) && negb (given (a_tag parsed)))
  then xemit TagAndValueTogether ;;; xexit 1
  else xret parsed.

(** The action on the target VMs, the last part of [main]. *)
Definition apply_action (a : namespace) (filter_applied : bool)
    (target_vms : list loc) (order : list nat) : X unit :=
  if a_delete a then
    if negb filter_applied then
      xemit DeleteNeedsFilter ;;; xemit DeletePreventsAccident
    else
      csp_delete aws_delete azure_delete gcp_delete target_vms order
  else if given (a_tag a) && given (a_value a) then
    csp_add_tag aws_add_tag azure_add_tag gcp_add_tag target_vms
      (default "" (a_tag a)) (default "" (a_value a)) order
  else if given (a_protected a) then
    let value := String.eqb (default "" (a_protected a)) "true" in
    csp_set_protection aws_set_protection azure_set_protection
      gcp_set_protection target_vms value order
  else
    print_vms dict_slice_error target_vms.

(** [main]; [order] is the completion order of the handlers and
    [discovery_order] that of the providers in a refresh.  The logging
    set-up has no part in the model. *)
Definition main (parsed : namespace) (order discovery_order : list nat) : X unit :=
  a <~ parse_arguments parsed ;;
  if a_refresh a then
    refresh aws_discover azure_discover gcp_discover save_to_json
      save_vms_to_excel inventory_dir discovery_order
  else
    target_vms <~ load_from_json (get_inventory_path inventory_dir "vm" "json") ;;
    if given (a_vms a) then
      processed_identifiers <~
        process_identifiers_input expanduser fs (default "" (a_vms a)) ;;
      target_vms <~ core (find_items_by_identifier target_vms
                            processed_identifiers "id" "name") ;;
      match target_vms with
      | [] => xemit NoMatchingVms
      | _ => apply_action a true target_vms order
      end
    else apply_action a false target_vms order.

End Main.

(** [vm.py] with the collaborators of the examples: an inventory of three
    VMs, of which the second has an upper-case letter in its tag and the
    third an unknown provider. *)
Definition ex_json_files (filename : string) : json_file :=
  if String.eqb filename "inventory/vm.json" then
    Json [ex_item "a" "web" "aws"; ex_item "b" "db" "Azure";
          ex_item "c" "cache" "unknown-cloud"]
  else JsonMissing.

Definition ex_main : namespace -> list nat -> list nat -> X unit :=
  main ex_yes ex_no ex_boom (fun _ _ => ex_yes) (fun _ _ => ex_no)
    (fun _ _ => ex_boom) (fun _ => ex_yes) (fun _ => ex_no)
    (fun _ => ex_boom) ex_aws_discover ex_azure_discover ex_gcp_discover
    (fun _ _ => xret tt) (fun _ _ => xret tt) "inventory" ex_expanduser ex_fs
    ex_json_files (TypeError "unhashable type").

(** A terminal that delivers [keys], and no object yet. *)
Definition ex_start (keys : string) : xstate :=
  XState (World ∅ [] [] keys (fun n => Z.of_nat n) 0) [].

(** One of the three actions was asked for. *)
Definition wants_action (a : namespace) : bool :=
  a_delete a || (given (a_tag a) && given (a_value a)) || given (a_protected a).

(** The objects of the example inventory. *)
Definition ex_objects : list Item :=
  [ex_item "a" "web" "aws"; ex_item "b" "db" "Azure";
   ex_item "c" "cache" "unknown-cloud"].

(** *** The providers: task builders of Azure and GCP, and [discover] *)

Section Providers.

Context {A : Type}.

(** What [config.get_aws_profiles], [get_azure_subs] and [get_gcp_projects]
    return or raise, and the region listing of AWS. *)
Variable get_aws_profiles : result (list string).
Variable describe_regions : string -> result (list string).
Variable get_azure_subs : result (list string).
Variable get_gcp_projects : result (list string).

(** The functions that list the VMs of one account and region. *)
Variables aws_get_vms azure_get_vms gcp_get_vms
  : list string -> result (list A).

Definition azure_task (get_resource_func : list string -> result (list A))
    (resource_name subscription_id : string) : task A :=
  Task get_resource_func [subscription_id]
    (<["cloud" := "azure"]>
       (<["location" := subscription_id]>
          (<["resource" := resource_name]> ∅))).

Definition gcp_task (get_resource_func : list string -> result (list A))
    (resource_name project_id : string) : task A :=
  Task get_resource_func [project_id]
    (<["cloud" := "gcp"]>
       (<["location" := project_id]>
          (<["resource" := resource_name]> ∅))).

(** A configuration getter called from a script. *)
Definition xlift {B} (r : result B) : X B :=
  match r with
  | Ok b => xret b
  | Raise e => xraise e
  end.

Local Open Scope script_scope.

(** [azuresvc.session.build_discovery_tasks] *)
Definition azure_build_discovery_tasks
    (get_resource_func : list string -> result (list A))
    (resource_name : string) : X (list (task A)) :=
  xtry
    (subscriptions <~ xlift get_azure_subs ;;
     match subscriptions with
     | [] => xret []
     | _ => xret (azure_task get_resource_func resource_name
                    <$> subscriptions)
     end)
    (fun e => xemit (AzureBuildError e) ;;; xret []).

(** [gcpsvc.session.build_discovery_tasks] *)
Definition gcp_build_discovery_tasks
    (get_resource_func : list string -> result (list A))
    (resource_name : string) : X (list (task A)) :=
  xtry
    (projects <~ xlift get_gcp_projects ;;
     match projects with
     | [] => xret []
     | _ => xret (gcp_task get_resource_func resource_name <$> projects)
     end)
    (fun e => xemit (GcpBuildError e) ;;; xret []).

(** [discover] of [awssvc/vm.py], [azuresvc/vm.py] and [gcpsvc/vm.py]. *)
Definition aws_vm_discover (order : list nat) : X (list A) :=
  tasks <~ core (build_discovery_tasks get_aws_profiles describe_regions
                   aws_get_vms "VM") ;;
  core (execute_discovery_tasks tasks 20 order).

Definition azure_vm_discover (order : list nat) : X (list A) :=
  tasks <~ azure_build_discovery_tasks azure_get_vms "VM" ;;
  core (execute_discovery_tasks tasks 10 order).

Definition gcp_vm_discover (order : list nat) : X (list A) :=
  tasks <~ gcp_build_discovery_tasks gcp_get_vms "VM" ;;
  core (execute_discovery_tasks tasks 20 order).

End Providers.

(** The accounts a provider is configured with, none when the
    configuration cannot be read. *)
Definition configured (cfg : result (list string)) : list string :=
  match cfg with
  | Ok l => l
  | Raise _ => []
  end.

(** The line printed when the configuration cannot be read. *)
Definition config_line (err : exn -> xline) (cfg : result (list string))
    : list xline :=
  match cfg with
  | Ok _ => []
  | Raise e => [err e]
  end.

(** The lines [execute_discovery_tasks] logs, one per task in completion
    order. *)
Definition task_lines {A} (tasks : list (task A)) (order : list nat)
    : list event :=
  imap (fun i => task_line (length tasks) (S i)) (as_completed tasks order).

(** What the AWS task builder prints: a line per profile whose regions
    cannot be listed, or the line for a configuration that cannot be
    read. *)
Definition aws_build_prints (get_aws_profiles : result (list string))
    (describe_regions : string -> result (list string)) : list event :=
  match get_aws_profiles with
  | Ok profiles => profiles ≫= profile_prints get_aws_profiles describe_regions
  | Raise e => [Print (BuildError e)]
  end.

(** A listing for the examples: the account ["dev"] has two VMs, the
    listing of any other account fails. *)
Definition ex_get_vms (args : list string) : result (list nat) :=
  match args with
  | "dev" :: _ => Ok [1; 2]%nat
  | _ => Raise (Error "forbidden")
  end.

(** *** [config.py]: the cached configuration *)

(** The module variable [_config], and the number of times the file was
    read. *)
Record config_state := ConfigState {
  cached : value;
  reads : nat
}.

(** [_config = {}] when the module is loaded. *)
Definition config_initial : config_state := ConfigState (VDict []) 0.

(** What [config_path.read_text()] does: the file can change between two
    readings. *)
Inductive config_read :=
  | ConfigMissing                  (* [FileNotFoundError] *)
  | ConfigUnreadable (e : exn)     (* any other exception *)
  | ConfigText (text : string).

(** What [json.loads] does. *)
Inductive decoded :=
  | Decoded (v : value)
  | DecodeError (msg : string).    (* [json.JSONDecodeError], with its text *)

(** The functions of [config.py] thread the module variable. *)
Definition Cfg (A : Type) : Type := config_state -> result A * config_state.

Section Config.

Variable config_path : string.
Variable read_text : nat -> config_read.   (* the n-th reading of the file *)
Variable json_loads : string -> decoded.

Definition load_config : Cfg value :=
  fun st =>
    if truthy (cached st) then (Ok (cached st), st)
    else
      let st' := ConfigState (cached st) (S (reads st)) in
      match read_text (reads st) with
      | ConfigMissing =>
          (Raise (Error ("Configuration file not found: " +:+ config_path)),
           st')
      | ConfigUnreadable e => (Raise e, st')
      | ConfigText text =>
          match json_loads text with
          | Decoded v => (Ok v, ConfigState v (S (reads st)))
          | DecodeError msg =>
              (Raise (ValueError ("Invalid JSON in config file: " +:+ msg)),
               st')
          end
      end.

(** [config.get(key, [])]: only a dict has [get]. *)
Definition config_get (config : value) (key : string) : result value :=
  match config with
  | VDict d => Ok (default (VList []) (dict_get key d))
  | _ => Raise (AttributeError "get")
  end.

Definition config_getter (key : string) : Cfg value :=
  fun st =>
    match load_config st with
    | (Ok config, st') => (config_get config key, st')
    | (Raise e, st') => (Raise e, st')
    end.

Definition get_aws_profiles : Cfg value := config_getter "aws_profiles".
Definition get_azure_subs : Cfg value := config_getter "azure_subs".
Definition get_gcp_projects : Cfg value := config_getter "gcp_projects".

End Config.

(** The three getters, and a sequence of calls of them. *)
Inductive getter := AwsProfiles | AzureSubs | GcpProjects.

Definition getter_key (g : getter) : string :=
  match g with
  | AwsProfiles => "aws_profiles"
  | AzureSubs => "azure_subs"
  | GcpProjects => "gcp_projects"
  end.

Definition call_getter (config_path : string) (read_text : nat -> config_read)
    (json_loads : string -> decoded) (g : getter) : Cfg value :=
  match g with
  | AwsProfiles => get_aws_profiles config_path read_text json_loads
  | AzureSubs => get_azure_subs config_path read_text json_loads
  | GcpProjects => get_gcp_projects config_path read_text json_loads
  end.

Fixpoint call_getters (config_path : string) (read_text : nat -> config_read)
    (json_loads : string -> decoded) (gs : list getter) (st : config_state)
    : list (result value) * config_state :=
  match gs with
  | [] => ([], st)
  | g :: r =>
      let (x, st') := call_getter config_path read_text json_loads g st in
      let (xs, st'') := call_getters config_path read_text json_loads r st' in
      (x :: xs, st'')
  end.

(** *** [refresh_all.py] *)

(** [format_duration]: [//] and [%] round towards minus infinity, as
    [Z.div] and [Z.modulo] do for a positive divisor. *)
Definition format_duration (seconds : Z) : string :=
  let minutes := seconds / 60 in
  let remaining_seconds := seconds mod 60 in
  pretty minutes +:+ "m " +:+ pretty remaining_seconds +:+ "s".

(** The names bound at the top level of [vm.py] and of [vpc.py]: what is
    imported, [logger] and the functions, and the names every module has. *)
Definition module_dunders : list string :=
  ["__name__"; "__doc__"; "__package__"; "__loader__"; "__spec__";
   "__file__"; "__cached__"; "__builtins__"].

Definition vm_module : list string :=
  ["argparse"; "logging"; "sys"; "tabulate"; "csp_vm";
   "find_items_by_identifier"; "load_from_json"; "process_identifiers_input";
   "save_to_json"; "truncate_account_name"; "save_to_excel"; "setup_logging";
   "log_discovery_stats"; "get_inventory_path"; "logger";
   "prepare_vm_table_data"; "save_vms_to_excel"; "print_vms";
   "parse_arguments"; "refresh"; "main"] ++ module_dunders.

Definition vpc_module : list string :=
  ["argparse"; "logging"; "sys"; "Any"; "tabulate"; "csp_vpc";
   "find_items_by_identifier"; "load_from_json"; "process_identifiers_input";
   "save_to_json"; "truncate_account_name"; "save_to_excel"; "setup_logging";
   "log_discovery_stats"; "get_inventory_path"; "logger";
   "prepare_vpc_table_data"; "save_vpcs_to_excel"; "print_vpcs";
   "parse_arguments"; "refresh"; "main"] ++ module_dunders.

Section RefreshAll.

(** [vm.refresh] and [vpc.refresh], and the [.name] of the value a module
    binds to a name. *)
Variables vm_refresh vpc_refresh : X unit.
Variable name_of : string -> result string.

(** [module.attr.name]: a module has the attributes bound at its top
    level. *)
Definition module_attr_name (module : list string) (attr : string)
    : X string :=
  if bool_decide (attr ∈ module) then
    match name_of attr with
    | Ok n => xret n
    | Raise e => xraise e
    end
  else xraise (AttributeError attr).

Local Open Scope script_scope.

(** [main] of [refresh_all.py]; [time.time()] reads the clock. *)
Definition refresh_all_main : X unit :=
  xemit RefreshStarting ;;;
  start_time <~ core now ;;
  vm_refresh ;;;
  vpc_refresh ;;;
  end_time <~ core now ;;
  let total_time := end_time - start_time in
  xemit RefreshComplete ;;;
  xemit InventoryUpdated ;;;
  vm_json <~ module_attr_name vm_module "INVENTORY_JSON_PATH" ;;
  vm_xlsx <~ module_attr_name vm_module "INVENTORY_XLSX_PATH" ;;
  xemit (InventoryFiles vm_json vm_xlsx) ;;;
  vpc_json <~ module_attr_name vpc_module "INVENTORY_JSON_PATH" ;;
  vpc_xlsx <~ module_attr_name vpc_module "INVENTORY_XLSX_PATH" ;;
  xemit (InventoryFiles vpc_json vpc_xlsx) ;;;
  xemit (RefreshTotalTime (format_duration total_time)).

End RefreshAll.

(** The state of [refresh_all.py] when the refreshes begin: the first line
    is printed and the clock was read once. *)
Definition refresh_started (s : xstate) : xstate :=
  XState (set_ticks (x_world s) (S (w_ticks (x_world s))))
    (x_out s ++ [RefreshStarting]).

(** *** [print_vpcs] of [vpc.py] *)

Section PrintVpcs.

Variable dict_slice_error : exn.

(** [', '.join(l)] for a list of values: every element must be a string. *)
Fixpoint as_strs (l : list value) : M (list string) :=
  match l with
  | [] => ret []
  | VStr s :: r => rest <~ as_strs r ;; ret (s :: rest)
  | _ :: _ => raise (TypeError "sequence item: expected str instance")
  end.

(** The characters of a string, each as a string. *)
Fixpoint chars (s : string) : list string :=
  match s with
  | EmptyString => []
  | String c r => String c EmptyString :: chars r
  end.

(** The CIDR column for a true value under ['address_prefixes']: the first
    two prefixes, and dots when there are more.  A string is sliced and
    joined character by character; other values cannot be sliced. *)
Definition address_cidr (prefixes : value) : M value :=
  match prefixes with
  | VList l =>
      first_two <~ as_strs (take 2 l) ;;
      let cidr := join ", " first_two in
      ret (VStr (if (2 <? length l)%nat then cidr +:+ "..." else cidr))
  | VStr s =>
      let cidr := join ", " (chars (str_take 2 s)) in
      ret (VStr (if (2 <? String.length s)%nat then cidr +:+ "..." else cidr))
  | VDict _ => raise dict_slice_error
  | _ => raise (TypeError "object is not subscriptable")
  end.

Definition vpc_cidr (vpc : loc) : M value :=
  let by_subnet_mode :=
    s <~ item_get vpc "subnet_mode" ;; ret (default (VStr "") s) in
  c <~ item_get vpc "cidr_block" ;;
  match c with
  | Some v => ret v
  | None =>
      a <~ item_get vpc "address_prefixes" ;;
      match a with
      | Some v => if truthy v then address_cidr v else by_subnet_mode
      | None => by_subnet_mode
      end
  end.

Definition vpc_account (vpc : loc) : M value :=
  p <~ item_get vpc "profile" ;;
  match p with
  | Some v => truncate_account_value dict_slice_error v
  | None =>
      a <~ item_get vpc "account_id" ;;
      match a with
      | Some v => truncate_account_value dict_slice_error v
      | None => ret (VStr "")
      end
  end.

Definition vpc_name (vpc : loc) : M value :=
  name <~ item_get_default vpc "name" (VStr "unnamed") ;;
  let unnamed := match name with
                 | VStr s => String.eqb s "unnamed"
                 | _ => false
                 end in
  if negb (truthy name) || unnamed
  then item_get_default vpc "id" (VStr "unknown")
  else ret name.

(** The body of the loop over [enumerate(vpcs, 1)]: a default VPC is
    passed over, and keeps its number. *)
Definition vpc_table_step (table_data : list vpc_row) (entry : nat * loc)
    : M (list vpc_row) :=
  let idx := entry.1 in
  let vpc := entry.2 in
  is_default <~ item_get_default vpc "is_default" (VBool false) ;;
  if truthy is_default then ret table_data
  else
    name <~ vpc_name vpc ;;
    c <~ item_get_default vpc "cloud" (VStr "unknown") ;;
    cloud <~ as_str "upper" c ;;
    account <~ vpc_account vpc ;;
    l <~ item_get_default vpc "location" (VStr "global") ;;
    location <~ item_get_default vpc "region" l ;;
    cidr <~ vpc_cidr vpc ;;
    eni_count <~ item_get_default vpc "eni_count" (VInt 0) ;;
    vm_count <~ item_get_default vpc "vm_count" (VInt 0) ;;
    ret (table_data ++ [VpcRow idx name cloud account location cidr
                          eni_count vm_count]).

Local Open Scope script_scope.

Definition print_vpcs (vpcs : list loc) : X unit :=
  match vpcs with
  | [] => xemit NoVpcsFound
  | _ =>
      table_data <~ core (for_fold vpc_table_step
                            (zip (seq 1 (length vpcs)) vpcs) []) ;;
      xemit (VpcTable table_data) ;;;
      xemit BlankLine
  end.

End PrintVpcs.

(** The VPC is marked as a default one. *)
Definition is_default_vpc (h : heap) (vpc : loc) : bool :=
  truthy (default (VBool false) (field h vpc "is_default")).

(** The prefixes can be joined: a list of strings, or a false value. *)
Definition prefixes_ok (v : value) : bool :=
  match v with
  | VList l => forallb (fun x => match x with VStr _ => true | _ => false end) l
  | VStr _ => true
  | _ => negb (truthy v)
  end.

(** A VPC that [print_vpcs] can show: a default one, or one whose cloud tag
    and account are strings where present and whose prefixes can be
    joined. *)
Definition vpc_showable (h : heap) (vpc : loc) : bool :=
  is_default_vpc h vpc
  || (str_or_absent h vpc "cloud" && str_or_absent h vpc "profile"
      && str_or_absent h vpc "account_id"
      && match field h vpc "cidr_block", field h vpc "address_prefixes" with
         | None, Some v => prefixes_ok v
         | _, _ => true
         end).

(** The numbered VPCs that are not default ones. *)
Definition shown_vpcs (h : heap) (entries : list (nat * loc))
    : list (nat * loc) :=
  List.filter (fun e => negb (is_default_vpc h e.2)) entries.

(** * Properties *)

(** ** The monad *)

Lemma logged_nil w : logged w [] = w.
Proof. destruct w; unfold logged, set_log; simpl. by rewrite app_nil_r. Qed.

Lemma logged_app w e1 e2 : logged (logged w e1) e2 = logged w (e1 ++ e2).
Proof. destruct w; unfold logged, set_log; simpl. by rewrite app_assoc. Qed.

Lemma logged_heap w evs : w_heap (logged w evs) = w_heap w.
Proof. reflexivity. Qed.

Lemma emit_logged e w : emit e w = (Ok tt, logged w [e]).
Proof. reflexivity. Qed.

Lemma bind_Ok {A B} (m : M A) (k : A -> M B) w a w' :
  m w = (Ok a, w') -> bind m k w = k a w'.
Proof. unfold bind. by intros ->. Qed.

Lemma bind_Raise {A B} (m : M A) (k : A -> M B) w e w' :
  m w = (Raise e, w') -> bind m k w = (Raise e, w').
Proof. unfold bind. by intros ->. Qed.

Lemma try_except_Ok {A} (m : M A) (h : exn -> M A) w a w' :
  m w = (Ok a, w') -> try_except m h w = (Ok a, w').
Proof. unfold try_except. by intros ->. Qed.

Lemma for_fold_app {A S} (body : S -> A -> M S) l1 l2 s w :
  for_fold body (l1 ++ l2) s w
  = bind (for_fold body l1 s) (for_fold body l2) w.
Proof.
  revert s w. induction l1 as [|x l1 IH]; intros s w; simpl.
  - reflexivity.
  - unfold bind in *. destruct (body s x w) as [[s'|e] w1]; [|reflexivity].
    apply IH.
Qed.

(** ** IdentifierResolver *)

Lemma lookup_map_step_run key m item w :
  key_ok (w_heap w) key item = true ->
  lookup_map_step key m item w = (Ok (index_entry (w_heap w) key m item), w).
Proof.
  unfold key_ok, lookup_map_step, index_entry, bind, item_get, ret.
  destruct (field (w_heap w) item key) as [v|]; [|done].
  destruct v as [|b|n|s|[|? ?]|[|? ?]]; simpl; try done.
  - by destruct b.
  - by destruct (n =? 0).
  - by destruct (String.eqb s "").
Qed.

Lemma lookup_map_fold key items m w :
  keys_ok (w_heap w) key items = true ->
  for_fold (lookup_map_step key) items m w
  = (Ok (foldl (index_entry (w_heap w) key) m items), w).
Proof.
  revert m. induction items as [|it items IH]; intros m Hok; simpl in *.
  - reflexivity.
  - apply andb_prop in Hok as [Hit Hrest].
    rewrite (bind_Ok _ _ _ _ _ (lookup_map_step_run _ _ _ _ Hit)).
    by apply IH.
Qed.

Lemma lookup_map_run key items w :
  keys_ok (w_heap w) key items = true ->
  lookup_map key items w = (Ok (index_map (w_heap w) key items), w).
Proof. apply lookup_map_fold. Qed.

Lemma find_step_run items id_map name_map matching identifier w :
  find_step items id_map name_map matching identifier w
  = (Ok (matching ++ option_list (resolve items id_map name_map identifier).1),
     logged w (resolve items id_map name_map identifier).2).
Proof.
  unfold find_step, resolve.
  destruct (py_int identifier) as [index|].
  - destruct ((1 <=? index) && (index <=? Z.of_nat (length items))) eqn:Hr.
    + destruct (lookup_lt_is_Some_2 items (Z.to_nat (index - 1))) as [x Hx].
      { apply andb_prop in Hr as [H1 H2]. lia. }
      rewrite Hx; simpl. by rewrite logged_nil.
    + simpl. unfold bind, emit, ret. by rewrite app_nil_r.
  - destruct (id_map !! identifier) as [x|]; simpl.
    { by rewrite logged_nil. }
    destruct (name_map !! identifier) as [x|]; simpl.
    { by rewrite logged_nil. }
    unfold bind, emit, ret. by rewrite app_nil_r.
Qed.

Lemma find_loop_run items id_map name_map toks matching w :
  for_fold (find_step items id_map name_map) toks matching w
  = (Ok (matching
         ++ (toks ≫= fun t => option_list (resolve items id_map name_map t).1)),
     logged w (toks ≫= fun t => (resolve items id_map name_map t).2)).
Proof.
  revert matching w. induction toks as [|t toks IH]; intros matching w; simpl.
  - by rewrite app_nil_r, logged_nil.
  - unfold bind at 1. rewrite find_step_run, IH.
    by rewrite logged_app, <- app_assoc.
Qed.

(** The resolver as a function of the expression: the selections of the
    identifiers one after the other, and their complaints in the log. *)
Lemma find_items_run w items identifiers id_key name_key :
  keys_ok (w_heap w) id_key items = true ->
  keys_ok (w_heap w) name_key items = true ->
  find_items_by_identifier items identifiers id_key name_key w
  = (Ok (tokens identifiers ≫= selected (w_heap w) items id_key name_key),
     logged w (tokens identifiers ≫= complaints (w_heap w) items id_key name_key)).
Proof.
  intros Hid Hname. unfold find_items_by_identifier.
  rewrite (bind_Ok _ _ _ _ _ (lookup_map_run _ _ _ Hid)).
  rewrite (bind_Ok _ _ _ _ _ (lookup_map_run _ _ _ Hname)).
  by rewrite find_loop_run.
Qed.

(** *** Splitting an expression *)

Lemma split_cons sep s : exists h t, split sep s = h :: t.
Proof.
  induction s as [|c s IH]; simpl; [by eauto|].
  destruct (Ascii.eqb c sep); [by eauto|].
  destruct IH as (h & t & ->). by eauto.
Qed.

Lemma split_app sep a b :
  split sep (a +:+ String sep b) = split sep a ++ split sep b.
Proof.
  induction a as [|c a IH]; simpl.
  - by rewrite Ascii.eqb_refl.
  - destruct (Ascii.eqb c sep); [by rewrite IH|].
    rewrite IH. by destruct (split_cons sep a) as (h & t & ->).
Qed.

Lemma tokens_app a b : tokens (a +:+ "," +:+ b) = tokens a ++ tokens b.
Proof.
  unfold tokens. change ("," +:+ b) with (String ","%char b).
  by rewrite split_app, map_app.
Qed.

(** *** Searching the candidates *)

Lemma last_holding_Some h key tok items x :
  last_holding h key tok items = Some x ->
  x ∈ items /\ field h x key = Some (VStr tok).
Proof.
  induction items as [|it items IH]; simpl; [done|].
  destruct (last_holding h key tok items) as [y|].
  - intros [= ->]. destruct IH as [? ?]; [done|]. split; [by right|done].
  - unfold holds. destruct (field h it key) as [[| | |s| |]|] eqn:Hf; try done.
    destruct (String.eqb_spec s tok) as [->|]; [|done].
    intros [= ->]. split; [by left|done].
Qed.

Lemma last_holding_None h key tok items x :
  last_holding h key tok items = None ->
  x ∈ items -> field h x key <> Some (VStr tok).
Proof.
  induction items as [|it items IH]; simpl; [by inversion 2|].
  destruct (last_holding h key tok items) as [y|]; [done|].
  destruct (holds h key tok it) eqn:Hh; [done|]. intros _ Hx Hf.
  apply elem_of_cons in Hx as [->|Hx]; [|by eapply IH].
  unfold holds in Hh. rewrite Hf in Hh. by rewrite String.eqb_refl in Hh.
Qed.

Lemma index_fold_lookup h key tok items (m : gmap string loc) :
  foldl (index_entry h key) m items !! tok
  = if String.eqb tok "" then m !! tok
    else match last_holding h key tok items with
         | Some x => Some x
         | None => m !! tok
         end.
Proof.
  revert m. induction items as [|it items IH]; intros m; simpl.
  - by destruct (String.eqb tok "").
  - rewrite IH. destruct (String.eqb_spec tok "") as [->|Hne].
    + unfold index_entry. destruct (field h it key) as [[| | |s| |]|]; try done.
      destruct (String.eqb_spec s "") as [->|Hs]; [done|].
      by rewrite lookup_insert_ne.
    + destruct (last_holding h key tok items) as [x|]; [done|].
      unfold index_entry, holds.
      destruct (field h it key) as [[| | |s| |]|]; try done.
      destruct (String.eqb_spec s tok) as [->|Hst].
      * destruct (String.eqb_spec tok "") as [->|_]; [done|].
        by rewrite lookup_insert_eq.
      * destruct (String.eqb s ""); [done|]. by rewrite lookup_insert_ne.
Qed.

Lemma index_map_lookup h key tok items :
  index_map h key items !! tok
  = if String.eqb tok "" then None else last_holding h key tok items.
Proof.
  unfold index_map. rewrite index_fold_lookup, lookup_empty.
  destruct (String.eqb tok ""); [done|].
  by destruct (last_holding h key tok items).
Qed.

Lemma resolve_spec_eq h items id_key name_key identifier :
  resolve items (index_map h id_key items) (index_map h name_key items)
    identifier
  = resolve_spec h items id_key name_key identifier.
Proof.
  unfold resolve, resolve_spec.
  destruct (py_int identifier); [done|].
  by rewrite !index_map_lookup.
Qed.

(** C5: the output is built by appending, identifier after identifier,
    what each identifier selects (at most one item), so it follows the
    order of the identifiers: the output for [a,b] is the output for [a]
    followed by the output for [b], whatever the order of the candidates,
    and an identifier given twice gives its item twice. *)
Theorem find_items_identifier_order w items id_key name_key :
  keys_ok (w_heap w) id_key items = true ->
  keys_ok (w_heap w) name_key items = true ->
  let out ids := (find_items_by_identifier items ids id_key name_key w).1 in
  (forall ids,
      out ids = Ok (tokens ids ≫= selected (w_heap w) items id_key name_key))
  /\ (forall t, (length (selected (w_heap w) items id_key name_key t) <= 1)%nat)
  /\ (forall a b, exists oa ob,
        out a = Ok oa /\ out b = Ok ob /\ out (a +:+ "," +:+ b) = Ok (oa ++ ob))
  /\ (forall a, exists oa, out a = Ok oa /\ out (a +:+ "," +:+ a) = Ok (oa ++ oa)).
Proof.
  intros Hid Hname out.
  assert (Hout : forall ids,
    out ids = Ok (tokens ids ≫= selected (w_heap w) items id_key name_key)).
  { intros ids. unfold out. by rewrite find_items_run. }
  split; [done|]. split.
  { intros t. unfold selected.
    destruct (resolve _ _ _ t).1; simpl; lia. }
  split.
  - intros a b. eexists _, _. split; [apply Hout|]. split; [apply Hout|].
    by rewrite Hout, tokens_app, bind_app.
  - intros a. eexists. split; [apply Hout|].
    by rewrite Hout, tokens_app, bind_app.
Qed.

Lemma find_items_identifier_order_witness :
  (find_items_by_identifier [1; 2; 3]%positive "3,1" "id" "name"
     (ex_world "")).1 = Ok [3; 1]%positive
  /\ (find_items_by_identifier [1; 2; 3]%positive "2,2" "id" "name"
        (ex_world "")).1 = Ok [2; 2]%positive.
Proof.
  destruct (find_items_identifier_order (ex_world "") [1; 2; 3]%positive
              "id" "name" eq_refl eq_refl) as (H & _).
  split; rewrite H; reflexivity.
Defined.






(** ** The frame of the core: dict objects and handler invocations *)

Lemma quiet_same P items w w' :
  w_heap w' = w_heap w -> w_calls w' = w_calls w -> w_log w' = w_log w ->
  quiet P items w w'.
Proof.
  intros Hh Hc Hl. split; [done|].
  split; exists []; by rewrite app_nil_r.
Qed.

Lemma quiet_refl P items w : quiet P items w w.
Proof. by apply quiet_same. Qed.

Lemma quiet_trans P items w1 w2 w3 :
  quiet P items w1 w2 -> quiet P items w2 w3 -> quiet P items w1 w3.
Proof.
  intros (Hh1 & (c1 & Hc1 & Hf1) & (e1 & He1 & Hp1))
         (Hh2 & (c2 & Hc2 & Hf2) & (e2 & He2 & Hp2)).
  split; [congruence|]. split.
  - exists (c1 ++ c2). split; [by rewrite Hc2, Hc1, app_assoc|].
    by apply Forall_app.
  - exists (e1 ++ e2). split; [by rewrite He2, He1, app_assoc|].
    by apply Forall_app.
Qed.

Lemma respects_weaken {A} (P Q : event -> Prop) items (m : M A) :
  respects P items m -> (forall e, P e -> Q e) -> respects Q items m.
Proof.
  intros Hm HPQ w. destruct (Hm w) as (Hh & Hc & evs & He & HP).
  split; [done|]. split; [done|]. exists evs. split; [done|].
  eapply Forall_impl; [exact HP|exact HPQ].
Qed.

Lemma respects_ret {A} P items (a : A) : respects P items (ret a).
Proof. intros w. apply quiet_refl. Qed.

Lemma respects_raise {A} P items e : respects P items (@raise A e).
Proof. intros w. apply quiet_refl. Qed.

Lemma respects_bind {A B} P items (m : M A) (k : A -> M B) :
  respects P items m -> (forall a, respects P items (k a)) ->
  respects P items (bind m k).
Proof.
  intros Hm Hk w. unfold bind. specialize (Hm w).
  destruct (m w) as [[a|e] w1]; [|done].
  eapply quiet_trans; [exact Hm|apply Hk].
Qed.

Lemma respects_try_except {A} P items (m : M A) (h : exn -> M A) :
  respects P items m -> (forall e, respects P items (h e)) ->
  respects P items (try_except m h).
Proof.
  intros Hm Hh w. unfold try_except. specialize (Hm w).
  destruct (m w) as [[a|e] w1]; [done|].
  eapply quiet_trans; [exact Hm|apply Hh].
Qed.

Lemma respects_emit P items e : P e -> respects P items (emit e).
Proof.
  intros He w. split; [done|]. split.
  - exists []. by rewrite app_nil_r.
  - exists [e]. split; [done|]. by apply Forall_singleton.
Qed.

Lemma respects_item_get P items it key : respects P items (item_get it key).
Proof. intros w. apply quiet_refl. Qed.

Lemma respects_getch P items : respects P items getch.
Proof. intros w. unfold getch. by destruct (w_stdin w); apply quiet_same. Qed.

Lemma respects_now P items : respects P items now.
Proof. intros w. by apply quiet_same. Qed.

Lemma respects_submit P items cloud op item :
  item ∈ items -> respects P items (submit cloud op item).
Proof.
  intros Hin w. split; [done|]. split.
  - exists [Call cloud item]. split; [done|]. by apply Forall_singleton.
  - exists []. by rewrite app_nil_r.
Qed.

Lemma respects_for_fold {A S} P items (body : S -> A -> M S) l s :
  (forall s x, x ∈ l -> respects P items (body s x)) ->
  respects P items (for_fold body l s).
Proof.
  revert s. induction l as [|x l IH]; intros s Hb; simpl.
  - apply respects_ret.
  - apply respects_bind; [apply Hb; by left|].
    intros s'. apply IH. intros s'' y Hy. apply Hb. by right.
Qed.

Lemma respects_for_each {A} P items (body : A -> M unit) l :
  (forall x, x ∈ l -> respects P items (body x)) ->
  respects P items (for_each body l).
Proof.
  induction l as [|x l IH]; intros Hb; simpl.
  - apply respects_ret.
  - apply respects_bind; [apply Hb; by left|].
    intros _. apply IH. intros y Hy. apply Hb. by right.
Qed.

Create HintDb frame.
#[local] Hint Resolve respects_ret respects_raise
  respects_item_get respects_getch respects_now : frame.
#[local] Hint Extern 1 (respects _ _ (emit _)) =>
  apply respects_emit; exact I : frame.
#[local] Hint Extern 2 (respects _ _ (bind _ _)) =>
  apply respects_bind; [|intros ?] : frame.
#[local] Hint Extern 2 (respects _ _ (try_except _ _)) =>
  apply respects_try_except; [|intros ?] : frame.
#[local] Hint Extern 3 (respects _ _ (match ?x with _ => _ end)) =>
  destruct x : frame.
#[local] Hint Extern 3 (respects _ _ (if ?x then _ else _)) =>
  destruct x : frame.

Ltac frame := unfold item_get_default, as_str, thread_pool;
  auto 20 with frame.

Lemma respects_item_get_default P items it key d :
  respects P items (item_get_default it key d).
Proof. frame. Qed.

Lemma respects_as_str P items method v : respects P items (as_str method v).
Proof. frame. Qed.

Lemma respects_thread_pool P items n : respects P items (thread_pool n).
Proof. frame. Qed.

#[local] Hint Resolve respects_item_get_default respects_as_str
  respects_thread_pool : frame.

Lemma respects_lookup_map P items key l : respects P items (lookup_map key l).
Proof.
  apply respects_for_fold. intros m x _. unfold lookup_map_step. frame.
Qed.

Lemma respects_find_items items l identifiers id_key name_key :
  respects any_event items
    (find_items_by_identifier l identifiers id_key name_key).
Proof.
  unfold find_items_by_identifier.
  apply respects_bind; [apply respects_lookup_map|]. intros id_map.
  apply respects_bind; [apply respects_lookup_map|]. intros name_map.
  apply respects_for_fold. intros m t _. unfold find_step. frame.
Qed.

Lemma respects_confirm_action items l descr :
  respects is_print items (confirm_action l descr).
Proof.
  unfold confirm_action. destruct l as [|x l]; [frame|].
  apply respects_bind; [frame|]. intros _.
  apply respects_bind; [frame|]. intros _.
  apply respects_bind.
  { apply respects_for_each. intros y _. unfold account_of. frame. }
  intros _. frame.
Qed.

Lemma respects_dispatch_step items ops futures item :
  item ∈ items -> respects any_event items (dispatch_step ops futures item).
Proof.
  intros Hin. unfold dispatch_step.
  apply respects_bind; [frame|]. intros c.
  apply respects_bind; [frame|]. intros s.
  destruct (ops !! py_lower s); [|frame].
  apply respects_bind; [by apply respects_submit|]. intros r. frame.
Qed.

Lemma respects_completion_step items total st completed :
  respects any_event items (completion_step total st completed).
Proof. unfold completion_step. frame. Qed.

Lemma respects_execute_items items ops descr confirm max_workers order :
  respects any_event items
    (execute_items_operation items ops descr confirm max_workers order).
Proof.
  unfold execute_items_operation. destruct items as [|x l] eqn:E; [frame|].
  rewrite <- E. clear E.
  apply respects_bind.
  { destruct confirm; [|frame].
    eapply respects_weaken; [apply respects_confirm_action|done]. }
  intros [|]; simpl; [|frame].
  apply respects_bind; [frame|]. intros _.
  apply respects_bind; [frame|]. intros _.
  apply respects_bind.
  { apply respects_for_fold. intros fs y Hy.
    by apply respects_dispatch_step. }
  intros futures. apply respects_bind.
  { apply respects_for_fold. intros st c _. apply respects_completion_step. }
  intros st. frame.
Qed.

(** An invariant of the local variables of a loop holds when it ends. *)
Lemma for_fold_inv {A S} (P : S -> Prop) (body : S -> A -> M S) l s w s' w' :
  P s ->
  (forall s x w s1 w1, x ∈ l -> P s -> body s x w = (Ok s1, w1) -> P s1) ->
  for_fold body l s w = (Ok s', w') -> P s'.
Proof.
  revert s w. induction l as [|x l IH]; intros s w Hs Hb; simpl.
  - by intros [= <- <-].
  - unfold bind. destruct (body s x w) as [[s1|e] w1] eqn:Hx; [|done].
    apply IH.
    + eapply Hb; [by left|exact Hs|exact Hx].
    + intros s2 y w2 s3 w3 Hy. apply Hb. by right.
Qed.

Lemma lookup_map_within key items w m w' :
  lookup_map key items w = (Ok m, w') ->
  forall k x, m !! k = Some x -> x ∈ items.
Proof.
  apply (for_fold_inv
           (fun m : gmap string loc => forall k x, m !! k = Some x -> x ∈ items)).
  - intros k x. by rewrite lookup_empty.
  - intros m0 it w0 m1 w1 Hit Hm0. unfold lookup_map_step, bind, item_get, ret.
    destruct (field (w_heap w0) it key) as [v|]; [|by intros [= <- <-]].
    destruct (truthy v); [|by intros [= <- <-]].
    destruct v; simpl; try (by intros [= <- <-]); try done.
    intros [= <- <-] k x. destruct (decide (s = k)) as [->|Hne].
    + rewrite lookup_insert_eq. by intros [= <-].
    + rewrite lookup_insert_ne by done. apply Hm0.
Qed.

Lemma find_items_within items identifiers id_key name_key w out w' :
  find_items_by_identifier items identifiers id_key name_key w = (Ok out, w') ->
  forall x, x ∈ out -> x ∈ items.
Proof.
  unfold find_items_by_identifier, bind at 1.
  destruct (lookup_map id_key items w) as [[id_map|e] w1] eqn:Hid; [|done].
  unfold bind at 1.
  destruct (lookup_map name_key items w1) as [[name_map|e] w2] eqn:Hname;
    [|done].
  pose proof (lookup_map_within _ _ _ _ _ Hid) as Hidm.
  pose proof (lookup_map_within _ _ _ _ _ Hname) as Hnamem.
  apply (for_fold_inv (fun out : list loc => forall x, x ∈ out -> x ∈ items)).
  - by inversion 1.
  - intros matching t w3 m1 w4 _ Hm. rewrite find_step_run. intros [= <- _] x.
    rewrite elem_of_app. intros [Hx|Hx]; [by apply Hm|].
    unfold resolve in Hx.
    destruct (py_int t) as [n|].
    + destruct ((1 <=? n) && (n <=? Z.of_nat (length items))); simpl in Hx;
        [|by inversion Hx].
      destruct (items !! Z.to_nat (n - 1)) as [y|] eqn:Hy; simpl in Hx;
        [|by inversion Hx].
      apply list_elem_of_singleton in Hx as ->.
      by eapply list_elem_of_lookup_2.
    + destruct (id_map !! t) as [y|] eqn:Hy; simpl in Hx.
      { apply list_elem_of_singleton in Hx as ->. by eapply Hidm. }
      destruct (name_map !! t) as [y|] eqn:Hy'; simpl in Hx;
        [|by inversion Hx].
      apply list_elem_of_singleton in Hx as ->. by eapply Hnamem.
Qed.

(** C9: the core never mutates item records.  Whatever its arguments and
    whether it returns or raises, [find_items_by_identifier] leaves every
    dict object as it was, invokes no handler, and returns only references
    that are in the candidate list; [execute_items_operation] leaves every
    dict object as it was and hands to the handlers only references taken
    from its item list. *)
Theorem core_never_mutates_items :
  (forall items identifiers id_key name_key w,
      let rw := find_items_by_identifier items identifiers id_key name_key w in
      w_heap rw.2 = w_heap w
      /\ w_calls rw.2 = w_calls w
      /\ forall out, rw.1 = Ok out -> forall x, x ∈ out -> x ∈ items)
  /\ (forall items cloud_operations descr confirm max_workers order w,
        let rw := execute_items_operation items cloud_operations descr confirm
                    max_workers order w in
        w_heap rw.2 = w_heap w
        /\ exists cs, w_calls rw.2 = w_calls w ++ cs
                      /\ Forall (fun c => call_item c ∈ items) cs).
Proof.
  split.
  - intros items identifiers id_key name_key w rw.
    destruct (respects_find_items [] items identifiers id_key name_key w)
      as (Hh & (cs & Hc & Hcs) & _).
    split; [done|]. split.
    + destruct cs as [|c cs]; [by rewrite app_nil_r in Hc|].
      apply Forall_cons in Hcs as [Hc' _]. by inversion Hc'.
    + intros out Hout. subst rw.
      destruct (find_items_by_identifier _ _ _ _ w) as [r w'] eqn:Hrun.
      simpl in Hout. subst r. by eapply find_items_within.
  - intros items ops descr confirm max_workers order w rw.
    destruct (respects_execute_items items ops descr confirm max_workers
                order w) as (Hh & Hc & _).
    by split.
Qed.

(** ** Completion order *)

Lemma omap_shift {F} (x : F) (l : list F) (js : list nat) :
  omap (fun i => (x :: l) !! i) (S <$> js) = omap (fun i => l !! i) js.
Proof. induction js as [|j js IH]; [done|]. csimpl. by rewrite IH. Qed.

Lemma as_completed_all {F} (futures : list F) :
  as_completed futures (seq 0 (length futures)) = futures.
Proof.
  unfold as_completed. induction futures as [|x l IH]; [done|].
  csimpl. f_equal. by rewrite <- fmap_S_seq, omap_shift.
Qed.

(** Every future completes exactly once: the completed futures are the
    submitted ones in another order. *)
Lemma as_completed_perm {F} (futures : list F) order :
  order ≡ₚ seq 0 (length futures) -> as_completed futures order ≡ₚ futures.
Proof.
  intros Hp. unfold as_completed. rewrite Hp. by rewrite <- (as_completed_all futures) at 2.
Qed.

Lemma as_completed_elem {F} (futures : list F) order x :
  x ∈ as_completed futures order -> x ∈ futures.
Proof.
  unfold as_completed. rewrite list_elem_of_omap. intros (i & _ & Hi).
  by eapply list_elem_of_lookup_2.
Qed.

Lemma successes_perm fs fs' : fs ≡ₚ fs' -> successes fs = successes fs'.
Proof.
  unfold successes. induction 1 as [|x l l' _ IH|x y l|l1 l2 l3 _ IH1 _ IH2];
    simpl; try done.
  - destruct (succeeded x); simpl; by rewrite IH.
  - by destruct (succeeded x), (succeeded y).
  - by rewrite IH1.
Qed.

(** ** ItemOperationExecutor *)

Lemma called_nil w : called w [] = w.
Proof. destruct w; unfold called, set_calls; simpl. by rewrite app_nil_r. Qed.

Lemma called_app w c1 c2 : called (called w c1) c2 = called w (c1 ++ c2).
Proof. destruct w; unfold called, set_calls; simpl. by rewrite app_assoc. Qed.

Lemma logged_called w evs cs :
  logged (called w cs) evs = called (logged w evs) cs.
Proof. reflexivity. Qed.

Lemma dispatch_step_run ops futures item w :
  is_Some (provider_tag (w_heap w) item) ->
  dispatch_step ops futures item w
  = (Ok (futures ++ futures_of (w_heap w) ops [item]),
     called (logged w (warnings_of (w_heap w) ops [item]))
       (calls_of (w_heap w) ops [item])).
Proof.
  intros [c Hc].
  unfold futures_of, calls_of, warnings_of, handler_of. csimpl. rewrite Hc.
  unfold dispatch_step, item_get_default, item_get, as_str, submit, bind, ret,
    emit. simpl.
  unfold provider_tag in Hc.
  destruct (field (w_heap w) item "cloud") as [v|] eqn:Hf; simpl.
  - destruct v; try done. injection Hc as <-. simpl.
    destruct (ops !! py_lower s) as [op|]; simpl.
    + by rewrite logged_nil.
    + by rewrite called_nil, app_nil_r.
  - injection Hc as <-. change (py_lower "") with "".
    destruct (ops !! "") as [op|]; simpl.
    + by rewrite logged_nil.
    + by rewrite called_nil, app_nil_r.
Qed.

Lemma dispatch_loop_run ops items futures w :
  tags_ok (w_heap w) items = true ->
  for_fold (dispatch_step ops) items futures w
  = (Ok (futures ++ futures_of (w_heap w) ops items),
     called (logged w (warnings_of (w_heap w) ops items))
       (calls_of (w_heap w) ops items)).
Proof.
  revert futures w. induction items as [|item items IH]; intros futures w Hok.
  - simpl. by rewrite app_nil_r, logged_nil, called_nil.
  - simpl in Hok. apply andb_prop in Hok as [Hitem Hitems].
    apply bool_decide_eq_true in Hitem.
    change (for_fold (dispatch_step ops) (item :: items) futures w)
      with (bind (dispatch_step ops futures item)
              (for_fold (dispatch_step ops) items) w).
    rewrite (bind_Ok _ _ _ _ _ (dispatch_step_run ops futures item w Hitem)).
    rewrite IH by done. simpl w_heap.
    change (item :: items) with ([item] ++ items).
    unfold futures_of, calls_of, warnings_of.
    rewrite !omap_app, bind_app, <- app_assoc.
    f_equal. destruct w; unfold called, logged, set_calls, set_log; simpl.
    by rewrite <- !app_assoc.
Qed.

(** The tag of a dispatched item can be upper-cased for the progress
    line. *)
Lemma completion_step_run total st (completed : loc * result bool) w :
  is_Some (provider_tag (w_heap w) completed.1) ->
  exists evs,
    completion_step total st completed w
    = (Ok (S st.1, if succeeded completed then S st.2 else st.2),
       logged w evs).
Proof.
  intros [c Hc]. destruct completed as [item r]. simpl in *.
  unfold completion_step, item_get_default, item_get, as_str, bind, ret, emit.
  simpl. unfold provider_tag in Hc. unfold succeeded. simpl.
  destruct (field (w_heap w) item "cloud") as [v|] eqn:Hf; simpl.
  - destruct v; try done. simpl. destruct r as [[|]|e]; simpl.
    + by eexists [_].
    + by eexists [_].
    + eexists [_; _]. unfold logged, set_log. simpl. by rewrite <- app_assoc.
  - destruct r as [[|]|e]; simpl.
    + by eexists [_].
    + by eexists [_].
    + eexists [_; _]. unfold logged, set_log. simpl. by rewrite <- app_assoc.
Qed.

Lemma completion_loop_run total fs st w :
  Forall (fun f : loc * result bool =>
            is_Some (provider_tag (w_heap w) f.1)) fs ->
  exists evs,
    for_fold (completion_step total) fs st w
    = (Ok ((st.1 + length fs)%nat, (st.2 + successes fs)%nat), logged w evs).
Proof.
  revert st w. induction fs as [|f fs IH]; intros st w Hok.
  - exists []. simpl. rewrite logged_nil. unfold ret, successes. simpl.
    rewrite !Nat.add_0_r. by destruct st.
  - apply Forall_cons in Hok as [Hf Hfs].
    destruct (completion_step_run total st f w Hf) as [e1 H1].
    destruct (IH (S st.1, if succeeded f then S st.2 else st.2) (logged w e1) Hfs)
      as [e2 H2].
    exists (e1 ++ e2).
    change (for_fold (completion_step total) (f :: fs) st w)
      with (bind (completion_step total st f)
              (for_fold (completion_step total) fs) w).
    rewrite (bind_Ok _ _ _ _ _ H1), H2, logged_app. simpl.
    unfold successes. simpl. destruct (succeeded f); simpl;
      repeat f_equal; lia.
Qed.

Lemma futures_of_tags_ok h ops items f :
  f ∈ futures_of h ops items -> is_Some (provider_tag h f.1).
Proof.
  unfold futures_of. rewrite list_elem_of_omap. intros (item & _ & Hf).
  unfold handler_of in Hf.
  destruct (provider_tag h item) as [c|] eqn:Hc; [|done]. simpl in Hf.
  destruct (ops !! c); [|done]. simpl in Hf. injection Hf as <-. by eexists.
Qed.

Lemma futures_of_length h ops items :
  length (futures_of h ops items) = length (dispatched h ops items).
Proof.
  unfold futures_of, dispatched. induction items as [|item items IH]; [done|].
  csimpl. rewrite filter_cons. case_decide as Hd.
  - destruct Hd as [co ->]. simpl. by rewrite IH.
  - destruct (handler_of h ops item); [|exact IH]. by destruct Hd.
Qed.

Lemma execute_items_unfold x l ops descr confirm max_workers order w :
  let items := x :: l in
  execute_items_operation items ops descr confirm max_workers order w
  = bind (if confirm then
            confirm_action items
              (descr +:+ " " +:+ pretty (length items) +:+ " item(s)")
          else ret true)
      (fun go : bool =>
         if negb go then emit (LogInfo Cancelled) ;;; ret None
         else
           emit (LogInfo (Starting descr (length items))) ;;;
           thread_pool max_workers ;;;
           futures <~ for_fold (dispatch_step ops) items [] ;;
           st <~ for_fold (completion_step (length items))
                   (as_completed futures order) (0%nat, 0%nat) ;;
           emit (LogInfo (Tally descr (snd st) (length items))) ;;;
           ret (Some (Tally_ (snd st) (fst st) (length items)))) w.
Proof. reflexivity. Qed.

(** What a run that gets past the confirmation does: [w1] is the world
    after the confirmation, if one was asked for. *)
Lemma execute_items_run items ops descr (confirm : bool) max_workers order
    w w1 :
  items <> [] ->
  (if confirm then
     confirm_action items
       (descr +:+ " " +:+ pretty (length items) +:+ " item(s)") w
     = (Ok true, w1)
   else w1 = w) ->
  tags_ok (w_heap w1) items = true ->
  0 < max_workers ->
  let completed := as_completed (futures_of (w_heap w1) ops items) order in
  exists evs,
    execute_items_operation items ops descr confirm max_workers order w
    = (Ok (Some (Tally_ (successes completed) (length completed)
                   (length items))),
       called
         (logged w1
            (LogInfo (Starting descr (length items))
               :: warnings_of (w_heap w1) ops items ++ evs
               ++ [LogInfo (Tally descr (successes completed) (length items))]))
         (calls_of (w_heap w1) ops items)).
Proof.
  intros Hne Hgo Htags Hmw completed.
  destruct items as [|x l]; [done|]. rewrite execute_items_unfold.
  set (items := x :: l) in *.
  assert (Hconf : (if confirm then
            confirm_action items
              (descr +:+ " " +:+ pretty (length items) +:+ " item(s)")
          else ret true) w = (Ok true, w1)).
  { destruct confirm; [done|by subst w1]. }
  set (w2 := called
                (logged (logged w1 [LogInfo (Starting descr (length items))])
                   (warnings_of (w_heap w1) ops items))
                (calls_of (w_heap w1) ops items)).
  destruct (completion_loop_run (length items) completed (0%nat, 0%nat) w2)
    as [evs Hloop].
  { apply Forall_forall. intros f Hf. apply as_completed_elem in Hf.
    by apply futures_of_tags_ok in Hf. }
  exists evs.
  rewrite (bind_Ok _ _ _ _ _ Hconf). cbn [negb].
  rewrite (bind_Ok _ _ _ _ _ (emit_logged _ w1)).
  assert (Hpool : forall w', thread_pool max_workers w' = (Ok tt, w')).
  { intros w'. unfold thread_pool.
    by destruct (Z.leb_spec max_workers 0); [lia|]. }
  rewrite (bind_Ok _ _ _ _ _ (Hpool _)).
  rewrite (bind_Ok _ _ _ _ _
             (dispatch_loop_run ops items []
                (logged w1 [LogInfo (Starting descr (length items))]) Htags)).
  simpl app. rewrite logged_heap. fold w2.
  rewrite (bind_Ok _ _ _ _ _ Hloop). simpl fst. simpl snd.
  rewrite (bind_Ok _ _ _ _ _ (emit_logged _ _)). unfold ret. f_equal.
  subst w2. rewrite !logged_called, !logged_app. simpl. by rewrite <- app_assoc.
Qed.

Lemma calls_of_elem h ops items key item :
  Call key item ∈ calls_of h ops items
  <-> item ∈ items /\ provider_tag h item = Some key /\ is_Some (ops !! key).
Proof.
  unfold calls_of. rewrite list_elem_of_omap. unfold handler_of. split.
  - intros (y & Hy & Hc).
    destruct (provider_tag h y) as [c|] eqn:Hp; [|done]. simpl in Hc.
    destruct (ops !! c) as [op|] eqn:Hop; [|done]. simpl in Hc.
    injection Hc as <- <-. by eauto.
  - intros (Hin & Hp & [op Hop]). exists item. split; [done|].
    rewrite Hp. simpl. by rewrite Hop.
Qed.

(** C3 as stated fails: with one item of an unknown provider among three,
    two items are dispatched and the tally says 2 out of 3. *)
Lemma tally_total_counterexample :
  provider_tag ex_heap 3%positive = Some "unknown-cloud"
  /\ ex_ops !! "unknown-cloud" = None
  /\ exists t,
       (execute_items_operation [1; 2; 3]%positive ex_ops "Delete VMs" false
          10 [1; 0]%nat (ex_world "")).1 = Ok (Some t)
       /\ t = Tally_ 2 2 3
       /\ ~ tally_over_dispatched ex_heap ex_ops [1; 2; 3]%positive t.
Proof.
  split; [reflexivity|]. split; [reflexivity|].
  exists (Tally_ 2 2 3). split; [vm_compute; reflexivity|]. split; [done|].
  unfold tally_over_dispatched. vm_compute. discriminate.
Qed.

(** C3, amended: with [confirm] false, an item whose provider tag is not a
    key of the handler map is not dispatched and counts neither as
    processed nor as a success; the total of the tally is the length of the
    whole item list, so the final line reports the successes among the
    dispatched items out of all the items given. *)
Theorem tally_counts_all_items items ops descr max_workers order w :
  items <> [] ->
  tags_ok (w_heap w) items = true ->
  0 < max_workers ->
  order ≡ₚ seq 0 (length (futures_of (w_heap w) ops items)) ->
  let h := w_heap w in
  exists t w',
    execute_items_operation items ops descr false max_workers order w
    = (Ok (Some t), w')
    /\ w_calls w' = w_calls w ++ calls_of h ops items
    /\ (forall item c, provider_tag h item = Some c -> ops !! c = None ->
          (item ∉ dispatched h ops items)
          /\ forall call, call ∈ calls_of h ops items -> call_item call <> item)
    /\ processed_count t = length (dispatched h ops items)
    /\ success_count t = successes (futures_of h ops items)
    /\ (success_count t <= processed_count t)%nat
    /\ total_count t = length items
    /\ last (w_log w')
       = Some (LogInfo (Tally descr (success_count t) (total_count t))).
Proof.
  intros Hne Htags Hmw Hperm h.
  destruct (execute_items_run items ops descr false max_workers order w w
              Hne eq_refl Htags Hmw) as [evs Hrun].
  pose proof (as_completed_perm _ _ Hperm) as Hc.
  rewrite (successes_perm _ _ Hc), (Permutation_length Hc) in Hrun.
  eexists _, _. split; [exact Hrun|]. simpl.
  split; [done|]. split.
  { intros item c Htag Hop.
    assert (Hnone : handler_of h ops item = None).
    { unfold handler_of. rewrite Htag. simpl. by rewrite Hop. }
    split.
    - unfold dispatched. rewrite list_elem_of_filter, Hnone.
      by intros [[? ?] _].
    - intros [c' item'] Hcall Heq. simpl in Heq. subst item'.
      apply calls_of_elem in Hcall.
      destruct Hcall as (_ & Htag' & [op Hop']). congruence. }
  split; [apply futures_of_length|]. split; [done|]. split.
  { unfold successes. apply List.filter_length_le. }
  split; [done|].
  rewrite app_comm_cons, !app_assoc. apply last_snoc.
Qed.

Lemma tally_counts_all_items_witness :
  (execute_items_operation [1; 2; 3]%positive ex_ops "Delete VMs" false 10
     [1; 0]%nat (ex_world "")).1 = Ok (Some (Tally_ 2 2 3)).
Proof.
  destruct (tally_counts_all_items [1; 2; 3]%positive ex_ops "Delete VMs" 10
              [1; 0]%nat (ex_world ""))
    as (t & w' & Hrun & _ & _ & Hp & Hs & _ & Ht & _).
  - done.
  - reflexivity.
  - lia.
  - vm_compute. apply perm_swap.
  - rewrite Hrun. simpl. destruct t as [s p n]. simpl in *.
    subst. reflexivity.
Defined.

(** C4: with [confirm] true and a confirmation that returns false, the
    operation aborts: the run returns without a tally, no handler is
    invoked, no dict object is touched, and besides what the confirmation
    printed the log only gains the cancellation line, so no item is ever
    counted as processed or successful. *)
Theorem declined_confirmation_aborts items ops descr max_workers order w w1 :
  items <> [] ->
  confirm_action items
    (descr +:+ " " +:+ pretty (length items) +:+ " item(s)") w
  = (Ok false, w1) ->
  execute_items_operation items ops descr true max_workers order w
  = (Ok None, logged w1 [LogInfo Cancelled])
  /\ w_calls w1 = w_calls w
  /\ w_heap w1 = w_heap w
  /\ exists prints, w_log w1 = w_log w ++ prints /\ Forall is_print prints.
Proof.
  intros Hne Hconf. split.
  - destruct items as [|x l]; [done|]. rewrite execute_items_unfold.
    by rewrite (bind_Ok _ _ _ _ _ Hconf).
  - pose proof (respects_confirm_action [] items
        (descr +:+ " " +:+ pretty (length items) +:+ " item(s)") w) as Hq.
    rewrite Hconf in Hq. destruct Hq as (Hh & (cs & Hc & Hcs) & Hlog).
    simpl in *. split; [|by split].
    destruct cs as [|c cs]; [by rewrite app_nil_r in Hc|].
    apply Forall_cons in Hcs as [Hc' _]. by inversion Hc'.
Qed.

Lemma declined_confirmation_aborts_witness :
  (execute_items_operation [1; 2; 3]%positive ex_ops "Delete VMs" true 10
     [1; 0]%nat (ex_world "n")).1 = Ok None
  /\ w_calls
       (execute_items_operation [1; 2; 3]%positive ex_ops "Delete VMs" true 10
          [1; 0]%nat (ex_world "n")).2 = [].
Proof.
  destruct (declined_confirmation_aborts [1; 2; 3]%positive ex_ops
              "Delete VMs" 10 [1; 0]%nat (ex_world "n")
              (confirm_action [1; 2; 3]%positive "Delete VMs 3 item(s)"
                 (ex_world "n")).2) as (Hrun & Hc & _).
  - done.
  - vm_compute. reflexivity.
  - rewrite Hrun. split; [reflexivity|]. exact Hc.
Defined.

(** C8 as stated fails: the handler map is probed with the lower-cased tag,
    but its keys are taken as they are, so the key ["AWS"] is never found
    and the item tagged ["aws"] is not dispatched. *)
Lemma uppercase_key_counterexample :
  w_calls
    (execute_items_operation [1%positive] ex_upper_ops "Delete VMs" false 10
       [] (ex_world "")).2 = []
  /\ ~ case_insensitive_dispatch ex_heap ex_upper_ops [1%positive] [].
Proof.
  split; [vm_compute; reflexivity|]. intros H.
  destruct (H 1%positive "aws" "AWS") as [c Hc].
  - by left.
  - reflexivity.
  - by eexists.
  - reflexivity.
  - by inversion Hc.
Qed.

(** C8, amended: only the item's tag is lower-cased.  An item is dispatched
    exactly under its lower-cased tag, whenever that is a key of the
    handler map; so the lookup ignores the letter case of the tag for the
    keys that are themselves in lower case. *)
Theorem dispatch_lowercases_the_tag items ops descr max_workers order w :
  items <> [] ->
  tags_ok (w_heap w) items = true ->
  0 < max_workers ->
  let h := w_heap w in
  let calls :=
    w_calls (execute_items_operation items ops descr false max_workers order
               w).2 in
  calls = w_calls w ++ calls_of h ops items
  /\ (forall item tag,
        item ∈ items -> field h item "cloud" = Some (VStr tag) ->
        is_Some (ops !! py_lower tag) ->
        Call (py_lower tag) item ∈ calls)
  /\ (forall item tag key,
        item ∈ items -> field h item "cloud" = Some (VStr tag) ->
        is_Some (ops !! key) -> py_lower key = key ->
        py_lower tag = py_lower key ->
        Call key item ∈ calls)
  /\ (forall item tag c,
        field h item "cloud" = Some (VStr tag) ->
        Call c item ∈ calls_of h ops items -> c = py_lower tag).
Proof.
  intros Hne Htags Hmw h calls.
  destruct (execute_items_run items ops descr false max_workers order w w
              Hne eq_refl Htags Hmw) as [evs Hrun].
  assert (Hcalls : calls = w_calls w ++ calls_of h ops items).
  { unfold calls. by rewrite Hrun. }
  assert (Hlow : forall item tag,
            item ∈ items -> field h item "cloud" = Some (VStr tag) ->
            is_Some (ops !! py_lower tag) ->
            Call (py_lower tag) item ∈ calls).
  { intros item tag Hin Hf Hop. rewrite Hcalls, elem_of_app. right.
    apply calls_of_elem. split; [done|]. split; [|done].
    unfold provider_tag. fold h. by rewrite Hf. }
  split; [done|]. split; [done|]. split.
  - intros item tag key Hin Hf Hop Hkey Heq. rewrite <- Hkey, <- Heq.
    apply Hlow; try done. by rewrite Heq, Hkey.
  - intros item tag c Hf Hc. apply calls_of_elem in Hc as (_ & Htag & _).
    unfold provider_tag in Htag. fold h in Htag. rewrite Hf in Htag.
    by injection Htag.
Qed.

Lemma dispatch_lowercases_the_tag_witness :
  field ex_heap 2%positive "cloud" = Some (VStr "Azure")
  /\ Call "azure" 2%positive
     ∈ w_calls (execute_items_operation [1; 2; 3]%positive ex_ops
                  "Delete VMs" false 10 [1; 0]%nat (ex_world "")).2.
Proof.
  split; [reflexivity|].
  destruct (dispatch_lowercases_the_tag [1; 2; 3]%positive ex_ops
              "Delete VMs" 10 [1; 0]%nat (ex_world ""))
    as (_ & _ & H & _).
  - done.
  - reflexivity.
  - lia.
  - apply (H 2%positive "Azure" "azure").
    + right; left.
    + reflexivity.
    + by eexists.
    + reflexivity.
    + reflexivity.
Defined.

(** ** DiscoveryExecutor *)

Lemma as_completed_fmap {F G} (g : F -> G) (futures : list F) order :
  as_completed (g <$> futures) order = g <$> as_completed futures order.
Proof.
  unfold as_completed. induction order as [|i order IH]; [done|].
  csimpl. rewrite list_lookup_fmap, IH. by destruct (futures !! i).
Qed.

Lemma length_bind_sum {F G} (f : F -> list G) (l : list F) :
  length (l ≫= f) = sum_list_with (fun x => length (f x)) l.
Proof.
  induction l as [|x l IH]; [done|]. csimpl. by rewrite length_app, IH.
Qed.

Section DiscoveryProofs.

Context {A : Type}.

Lemma discovery_step_run total (st : list A * nat) (t : task A) w :
  is_Some (context t !! "cloud") ->
  exists evs,
    discovery_step total st (func t (args t), context t) w
    = (Ok (st.1 ++ task_block t, S st.2), logged w evs).
Proof.
  intros [cloud Hcloud]. unfold discovery_step, task_block, dict_index. simpl.
  rewrite Hcloud. unfold bind at 1, ret at 1.
  destruct (func t (args t)) as [resources|e].
  - unfold bind, try_except, ret, raise, emit.
    destruct (context t !! "resource") as [name|]; by eexists [_].
  - unfold bind, emit, ret. rewrite app_nil_r. by eexists [_].
Qed.

Lemma discovery_loop_run total (ts : list (task A)) (st : list A * nat) w :
  Forall (fun t => is_Some (context t !! "cloud")) ts ->
  exists evs,
    for_fold (discovery_step total)
      ((fun t => (func t (args t), context t)) <$> ts) st w
    = (Ok (st.1 ++ (ts ≫= task_block), (st.2 + length ts)%nat), logged w evs).
Proof.
  revert st w. induction ts as [|t ts IH]; intros st w Hok.
  - exists []. simpl. rewrite logged_nil, app_nil_r, Nat.add_0_r.
    by destruct st.
  - apply Forall_cons in Hok as [Ht Hts].
    destruct (discovery_step_run total st t w Ht) as [e1 H1].
    destruct (IH (st.1 ++ task_block t, S st.2) (logged w e1) Hts) as [e2 H2].
    exists (e1 ++ e2). csimpl.
    rewrite (bind_Ok _ _ _ _ _ H1), H2, logged_app. simpl.
    rewrite <- app_assoc. repeat f_equal. lia.
Qed.

(** C1: for tasks whose contexts name their cloud and a pool with at least
    one worker, whatever the order in which the tasks complete, the
    executor returns the concatenation of the result lists of the tasks
    that did not raise, each list as one block in its own order, the
    blocks in completion order.  A task that raises contributes nothing
    and every item of every other task is in the output; the output is a
    permutation of the blocks in submission order and its length is the
    sum of their lengths. *)
Theorem discovery_collects_successful_results (tasks : list (task A))
    max_workers order w :
  0 < max_workers ->
  contexts_ok tasks = true ->
  order ≡ₚ seq 0 (length tasks) ->
  exists out evs,
    execute_discovery_tasks tasks max_workers order w = (Ok out, logged w evs)
    /\ out = as_completed tasks order ≫= task_block
    /\ out ≡ₚ tasks ≫= task_block
    /\ length out = sum_list_with (fun t => length (task_block t)) tasks
    /\ (forall (t : task A) e, func t (args t) = Raise e -> task_block t = [])
    /\ (forall (t : task A) resources x,
          t ∈ tasks -> func t (args t) = Ok resources -> x ∈ resources ->
          x ∈ out).
Proof.
  intros Hmw Hctx Hperm.
  pose proof (as_completed_perm tasks order Hperm) as Hc.
  assert (Hblocks : as_completed tasks order ≫= task_block
                    ≡ₚ tasks ≫= task_block) by (by rewrite Hc).
  assert (Hrun : exists evs,
    execute_discovery_tasks tasks max_workers order w
    = (Ok (as_completed tasks order ≫= task_block), logged w evs)).
  { unfold execute_discovery_tasks. destruct tasks as [|t0 ts] eqn:E.
    { apply Permutation_nil_r in Hperm as ->. exists [].
      by rewrite logged_nil. }
    rewrite <- E in *. clear E t0 ts.
    assert (Hok : Forall (fun t : task A => is_Some (context t !! "cloud"))
                    (as_completed tasks order)).
    { apply Forall_forall. intros t Ht. apply as_completed_elem in Ht.
      unfold contexts_ok in Hctx. rewrite forallb_forall in Hctx.
      apply list_elem_of_In in Ht. apply Hctx in Ht.
      by apply bool_decide_eq_true in Ht. }
    destruct (discovery_loop_run (length tasks) _ ([], 0%nat) w Hok)
      as [evs Hloop].
    exists evs. unfold thread_pool.
    destruct (Z.leb_spec max_workers 0); [lia|].
    unfold bind at 1, ret at 1.
    rewrite as_completed_fmap, (bind_Ok _ _ _ _ _ Hloop). done. }
  destruct Hrun as [evs Hrun]. eexists _, evs. split; [exact Hrun|].
  split; [done|]. split; [done|]. split.
  { rewrite length_bind_sum. by rewrite Hc. }
  split.
  { intros t e He. unfold task_block. by rewrite He. }
  intros t resources x Ht Hres Hx. rewrite Hblocks.
  apply list_elem_of_bind. exists t. split; [|done].
  unfold task_block. by rewrite Hres.
Qed.

End DiscoveryProofs.

Lemma discovery_collects_successful_results_witness :
  (execute_discovery_tasks ex_tasks 20 [2; 0; 1]%nat (ex_world "")).1
  = Ok [3; 1; 2]%nat.
Proof.
  destruct (discovery_collects_successful_results ex_tasks 20 [2; 0; 1]%nat
              (ex_world "")) as (out & evs & Hrun & Hout & _).
  - lia.
  - reflexivity.
  - vm_compute. solve_Permutation.
  - rewrite Hrun, Hout. reflexivity.
Defined.

(** ** TaskBuilder *)

Section TaskBuilderProofs.

Context {A : Type}.
Variable get_aws_profiles : result (list string).
Variable describe_regions : string -> result (list string).
Variable get_resource_func : list string -> result (list A).
Variable resource_name : string.

Lemma get_regions_run profile w :
  get_regions get_aws_profiles describe_regions profile w
  = (regions_of get_aws_profiles describe_regions profile, w).
Proof.
  unfold get_regions, regions_of, bind, lift, ret, raise.
  destruct (String.eqb profile ""); [|done].
  by destruct get_aws_profiles as [[|p ps]|e].
Qed.

(** One profile never makes the loop raise: its tasks are added, or a line
    is printed and the list stays as it was. *)
Lemma profile_step_run tasks profile w :
  profile_step get_aws_profiles describe_regions get_resource_func
    resource_name tasks profile w
  = (Ok (tasks ++ profile_tasks get_aws_profiles describe_regions
                    get_resource_func resource_name profile),
     logged w (profile_prints get_aws_profiles describe_regions profile)).
Proof.
  unfold profile_step, try_except, bind, profile_tasks, profile_prints.
  rewrite get_regions_run.
  destruct (regions_of get_aws_profiles describe_regions profile) as [rs|e].
  - by rewrite logged_nil.
  - unfold emit, ret. by rewrite app_nil_r.
Qed.

Lemma profile_loop_run profiles tasks w :
  for_fold (profile_step get_aws_profiles describe_regions get_resource_func
              resource_name) profiles tasks w
  = (Ok (tasks ++ (profiles ≫= profile_tasks get_aws_profiles describe_regions
                                 get_resource_func resource_name)),
     logged w (profiles ≫= profile_prints get_aws_profiles describe_regions)).
Proof.
  revert tasks w. induction profiles as [|p ps IH]; intros tasks w.
  - simpl. by rewrite app_nil_r, logged_nil.
  - csimpl. rewrite (bind_Ok _ _ _ _ _ (profile_step_run tasks p w)), IH.
    by rewrite logged_app, <- app_assoc.
Qed.

(** C7: the AWS task builder never raises.  With the configured profiles
    [profiles], the tasks are those of the profiles whose regions can be
    listed, profile after profile; a profile whose region listing fails
    gets one printed line and no task, and the tasks of every other
    profile are still built.  With no profile configured the result is the
    empty list and nothing is printed. *)
Theorem build_discovery_tasks_skips_failing_accounts w :
  exists tasks evs,
    build_discovery_tasks get_aws_profiles describe_regions get_resource_func
      resource_name w = (Ok tasks, logged w evs)
    /\ (forall profiles,
          get_aws_profiles = Ok profiles ->
          tasks = profiles ≫= profile_tasks get_aws_profiles describe_regions
                                get_resource_func resource_name
          /\ evs = profiles ≫= profile_prints get_aws_profiles describe_regions
          /\ (forall p regions r,
                p ∈ profiles ->
                regions_of get_aws_profiles describe_regions p = Ok regions ->
                r ∈ regions ->
                aws_task get_resource_func resource_name p r ∈ tasks)
          /\ (forall p e,
                p ∈ profiles ->
                regions_of get_aws_profiles describe_regions p = Raise e ->
                Print (RegionsError p e) ∈ evs
                /\ profile_tasks get_aws_profiles describe_regions
                     get_resource_func resource_name p = []))
    /\ (get_aws_profiles = Ok [] -> tasks = [] /\ evs = []).
Proof.
  destruct get_aws_profiles as [profiles|e] eqn:Hcfg.
  - rewrite <- Hcfg.
    exists (profiles ≫= profile_tasks get_aws_profiles describe_regions
                          get_resource_func resource_name),
           (profiles ≫= profile_prints get_aws_profiles describe_regions).
    split.
    { apply try_except_Ok.
      assert (Hp : get_profiles get_aws_profiles w = (Ok profiles, w)).
      { unfold get_profiles, lift. by rewrite Hcfg. }
      rewrite (bind_Ok _ _ _ _ _ Hp). destruct profiles as [|p ps].
      - by rewrite logged_nil.
      - apply profile_loop_run. }
    split.
    + rewrite Hcfg. intros ps [= <-]. rewrite <- Hcfg.
      split; [done|]. split; [done|]. split.
      * intros p regions r Hp Hregions Hr.
        apply list_elem_of_bind. exists p. split; [|done].
        unfold profile_tasks. rewrite Hregions.
        by apply list_elem_of_fmap_2.
      * intros p e Hp He. split.
        -- apply list_elem_of_bind. exists p. split; [|done].
           unfold profile_prints. rewrite He. by left.
        -- unfold profile_tasks. by rewrite He.
    + rewrite Hcfg. by intros [= ->].
  - exists [], [Print (BuildError e)]. by split.
Qed.

End TaskBuilderProofs.

(** ** CloudAggregator *)

(** A loop whose body never raises ends, and an invariant of its local
    variables that follows the elements done so far holds of all of them at
    the end. *)
Lemma for_fold_rule {A S} (I : list A -> S -> Prop) (body : S -> A -> M S)
    l s w :
  I [] s ->
  (forall pre x post s w,
      l = pre ++ x :: post -> I pre s ->
      exists s' w', body s x w = (Ok s', w') /\ I (pre ++ [x]) s') ->
  exists s' w', for_fold body l s w = (Ok s', w') /\ I l s'.
Proof.
  intros H0 Hstep.
  assert (Hgen : forall post pre s w,
    l = pre ++ post -> I pre s ->
    exists s' w', for_fold body post s w = (Ok s', w') /\ I (pre ++ post) s').
  { induction post as [|x post IH]; intros pre s0 w0 Hl Hpre.
    - exists s0, w0. by rewrite app_nil_r.
    - destruct (Hstep pre x post s0 w0 Hl Hpre) as (s1 & w1 & Hx & H1).
      destruct (IH (pre ++ [x]) s1 w1) as (s2 & w2 & Hrest & H2).
      { by rewrite <- app_assoc. }
      { done. }
      exists s2, w2. simpl. rewrite (bind_Ok _ _ _ _ _ Hx).
      split; [done|]. by rewrite <- app_assoc in H2. }
  by apply (Hgen l [] s w).
Qed.

Section AggregatorProofs.

Context {A : Type}.

Lemma submit_loop_run (funcs : list (string * (unit -> result (list A))))
    stats futures w :
  exists stats' w',
    for_fold submit_cloud funcs (stats, futures) w
    = (Ok (stats', futures ++ (future_of <$> funcs)), w')
    /\ forall name,
         (name ∈ funcs.*1 -> exists t, stats' !! name = Some (started t))
         /\ (name ∉ funcs.*1 -> stats' !! name = stats !! name).
Proof.
  revert stats futures w.
  induction funcs as [|[n f] funcs IH]; intros stats futures w.
  - exists stats, w. simpl. rewrite app_nil_r. split; [done|].
    intros name. split; [by inversion 1|done].
  - destruct (IH (<[n := started (w_clock w (w_ticks w))]> stats)
                (futures ++ [(n, f tt)]) (set_ticks w (S (w_ticks w))))
      as (stats' & w' & Hrun & Hstats).
    exists stats', w'. split.
    { simpl. unfold bind at 1, submit_cloud at 1, bind at 1, now, ret. simpl.
      rewrite Hrun. by rewrite <- app_assoc. }
    intros name. destruct (Hstats name) as [Hin Hout]. split.
    + intros Hname. destruct (decide (name ∈ funcs.*1)) as [Hi|Hni].
      { by apply Hin. }
      rewrite Hout by done. csimpl in Hname.
      apply elem_of_cons in Hname as [->|Hname]; [|done].
      rewrite lookup_insert_eq. by eexists.
    + intros Hname. csimpl in Hname. apply not_elem_of_cons in Hname as [Hne Hni].
      rewrite Hout by done. by rewrite lookup_insert_ne.
Qed.

Lemma collect_cloud_step names (pre : list (string * result (list A)))
    (x : string * result (list A)) st w :
  x.1 ∈ names -> x.1 ∉ pre.*1 ->
  collecting names pre st ->
  exists st' w', collect_cloud st x w = (Ok st', w')
                 /\ collecting names (pre ++ [x]) st'.
Proof.
  intros Hx Hfresh [Hall Hstats]. destruct x as [nx rx]. simpl in *.
  destruct (Hstats nx Hx) as [_ Hrunning].
  destruct (Hrunning Hfresh) as [t Ht].
  unfold collect_cloud, bind, now, start_of, ret. simpl. rewrite Ht. simpl.
  set (e := w_clock w (w_ticks w)).
  assert (Hblock : (pre ++ [(nx, rx)]) ≫= future_block
                   = st.1 ++ future_block (nx, rx)).
  { rewrite bind_app, Hall. csimpl. by rewrite app_nil_r. }
  assert (Hkeep : forall upd name,
    name <> nx -> name ∈ names ->
    (forall f, f ∈ pre ++ [(nx, rx)] -> f.1 = name ->
       exists r, alter upd nx st.2 !! name = Some r /\ collected f r)
    /\ (name ∉ (pre ++ [(nx, rx)]).*1 ->
        exists t, alter upd nx st.2 !! name = Some (started t))).
  { intros upd name Hne Hname. rewrite lookup_alter_ne by done.
    destruct (Hstats name Hname) as [Hdone Hrun]. split.
    - intros f Hf Hfn. apply elem_of_app in Hf as [Hf|Hf]; [by apply Hdone|].
      apply list_elem_of_singleton in Hf as ->. by destruct Hne.
    - intros Hn. apply Hrun. intros Hin. apply Hn. rewrite fmap_app.
      apply elem_of_app. by left. }
  assert (Hhere : forall upd,
    collected (nx, rx) (upd (started t)) ->
    (forall f, f ∈ pre ++ [(nx, rx)] -> f.1 = nx ->
       exists r, alter upd nx st.2 !! nx = Some r /\ collected f r)
    /\ (nx ∉ (pre ++ [(nx, rx)]).*1 ->
        exists t, alter upd nx st.2 !! nx = Some (started t))).
  { intros upd Hupd. rewrite lookup_alter_eq, Ht. simpl. split.
    - intros f Hf Hfn. apply elem_of_app in Hf as [Hf|Hf].
      { destruct Hfresh. rewrite <- Hfn. by apply list_elem_of_fmap_2. }
      apply list_elem_of_singleton in Hf as ->. by eexists.
    - intros Hn. destruct Hn. rewrite fmap_app. apply elem_of_app. right.
      by left. }
  destruct rx as [res|err]; eexists _, _; (split; [reflexivity|]);
    (split; [simpl; rewrite Hblock; unfold future_block; simpl;
             by rewrite ?app_nil_r|]);
    intros name Hname; simpl;
    (destruct (decide (name = nx)) as [->|Hne];
       [apply Hhere; by split; [eexists|]|by apply Hkeep]).
Qed.

Lemma future_blocks (funcs : list (string * (unit -> result (list A)))) :
  (future_of <$> funcs) ≫= future_block = funcs ≫= cloud_block.
Proof. rewrite list_fmap_bind. by apply list_bind_ext. Qed.

(** C2, amended: for a mapping with distinct provider names and a pool with
    at least one worker, whatever the order in which the providers
    complete, every provider not named ["all"] has a record with status
    success and the length of its result when it returned, and with status
    failed, count 0 and the error message when it raised.  The record under
    ["all"] has status success and counts the merged list, whose length is
    the sum of the lengths of the successful results, however many
    providers failed. *)
Theorem aggregator_stats (funcs : list (string * (unit -> result (list A))))
    max_workers order w :
  0 < max_workers ->
  NoDup funcs.*1 ->
  order ≡ₚ seq 0 (length funcs) ->
  exists d w',
    discover_across_clouds funcs max_workers order w = (Ok d, w')
    /\ (forall name f,
          (name, f) ∈ funcs -> name <> "all" ->
          exists r, stats d !! name = Some r /\ provider_record (f tt) r)
    /\ (exists r, stats d !! "all" = Some r /\ status r = Some "success"
                  /\ count r = Some (length (items d)))
    /\ items d ≡ₚ funcs ≫= cloud_block
    /\ length (items d) = sum_list_with (fun nf => length (cloud_block nf)) funcs.
Proof.
  intros Hmw Hnd Hperm.
  set (t0 := w_clock w (w_ticks w)).
  set (w0 := set_ticks w (S (w_ticks w))).
  destruct (submit_loop_run funcs {[ "all" := started t0 ]} [] w0)
    as (stats1 & w1 & Hsub & Hstats1).
  simpl in Hsub.
  set (futures := future_of <$> funcs) in *.
  set (names := "all" :: funcs.*1).
  set (cs := as_completed futures order).
  assert (Hcs : cs ≡ₚ futures).
  { apply as_completed_perm. unfold futures. by rewrite length_fmap. }
  assert (Hfn : futures.*1 = funcs.*1).
  { unfold futures. rewrite <- list_fmap_compose. by apply list_fmap_ext. }
  assert (Hnd' : NoDup cs.*1) by (by rewrite Hcs, Hfn).
  assert (Hstart : forall name, name ∈ names ->
            exists t, stats1 !! name = Some (started t)).
  { intros name Hname. destruct (Hstats1 name) as [Hin Hout].
    destruct (decide (name ∈ funcs.*1)) as [Hi|Hni]; [by apply Hin|].
    apply elem_of_cons in Hname as [->|Hname]; [|done].
    rewrite Hout by done. rewrite lookup_singleton_eq. by eexists. }
  destruct (for_fold_rule (collecting names) collect_cloud cs ([], stats1) w1)
    as (st2 & w2 & Hloop & Hall & Hstats2).
  { split; [done|]. intros name Hname. split; [by inversion 1|].
    intros _. by apply Hstart. }
  { intros pre x post st w' Hl Hpre. apply collect_cloud_step; [| |done].
    - right. rewrite <- Hfn. apply list_elem_of_fmap_2.
      rewrite <- Hcs, Hl. apply elem_of_app. right. by left.
    - rewrite Hl, fmap_app, fmap_cons in Hnd'.
      apply NoDup_app in Hnd' as (_ & Hdisj & _). intros Hin.
      apply (Hdisj _ Hin). by left. }
  assert (Hallrec : exists r0, st2.2 !! "all" = Some r0
                               /\ is_Some (start_time r0)).
  { destruct (Hstats2 "all") as [Hdone Hrun]; [by left|].
    destruct (decide ("all" ∈ cs.*1)) as [Hin|Hnin].
    - apply list_elem_of_fmap in Hin as (f & Hf1 & Hf).
      destruct (Hdone f Hf (eq_sym Hf1)) as (r & Hr & Hs & _). by eauto.
    - destruct (Hrun Hnin) as [t Ht]. exists (started t). split; [done|].
      by eexists. }
  destruct Hallrec as (r0 & Hr0 & [s0 Hs0]).
  set (e := w_clock w2 (w_ticks w2)).
  eexists _, _. split.
  { unfold discover_across_clouds.
    unfold bind at 1, now at 1. fold t0 w0.
    unfold thread_pool. destruct (Z.leb_spec max_workers 0); [lia|].
    unfold bind at 1, ret at 1.
    rewrite (bind_Ok _ _ _ _ _ Hsub). simpl fst. simpl snd. fold cs.
    rewrite (bind_Ok _ _ _ _ _ Hloop).
    unfold bind at 1, now at 1. fold e.
    unfold bind, start_of, ret. rewrite Hr0, Hs0. reflexivity. }
  simpl. split.
  { intros name f Hin Hne. rewrite lookup_alter_ne by done.
    destruct (Hstats2 name) as [Hdone _].
    { right. by apply (list_elem_of_fmap_2 fst _ (name, f)). }
    destruct (Hdone (name, f tt)) as (r & Hr & _ & Hrec); [|done|by eauto].
    rewrite Hcs. by apply (list_elem_of_fmap_2 future_of _ (name, f)). }
  split.
  { rewrite lookup_alter_eq, Hr0. simpl. by eexists. }
  assert (Hitems : st2.1 ≡ₚ funcs ≫= cloud_block).
  { rewrite Hall, Hcs. unfold futures. by rewrite future_blocks. }
  split; [done|]. rewrite Hitems. apply length_bind_sum.
Qed.

End AggregatorProofs.

(** C2 as stated fails for a provider named ["all"]: its record is the
    aggregate one, with status success although the provider failed. *)
Lemma provider_named_all_counterexample :
  exists d,
    (discover_across_clouds ex_all_cloud 3 [0%nat] (ex_world "")).1 = Ok d
    /\ (status <$> stats d !! "all") = Some (Some "success")
    /\ ~ per_provider_stats ex_all_cloud d.
Proof.
  eexists. split; [vm_compute; reflexivity|]. split; [reflexivity|].
  intros H. destruct (H "all" (fun _ => Raise (Error "down")))
    as (r & Hr & Hst & _).
  - by left.
  - vm_compute in Hr. injection Hr as <-. discriminate.
Qed.

Lemma aggregator_stats_witness :
  exists d,
    (discover_across_clouds ex_clouds 3 [2; 0; 1]%nat (ex_world "")).1 = Ok d
    /\ (status <$> stats d !! "azure") = Some (Some "failed")
    /\ (count <$> stats d !! "all") = Some (Some 3%nat).
Proof.
  destruct (aggregator_stats ex_clouds 3 [2; 0; 1]%nat (ex_world ""))
    as (d & w' & Hrun & Hprov & (ra & Hra & _ & Hcount) & _ & Hlen).
  - lia.
  - compute_done.
  - vm_compute. solve_Permutation.
  - exists d. split; [by rewrite Hrun|]. split.
    + destruct (Hprov "azure" (fun _ => Raise (Error "login expired")))
        as (r & Hr & Hst & _); [right; left|done|].
      by rewrite Hr, <- Hst.
    + rewrite Hra. simpl. rewrite Hcount, Hlen. reflexivity.
Defined.

(** ** What the hypotheses of the theorems exclude *)

(** A candidate whose id is a list makes the resolver raise before any
    identifier is looked at. *)
Example unhashable_id_raises :
  keys_ok (w_heap ex_list_id_world) "id" [1%positive] = false
  /\ (find_items_by_identifier [1%positive] "1" "id" "name"
        ex_list_id_world).1 = Raise (TypeError "unhashable type").
Proof. split; reflexivity. Qed.

(** A task context without ['cloud'] makes the executor raise: the key is
    read outside the [try] block. *)
Example context_without_cloud_raises :
  contexts_ok [ex_bare_task] = false
  /\ (execute_discovery_tasks [ex_bare_task] 20 [0%nat] (ex_world "")).1
     = Raise (KeyError "cloud").
Proof. split; reflexivity. Qed.

(** A pool cannot be made without workers. *)
Example pool_without_workers_raises :
  (execute_discovery_tasks ex_tasks 0 [0; 1; 2]%nat (ex_world "")).1
  = Raise (ValueError "max_workers must be greater than 0").
Proof. reflexivity. Qed.

(** A tag that is not a string makes the dispatch loop raise. *)
Example tag_not_a_string_raises :
  let w := World {[ 1%positive := <["cloud" := VNone]> (ex_item "a" "web" "") ]}
             [] [] "" (fun n => Z.of_nat n) 0 in
  tags_ok (w_heap w) [1%positive] = false
  /\ (execute_items_operation [1%positive] ex_ops "Tag VMs" false 10 [] w).1
     = Raise (AttributeError "lower").
Proof. split; reflexivity. Qed.

(** * Further properties of the code *)

(** ** The confirmation prompt *)

Lemma lower_is_y c :
  String.eqb (py_lower (String c EmptyString)) "y"
  = Ascii.eqb c "y"%char || Ascii.eqb c "Y"%char.
Proof.
  destruct c as [b0 b1 b2 b3 b4 b5 b6 b7].
  destruct b0, b1, b2, b3, b4, b5, b6, b7; reflexivity.
Qed.

Lemma confirm_loop_run items w :
  tags_ok (w_heap w) items = true ->
  for_each (fun item =>
    c <~ item_get_default item "cloud" (VStr "Unknown") ;;
    cloud <~ as_str "upper" c ;;
    name <~ item_get_default item "name" (VStr "Unknown") ;;
    account <~ account_of item ;;
    l <~ item_get_default item "location" (VStr "Unknown") ;;
    location <~ item_get_default item "region" l ;;
    emit (Print (ConfirmItem name (VStr cloud) account location))) items w
  = (Ok tt, logged w (confirm_line (w_heap w) <$> items)).
Proof.
  revert w. induction items as [|item items IH]; intros w Hok.
  - simpl. by rewrite logged_nil.
  - simpl in Hok. apply andb_prop in Hok as [Hitem Hitems].
    apply bool_decide_eq_true in Hitem as [tag Htag].
    cbn [for_each]. unfold bind at 1.
    assert (Hstep :
      (c <~ item_get_default item "cloud" (VStr "Unknown") ;;
       cloud <~ as_str "upper" c ;;
       name <~ item_get_default item "name" (VStr "Unknown") ;;
       account <~ account_of item ;;
       l <~ item_get_default item "location" (VStr "Unknown") ;;
       location <~ item_get_default item "region" l ;;
       emit (Print (ConfirmItem name (VStr cloud) account location))) w
      = (Ok tt, logged w [confirm_line (w_heap w) item])).
    { unfold provider_tag in Htag. unfold confirm_line.
      unfold bind, item_get_default, account_of, item_get, as_str, ret, emit,
        bind. simpl.
      destruct (field (w_heap w) item "cloud") as [[| | |s| |]|]; try done;
        simpl;
        destruct (field (w_heap w) item "profile");
        destruct (field (w_heap w) item "account_id"); reflexivity. }
    rewrite Hstep. rewrite IH by done. rewrite logged_app. reflexivity.
Qed.

(** What the prompt does for a non-empty list. *)
Lemma confirm_action_run items descr w :
  tags_ok (w_heap w) items = true ->
  items <> [] ->
  confirm_action items descr w
  = (Ok (accepts (w_stdin w)),
     set_stdin
       (logged w (confirm_prints (w_heap w) items descr (w_stdin w)))
       (after_key (w_stdin w))).
Proof.
  intros Hok Hne. destruct items as [|x l] eqn:E; [done|]. rewrite <- E in *.
  assert (Hunfold : confirm_action items descr w
    = (emit (Print (ConfirmHeader descr)) ;;;
       emit (Print ConfirmRule) ;;;
       for_each (fun item =>
         c <~ item_get_default item "cloud" (VStr "Unknown") ;;
         cloud <~ as_str "upper" c ;;
         name <~ item_get_default item "name" (VStr "Unknown") ;;
         account <~ account_of item ;;
         l <~ item_get_default item "location" (VStr "Unknown") ;;
         location <~ item_get_default item "region" l ;;
         emit (Print (ConfirmItem name (VStr cloud) account location))) items ;;;
       emit (Print ConfirmRule) ;;;
       emit (Print (ConfirmTotal (length items))) ;;;
       emit (Print ConfirmPrompt) ;;;
       c <~ getch ;;
       let response := py_lower c in
       emit (Print (ConfirmEcho response)) ;;;
       ret (String.eqb response "y")) w).
  { by rewrite E. }
  rewrite Hunfold. clear Hunfold E.
  rewrite (bind_Ok _ _ _ _ _ (emit_logged _ _)).
  rewrite (bind_Ok _ _ _ _ _ (emit_logged _ _)).
  erewrite bind_Ok by (apply confirm_loop_run; exact Hok).
  rewrite (bind_Ok _ _ _ _ _ (emit_logged _ _)).
  rewrite (bind_Ok _ _ _ _ _ (emit_logged _ _)).
  rewrite (bind_Ok _ _ _ _ _ (emit_logged _ _)).
  rewrite !logged_app, !logged_heap.
  unfold bind, getch, emit, ret, accepts, after_key, confirm_prints.
  cbn [logged set_log w_stdin].
  destruct (w_stdin w) as [|c r] eqn:Hkeys; [|rewrite lower_is_y];
    (f_equal; unfold logged, set_log, set_stdin;
     cbn [w_heap w_log w_calls w_stdin w_clock w_ticks]; f_equal;
     try done; by rewrite <- !app_assoc).
Qed.




(** ** ItemOperationExecutor: the prompt decides the run *)



(** ** DiscoveryExecutor: the progress lines *)

Section DiscoveryLines.

Context {A : Type}.

Lemma discovery_step_line total (st : list A * nat) (t : task A) w :
  is_Some (context t !! "cloud") ->
  discovery_step total st (func t (args t), context t) w
  = (Ok (st.1 ++ task_block t, S st.2),
     logged w [task_line total (S st.2) t]).
Proof.
  intros [cloud Hcloud].
  unfold discovery_step, task_block, task_line, dict_index. simpl.
  rewrite Hcloud. unfold bind at 1, ret at 1. simpl.
  destruct (func t (args t)) as [resources|e].
  - unfold bind, try_except, ret, raise, emit.
    by destruct (context t !! "resource") as [name|].
  - unfold bind, emit, ret. by rewrite app_nil_r.
Qed.

Lemma discovery_loop_lines total (ts : list (task A)) (st : list A * nat) w :
  Forall (fun t => is_Some (context t !! "cloud")) ts ->
  for_fold (discovery_step total)
    ((fun t => (func t (args t), context t)) <$> ts) st w
  = (Ok (st.1 ++ (ts ≫= task_block), (st.2 + length ts)%nat),
     logged w (imap (fun i => task_line total (S (st.2 + i))) ts)).
Proof.
  revert st w. induction ts as [|t ts IH]; intros st w Hok.
  - simpl. rewrite logged_nil, app_nil_r, Nat.add_0_r. by destruct st.
  - apply Forall_cons in Hok as [Ht Hts]. csimpl.
    rewrite (bind_Ok _ _ _ _ _ (discovery_step_line total st t w Ht)).
    rewrite IH by done. rewrite logged_app. simpl.
    rewrite <- app_assoc, Nat.add_0_r. f_equal; [repeat f_equal; lia|].
    do 2 f_equal. apply imap_ext. intros i x _. simpl. f_equal. lia.
Qed.

(** X3: the progress lines of the discovery executor.  An empty task list
    returns the empty list at once: nothing is logged and no pool is made,
    whatever [max_workers] is.  Otherwise, with at least one worker, the
    executor logs exactly one line per task, numbered 1 to the number of
    tasks in completion order: an info line for a task that returned (and
    whose context names its resource), an error line for one that raised. *)
Theorem discovery_logs_one_line_per_task (tasks : list (task A))
    max_workers order w :
  contexts_ok tasks = true ->
  (tasks = [] -> execute_discovery_tasks tasks max_workers order w = (Ok [], w))
  /\ (0 < max_workers ->
      order ≡ₚ seq 0 (length tasks) ->
      (execute_discovery_tasks tasks max_workers order w).2
      = logged w (imap (fun i => task_line (length tasks) (S i))
                    (as_completed tasks order))
      /\ length (as_completed tasks order) = length tasks).
Proof.
  intros Hctx. split; [by intros ->|]. intros Hmw Hperm.
  split; [|by rewrite (as_completed_perm tasks order Hperm)].
  unfold execute_discovery_tasks. destruct tasks as [|t0 ts] eqn:E.
  { apply Permutation_nil_r in Hperm as ->. simpl. by rewrite logged_nil. }
  rewrite <- E in *. clear E t0 ts.
  assert (Hok : Forall (fun t : task A => is_Some (context t !! "cloud"))
                  (as_completed tasks order)).
  { apply Forall_forall. intros t Ht. apply as_completed_elem in Ht.
    unfold contexts_ok in Hctx. rewrite forallb_forall in Hctx.
    apply list_elem_of_In in Ht. apply Hctx in Ht.
    by apply bool_decide_eq_true in Ht. }
  unfold thread_pool. destruct (Z.leb_spec max_workers 0); [lia|].
  unfold bind at 1, ret at 1.
  rewrite as_completed_fmap.
  rewrite (bind_Ok _ _ _ _ _
             (discovery_loop_lines (length tasks) _ ([], 0%nat) w Hok)).
  reflexivity.
Qed.

End DiscoveryLines.

Lemma discovery_logs_one_line_per_task_witness :
  w_log (execute_discovery_tasks ex_tasks 20 [2; 0; 1]%nat (ex_world "")).2
  = [ LogError (TaskError 1 3 "gcp" "" (KeyError "resource"));
      LogInfo (Found 2 3 "aws" "p r1" 2 "VM");
      LogError (TaskError 3 3 "aws" "p r2" (Error "throttled")) ].
Proof.
  destruct (discovery_logs_one_line_per_task ex_tasks 20 [2; 0; 1]%nat
              (ex_world "") eq_refl) as [_ H].
  destruct H as [-> _]; [lia|vm_compute; solve_Permutation|]. reflexivity.
Defined.

(** ** IdentifierResolver: one outcome per identifier *)

Lemma split_length s : length (split ","%char s) = S (commas s).
Proof.
  induction s as [|c s IH]; [done|]. simpl.
  destruct (Ascii.eqb c ","%char); simpl; [by rewrite IH|].
  destruct (split_cons ","%char s) as (h & t & Hs). rewrite Hs in *.
  simpl in *. exact IH.
Qed.

Lemma resolve_one_outcome items id_map name_map t :
  (length (option_list (resolve items id_map name_map t).1)
   + length (resolve items id_map name_map t).2 = 1)%nat
  /\ Forall is_error (resolve items id_map name_map t).2.
Proof.
  unfold resolve. destruct (py_int t) as [n|].
  - destruct ((1 <=? n) && (n <=? Z.of_nat (length items))) eqn:Hr.
    + destruct (lookup_lt_is_Some_2 items (Z.to_nat (n - 1))) as [x Hx].
      { apply andb_prop in Hr as [H1 H2]. lia. }
      rewrite Hx. by split.
    + split; [done|]. by apply Forall_singleton.
  - destruct (id_map !! t); [by split|].
    destruct (name_map !! t); [by split|].
    split; [done|]. by apply Forall_singleton.
Qed.

(** X4: every identifier has exactly one outcome.  For candidates whose ids
    and names can be dictionary keys, an expression with [n] commas has
    [n + 1] identifiers, and each of them either selects one item or logs
    one error: the number of items returned plus the number of lines logged
    is the number of identifiers, and nothing but errors is logged. *)
Theorem find_items_one_outcome_per_identifier w items identifiers
    id_key name_key :
  keys_ok (w_heap w) id_key items = true ->
  keys_ok (w_heap w) name_key items = true ->
  exists out errs,
    find_items_by_identifier items identifiers id_key name_key w
    = (Ok out, logged w errs)
    /\ (length out + length errs = S (commas identifiers))%nat
    /\ Forall is_error errs.
Proof.
  intros Hid Hname. eexists _, _. split; [by apply find_items_run|].
  unfold selected, complaints.
  set (r := resolve items (index_map (w_heap w) id_key items)
              (index_map (w_heap w) name_key items)).
  assert (Hlen : length (tokens identifiers) = S (commas identifiers)).
  { unfold tokens. by rewrite length_map, split_length. }
  rewrite <- Hlen. clear Hlen. split.
  - induction (tokens identifiers) as [|t ts IH]; [done|]. csimpl.
    rewrite !length_app.
    destruct (resolve_one_outcome items (index_map (w_heap w) id_key items)
                (index_map (w_heap w) name_key items) t) as [H1 _].
    fold r in H1. lia.
  - apply Forall_bind, Forall_forall. intros t _.
    apply (resolve_one_outcome items _ _ t).
Qed.

Lemma find_items_one_outcome_per_identifier_witness :
  exists out errs,
    find_items_by_identifier [1; 2; 3]%positive "2,zz,,web" "id" "name"
      (ex_world "") = (Ok out, logged (ex_world "") errs)
    /\ (length out + length errs = 4)%nat.
Proof.
  destruct (find_items_one_outcome_per_identifier (ex_world "")
              [1; 2; 3]%positive "2,zz,,web" "id" "name" eq_refl eq_refl)
    as (out & errs & Hrun & Hlen & _).
  by exists out, errs.
Defined.

(** ** IdentifierResolver: decimal numerals *)

Lemma lstrip_digits s : all_digits s = true -> lstrip s = s.
Proof.
  destruct s as [|c s]; [done|]. simpl. intros H.
  apply andb_prop in H as [Hc _]. apply bool_decide_eq_true in Hc.
  destruct c as [b0 b1 b2 b3 b4 b5 b6 b7].
  destruct b0, b1, b2, b3, b4, b5, b6, b7; try reflexivity;
    by destruct Hc as [? Hc]; vm_compute in Hc.
Qed.

Lemma rstrip_digits s : all_digits s = true -> rstrip s = s.
Proof.
  induction s as [|c s IH]; [done|]. simpl. intros H.
  apply andb_prop in H as [Hc Hs]. rewrite (IH Hs).
  destruct s as [|c' s]; [|done].
  apply bool_decide_eq_true in Hc.
  destruct c as [b0 b1 b2 b3 b4 b5 b6 b7].
  destruct b0, b1, b2, b3, b4, b5, b6, b7; try reflexivity;
    by destruct Hc as [? Hc]; vm_compute in Hc.
Qed.

Lemma split_digits s : all_digits s = true -> split ","%char s = [s].
Proof.
  induction s as [|c s IH]; [done|]. simpl. intros H.
  apply andb_prop in H as [Hc Hs]. rewrite (IH Hs).
  apply bool_decide_eq_true in Hc.
  destruct c as [b0 b1 b2 b3 b4 b5 b6 b7].
  destruct b0, b1, b2, b3, b4, b5, b6, b7; try reflexivity;
    by destruct Hc as [? Hc]; vm_compute in Hc.
Qed.

Lemma pretty_char_digit x :
  (x < 10)%N -> digit (pretty_N_char x) = Some (Z.of_N x).
Proof.
  intros Hx.
  assert (x = 0 \/ x = 1 \/ x = 2 \/ x = 3 \/ x = 4 \/ x = 5 \/ x = 6
          \/ x = 7 \/ x = 8 \/ x = 9)%N as H by lia.
  repeat (destruct H as [->|H]; [reflexivity|]). by subst.
Qed.

Lemma pretty_char_not_underscore x :
  (x < 10)%N -> Ascii.eqb (pretty_N_char x) "_"%char = false.
Proof.
  intros Hx.
  assert (x = 0 \/ x = 1 \/ x = 2 \/ x = 3 \/ x = 4 \/ x = 5 \/ x = 6
          \/ x = 7 \/ x = 8 \/ x = 9)%N as H by lia.
  repeat (destruct H as [->|H]; [reflexivity|]). by subst.
Qed.

Lemma pretty_go_length x s :
  (String.length s <= String.length (pretty_N_go x s))%nat.
Proof.
  revert s. induction (N.lt_wf_0 x) as [x _ IH]; intros s.
  destruct (decide (x = 0)%N) as [->|Hx]; [by rewrite pretty_N_go_0|].
  rewrite pretty_N_go_step by lia.
  etrans; [|apply IH, N.div_lt; lia]. simpl. lia.
Qed.

Lemma pretty_go_nonempty x s : (0 < x)%N -> pretty_N_go x s <> "".
Proof.
  intros Hx H. rewrite pretty_N_go_step in H by done.
  pose proof (pretty_go_length (x `div` 10)
                (String (pretty_N_char (x `mod` 10)) s)) as Hlen.
  rewrite H in Hlen. simpl in Hlen. lia.
Qed.

Lemma pretty_go_digits x s :
  all_digits s = true -> all_digits (pretty_N_go x s) = true.
Proof.
  revert s. induction (N.lt_wf_0 x) as [x _ IH]; intros s Hs.
  destruct (decide (x = 0)%N) as [->|Hx]; [by rewrite pretty_N_go_0|].
  rewrite pretty_N_go_step by lia. apply IH.
  - apply N.div_lt; lia.
  - simpl. rewrite Hs, pretty_char_digit by (apply N.mod_lt; lia).
    rewrite bool_decide_eq_true_2 by (by eexists). done.
Qed.

Lemma digits_from_pretty_go x s acc :
  0 <= acc ->
  exists m, 0 < m
    /\ digits_from false acc (pretty_N_go x s)
       = digits_from false (acc * m + Z.of_N x) s.
Proof.
  revert s acc. induction (N.lt_wf_0 x) as [x _ IH]; intros s acc Hacc.
  destruct (decide (x = 0)%N) as [->|Hx].
  { exists 1. rewrite pretty_N_go_0. split; [lia|]. f_equal. lia. }
  rewrite pretty_N_go_step by lia.
  destruct (IH (x `div` 10)%N) with
    (s := String (pretty_N_char (x `mod` 10)) s) (acc := acc)
    as (m & Hm & Hrun); [apply N.div_lt; lia|done|].
  exists (10 * m). split; [lia|]. rewrite Hrun. simpl.
  assert (Hne : Ascii.eqb (pretty_N_char (x `mod` 10)) "_"%char = false).
  { apply pretty_char_not_underscore, N.mod_lt. lia. }
  rewrite Hne, pretty_char_digit by (apply N.mod_lt; lia). f_equal.
  pose proof (N.div_mod x 10 ltac:(lia)) as Hdm.
  rewrite Hdm at 3. rewrite N2Z.inj_add, N2Z.inj_mul. simpl Z.of_N. lia.
Qed.

Lemma unsigned_int_digits s :
  all_digits s = true -> s <> "" -> unsigned_int s = digits_from false 0 s.
Proof.
  destruct s as [|c s]; [done|]. simpl. intros H _.
  apply andb_prop in H as [Hc _]. apply bool_decide_eq_true in Hc as [d Hd].
  rewrite Hd.
  assert (Ascii.eqb c "_"%char = false) as ->; [|done].
  destruct (Ascii.eqb_spec c "_"%char) as [->|]; [|done]. by vm_compute in Hd.
Qed.

Lemma unsigned_int_pretty (x : N) : unsigned_int (pretty x) = Some (Z.of_N x).
Proof.
  unfold pretty, pretty_N. case_decide as Hx; [by subst|].
  rewrite unsigned_int_digits.
  - destruct (digits_from_pretty_go x "" 0 ltac:(lia)) as (m & _ & ->).
    by rewrite Z.mul_0_l, Z.add_0_l.
  - by apply pretty_go_digits.
  - apply pretty_go_nonempty. lia.
Qed.

Lemma all_digits_pretty (x : N) : all_digits (pretty x) = true.
Proof.
  unfold pretty, pretty_N. case_decide; [done|]. by apply pretty_go_digits.
Qed.

Lemma py_int_unsigned s c r :
  strip s = String c r -> c <> "+"%char -> c <> "-"%char ->
  py_int s = unsigned_int (String c r).
Proof.
  unfold py_int. intros -> Hplus Hminus.
  destruct c as [b0 b1 b2 b3 b4 b5 b6 b7].
  destruct b0, b1, b2, b3, b4, b5, b6, b7; try reflexivity; done.
Qed.

Lemma pretty_nonempty (x : N) : pretty x <> "".
Proof.
  unfold pretty, pretty_N. case_decide; [done|]. apply pretty_go_nonempty. lia.
Qed.

(** Printing an integer in decimal and reading it back with [int()] gives
    the same integer. *)
Lemma py_int_pretty (z : Z) : py_int (pretty z) = Some z.
Proof.
  destruct z as [|p|p]; [done| |].
  - change (pretty (Z.pos p)) with (pretty (N.pos p)).
    pose proof (all_digits_pretty (N.pos p)) as Hd.
    pose proof (unsigned_int_pretty (N.pos p)) as Hu.
    pose proof (pretty_nonempty (N.pos p)) as Hne.
    destruct (pretty (N.pos p)) as [|c r] eqn:E; [done|].
    rewrite (py_int_unsigned _ c r); [done| | |].
    + unfold strip. by rewrite (lstrip_digits _ Hd), (rstrip_digits _ Hd).
    + intros ->. by vm_compute in Hd.
    + intros ->. by vm_compute in Hd.
  - change (pretty (Z.neg p)) with (String "-"%char (pretty (N.pos p))).
    pose proof (all_digits_pretty (N.pos p)) as Hd.
    pose proof (pretty_nonempty (N.pos p)) as Hne.
    unfold py_int, strip. cbn [lstrip]. change (py_isspace "-"%char) with false.
    cbn [rstrip]. rewrite (rstrip_digits _ Hd).
    destruct (pretty (N.pos p)) as [|c r] eqn:E; [done|].
    rewrite <- E, unsigned_int_pretty. done.
Qed.

(** For every position of the list, its decimal numeral is one identifier
    that reads back as the position. *)
Lemma tokens_pretty (z : Z) : tokens (pretty z) = [pretty z].
Proof.
  unfold tokens, strip.
  destruct z as [|p|p]; [done| |].
  - change (pretty (Z.pos p)) with (pretty (N.pos p)).
    pose proof (all_digits_pretty (N.pos p)) as Hd.
    rewrite (split_digits _ Hd). simpl.
    by rewrite (lstrip_digits _ Hd), (rstrip_digits _ Hd).
  - change (pretty (Z.neg p)) with (String "-"%char (pretty (N.pos p))).
    pose proof (all_digits_pretty (N.pos p)) as Hd.
    pose proof (pretty_nonempty (N.pos p)) as Hne.
    cbn [split]. change (Ascii.eqb "-"%char ","%char) with false. cbv iota.
    rewrite (split_digits _ Hd). cbn [map lstrip].
    change (py_isspace "-"%char) with false. cbv iota. cbn [rstrip].
    rewrite (rstrip_digits _ Hd).
    by destruct (pretty (N.pos p)).
Qed.



(** ** CloudAggregator: one record per provider, and the timing *)

Lemma for_fold_rule_w {A S} (I : list A -> S -> world -> Prop)
    (body : S -> A -> M S) l s w :
  I [] s w ->
  (forall pre x post s w,
      l = pre ++ x :: post -> I pre s w ->
      exists s' w', body s x w = (Ok s', w') /\ I (pre ++ [x]) s' w') ->
  exists s' w', for_fold body l s w = (Ok s', w') /\ I l s' w'.
Proof.
  intros H0 Hstep.
  assert (Hgen : forall post pre s w,
    l = pre ++ post -> I pre s w ->
    exists s' w', for_fold body post s w = (Ok s', w')
                  /\ I (pre ++ post) s' w').
  { induction post as [|x post IH]; intros pre s0 w0 Hl Hpre.
    - exists s0, w0. by rewrite app_nil_r.
    - destruct (Hstep pre x post s0 w0 Hl Hpre) as (s1 & w1 & Hx & H1).
      destruct (IH (pre ++ [x]) s1 w1) as (s2 & w2 & Hrest & H2).
      { by rewrite <- app_assoc. }
      { done. }
      exists s2, w2. simpl. rewrite (bind_Ok _ _ _ _ _ Hx).
      split; [done|]. by rewrite <- app_assoc in H2. }
  by apply (Hgen l [] s w).
Qed.

Section AggregatorTiming.

Context {A : Type}.

Lemma submit_loop_timed (funcs : list (string * (unit -> result (list A))))
    stats futures w :
  exists stats' w',
    for_fold submit_cloud funcs (stats, futures) w
    = (Ok (stats', futures ++ (future_of <$> funcs)), w')
    /\ w_clock w' = w_clock w
    /\ w_ticks w' = (w_ticks w + length funcs)%nat
    /\ dom stats' = dom stats ∪ list_to_set funcs.*1
    /\ forall name,
         (name ∈ funcs.*1 ->
          exists j, (w_ticks w <= j < w_ticks w + length funcs)%nat
                    /\ stats' !! name = Some (started (w_clock w j)))
         /\ (name ∉ funcs.*1 -> stats' !! name = stats !! name).
Proof.
  revert stats futures w.
  induction funcs as [|[n f] funcs IH]; intros stats futures w.
  - exists stats, w. simpl. rewrite app_nil_r, Nat.add_0_r.
    repeat split; try done; [|by inversion 1].
    by rewrite (right_id_L ∅ (∪)).
  - destruct (IH (<[n := started (w_clock w (w_ticks w))]> stats)
                (futures ++ [(n, f tt)]) (set_ticks w (S (w_ticks w))))
      as (stats' & w' & Hrun & Hclock & Hticks & Hdom & Hstats).
    exists stats', w'. split.
    { simpl. unfold bind at 1, submit_cloud at 1, bind at 1, now, ret. simpl.
      rewrite Hrun. by rewrite <- app_assoc. }
    split; [done|]. split; [simpl in *; lia|]. split.
    { rewrite Hdom, dom_insert_L. csimpl.
      by rewrite (comm_L (∪) {[n]}), (assoc_L (∪)). }
    intros name. destruct (Hstats name) as [Hin Hout]. split.
    + intros Hname. destruct (decide (name ∈ funcs.*1)) as [Hi|Hni].
      { destruct (Hin Hi) as (j & Hj & Hr). exists j. simpl in *.
        split; [lia|done]. }
      rewrite Hout by done. csimpl in Hname.
      apply elem_of_cons in Hname as [->|Hname]; [|done].
      rewrite lookup_insert_eq. exists (w_ticks w). simpl. split; [lia|done].
    + intros Hname. csimpl in Hname.
      apply not_elem_of_cons in Hname as [Hne Hni].
      rewrite Hout by done. by rewrite lookup_insert_ne.
Qed.

Lemma timed_record_later clock lo mid hi hi' r :
  (hi <= hi')%nat -> timed_record clock lo mid hi r ->
  timed_record clock lo mid hi' r.
Proof.
  intros Hle (j & j' & Hj & Hj' & Hrest). exists j, j'.
  split; [done|]. split; [lia|done].
Qed.

Lemma collect_cloud_timed clock k0 k1 names D
    (pre : list (string * result (list A)))
    (x : string * result (list A)) st w :
  x.1 ∈ names -> x.1 ∉ pre.*1 -> "all" ∉ names ->
  collecting_timed clock k0 k1 names D pre st w ->
  exists st' w', collect_cloud st x w = (Ok st', w')
                 /\ collecting_timed clock k0 k1 names D (pre ++ [x]) st' w'.
Proof.
  intros Hx Hfresh Hall (Hclock & Hticks & Hdom & Hagg & Hstats).
  destruct x as [nx rx]. simpl in *.
  destruct (Hstats nx Hx) as [_ Hrunning].
  destruct (Hrunning Hfresh) as (j & Hj & Ht).
  assert (Hnx : nx <> "all") by (by intros ->).
  unfold collect_cloud, bind, now, start_of, ret. simpl. rewrite Ht. simpl.
  rewrite Hclock, Hticks.
  set (e := clock (k1 + length pre)%nat).
  assert (Hinv : forall all' upd,
    (forall r, start_time (upd r) = start_time r) ->
    end_time (upd (started (clock j))) = Some e ->
    duration (upd (started (clock j))) = Some (e - clock j) ->
    collecting_timed clock k0 k1 names D (pre ++ [(nx, rx)])
      (all', alter upd nx st.2)
      (set_ticks w (S (k1 + length pre)))).
  { intros all' upd Hstart Hend Hdur. unfold collecting_timed. simpl.
    rewrite length_app. simpl.
    split; [done|]. split; [lia|]. split; [by rewrite dom_alter_L|].
    split; [by rewrite lookup_alter_ne|].
    intros name Hname. destruct (decide (name = nx)) as [->|Hne].
    - split.
      + intros _. rewrite lookup_alter_eq, Ht. simpl. eexists. split; [done|].
        exists j, (k1 + length pre)%nat.
        rewrite Hstart. repeat split; try done; lia.
      + intros Hn. destruct Hn. rewrite fmap_app. apply elem_of_app.
        right. by left.
    - rewrite lookup_alter_ne by done.
      destruct (Hstats name Hname) as [Hdone Hrun]. split.
      + intros Hin. rewrite fmap_app in Hin.
        apply elem_of_app in Hin as [Hin|Hin].
        * destruct (Hdone Hin) as (r & Hr & Htimed). exists r.
          split; [done|]. eapply timed_record_later; [|exact Htimed]. lia.
        * apply list_elem_of_singleton in Hin. by destruct Hne.
      + intros Hn. apply Hrun. intros Hin. apply Hn. rewrite fmap_app.
        apply elem_of_app. by left. }
  destruct rx as [res|err]; eexists _, _; (split; [reflexivity|]);
    by apply Hinv.
Qed.

(** X6: one record per provider, and the timing.  For a mapping with
    distinct provider names none of which is ["all"], a pool with at least
    one worker and a clock that never goes back, the aggregator returns
    with stats under exactly the provider names and ["all"], after reading
    the clock twice per provider and twice for the aggregate.  Every
    provider's duration is its end reading minus its start reading, is not
    negative, and is at most the aggregate duration; the aggregate starts
    no later and ends no earlier than every provider. *)
Theorem aggregator_timing (funcs : list (string * (unit -> result (list A))))
    max_workers order w :
  0 < max_workers ->
  NoDup funcs.*1 ->
  "all" ∉ funcs.*1 ->
  order ≡ₚ seq 0 (length funcs) ->
  monotone (w_clock w) ->
  exists d w',
    discover_across_clouds funcs max_workers order w = (Ok d, w')
    /\ dom (stats d) = {["all"]} ∪ list_to_set funcs.*1
    /\ w_ticks w' = (w_ticks w + 2 * length funcs + 2)%nat
    /\ exists ra sa ea,
         stats d !! "all" = Some ra
         /\ start_time ra = Some sa /\ end_time ra = Some ea
         /\ duration ra = Some (ea - sa)
         /\ forall name, name ∈ funcs.*1 ->
              exists r sp ep,
                stats d !! name = Some r
                /\ start_time r = Some sp /\ end_time r = Some ep
                /\ duration r = Some (ep - sp)
                /\ sa <= sp /\ sp <= ep /\ ep <= ea.
Proof.
  intros Hmw Hnd Hall Hperm Hmono.
  set (clock := w_clock w). set (k0 := w_ticks w).
  set (w0 := set_ticks w (S k0)).
  destruct (submit_loop_timed funcs {[ "all" := started (clock k0) ]} [] w0)
    as (stats1 & w1 & Hsub & Hclock1 & Hticks1 & Hdom1 & Hstats1).
  simpl in Hsub, Hclock1, Hticks1. fold clock in Hclock1.
  set (futures := future_of <$> funcs) in *.
  set (names := funcs.*1) in *.
  set (k1 := (S k0 + length funcs)%nat) in *.
  set (D := ({["all"]} ∪ list_to_set names : gset string)).
  set (cs := as_completed futures order).
  assert (Hcs : cs ≡ₚ futures).
  { apply as_completed_perm. unfold futures. by rewrite length_fmap. }
  assert (Hfn : futures.*1 = names).
  { unfold futures, names. rewrite <- list_fmap_compose.
    by apply list_fmap_ext. }
  assert (Hnd' : NoDup cs.*1) by (by rewrite Hcs, Hfn).
  assert (Hlen : length cs = length funcs).
  { rewrite Hcs. unfold futures. by rewrite length_fmap. }
  destruct (for_fold_rule_w (collecting_timed clock k0 k1 names D)
              collect_cloud cs ([], stats1) w1)
    as (st2 & w2 & Hloop & Hclock2 & Hticks2 & Hdom2 & Hagg2 & Hstats2).
  { split; [done|]. split; [simpl; lia|]. split.
    { simpl. by rewrite Hdom1, dom_singleton_L. }
    split.
    { simpl. destruct (Hstats1 "all") as [_ Hout]. rewrite Hout by done.
      by rewrite lookup_singleton_eq. }
    intros name Hname. split; [by inversion 1|]. intros _.
    destruct (Hstats1 name) as [Hin _]. destruct (Hin Hname) as (j & Hj & Hr).
    exists j. split; [simpl in Hj; lia|done]. }
  { intros pre x post st w' Hl Hpre.
    apply (collect_cloud_timed clock k0 k1 names D); [| |done|done].
    - rewrite <- Hfn. apply list_elem_of_fmap_2.
      rewrite <- Hcs, Hl. apply elem_of_app. right. by left.
    - rewrite Hl, fmap_app, fmap_cons in Hnd'.
      apply NoDup_app in Hnd' as (_ & Hdisj & _). intros Hin.
      apply (Hdisj _ Hin). by left. }
  set (e := clock (k1 + length cs)%nat).
  eexists _, _. split.
  { unfold discover_across_clouds.
    unfold bind at 1, now at 1. fold clock k0 w0.
    unfold thread_pool. destruct (Z.leb_spec max_workers 0); [lia|].
    unfold bind at 1, ret at 1.
    rewrite (bind_Ok _ _ _ _ _ Hsub). simpl fst. simpl snd. fold cs.
    rewrite (bind_Ok _ _ _ _ _ Hloop).
    unfold bind at 1, now at 1. rewrite Hclock2, Hticks2. fold e.
    unfold bind, start_of, ret. rewrite Hagg2. simpl. reflexivity. }
  simpl. split; [by rewrite dom_alter_L|]. split; [lia|].
  exists (update_done e (e - clock k0) (length st2.1) "success"
            (started (clock k0))), (clock k0), e.
  split; [by rewrite lookup_alter_eq, Hagg2|].
  split; [done|]. split; [done|]. split; [done|].
  intros name Hname. rewrite lookup_alter_ne by (by intros <-).
  destruct (Hstats2 name Hname) as [Hdone _].
  destruct Hdone as (r & Hr & j & j' & Hj & Hj' & Hs & He & Hd).
  { rewrite Hcs, Hfn. exact Hname. }
  exists r, (clock j), (clock j'). repeat split; try done.
  - apply Hmono. lia.
  - apply Hmono. lia.
  - apply Hmono. lia.
Qed.

End AggregatorTiming.

Lemma aggregator_timing_witness :
  exists d,
    (discover_across_clouds ex_clouds 3 [2; 0; 1]%nat (ex_world "")).1 = Ok d
    /\ (duration <$> stats d !! "all") = Some (Some 7)
    /\ (duration <$> stats d !! "gcp") = Some (Some 1).
Proof.
  destruct (aggregator_timing ex_clouds 3 [2; 0; 1]%nat (ex_world ""))
    as (d & w' & Hrun & _).
  - lia.
  - compute_done.
  - compute_done.
  - vm_compute. solve_Permutation.
  - intros i j Hij. simpl. lia.
  - exists d. split; [by rewrite Hrun|].
    rewrite (surjective_pairing (discover_across_clouds _ _ _ _)) in Hrun.
    injection Hrun as Hd _. rewrite <- Hd. split; vm_compute; reflexivity.
Defined.

(** ** [truncate_account_name] *)

Lemma str_take_length n s :
  String.length (str_take n s) = Nat.min n (String.length s).
Proof.
  revert s. induction n as [|n IH]; intros [|c s]; simpl; try done.
  by rewrite IH.
Qed.

Lemma str_drop_length n s :
  String.length (str_drop n s) = (String.length s - n)%nat.
Proof.
  revert s. induction n as [|n IH]; intros [|c s]; simpl; try done.
Qed.

Lemma str_drop_add n m s : str_drop (n + m) s = str_drop m (str_drop n s).
Proof.
  revert s. induction n as [|n IH]; intros s; [done|].
  destruct s as [|c s]; simpl; [by destruct m|]. apply IH.
Qed.

Lemma str_app_length s t :
  String.length (s +:+ t) = (String.length s + String.length t)%nat.
Proof. induction s as [|c s IH]; simpl; [done|]. by rewrite IH. Qed.

Lemma str_take_app s t n :
  n = String.length s -> str_take n (s +:+ t) = s.
Proof.
  intros ->. induction s as [|c s IH]; simpl; [by destruct t|].
  by rewrite IH.
Qed.

Lemma str_drop_app s t n :
  n = String.length s -> str_drop n (s +:+ t) = t.
Proof. intros ->. induction s as [|c s IH]; simpl; [done|]. exact IH. Qed.

(** X7: the shortened account name.  [truncate_account_name] never returns
    more than 20 characters; a name of at most 20 characters is returned as
    it is; a longer one becomes exactly 20 characters, its first 10, three
    dots and its last 7; and shortening twice is shortening once. *)
Theorem truncate_account_name_fits (s : string) :
  (String.length (truncate_account_name s) <= 20)%nat
  /\ ((String.length s <= 20)%nat -> truncate_account_name s = s)
  /\ ((20 < String.length s)%nat ->
      String.length (truncate_account_name s) = 20%nat
      /\ str_take 10 (truncate_account_name s) = str_take 10 s
      /\ str_take 3 (str_drop 10 (truncate_account_name s)) = "..."
      /\ str_last 7 (truncate_account_name s) = str_last 7 s)
  /\ truncate_account_name (truncate_account_name s)
     = truncate_account_name s.
Proof.
  assert (Hlong : (20 < String.length s)%nat ->
    String.length (truncate_account_name s) = 20%nat
    /\ str_take 10 (truncate_account_name s) = str_take 10 s
    /\ str_take 3 (str_drop 10 (truncate_account_name s)) = "..."
    /\ str_last 7 (truncate_account_name s) = str_last 7 s).
  { intros Hlen. unfold truncate_account_name.
    destruct (Nat.ltb_spec 20 (String.length s)); [|lia].
    assert (H10 : String.length (str_take 10 s) = 10%nat).
    { rewrite str_take_length. lia. }
    assert (H7 : String.length (str_last 7 s) = 7%nat).
    { unfold str_last. rewrite str_drop_length. lia. }
    split; [|split; [|split]].
    - rewrite !str_app_length, H10, H7. simpl. lia.
    - by rewrite str_take_app.
    - rewrite str_drop_app by done. by rewrite str_take_app.
    - unfold str_last at 1. rewrite !str_app_length, H10, H7.
      change (10 + (String.length "..." + 7) - 7)%nat with 13%nat.
      change 13%nat with (10 + 3)%nat. rewrite str_drop_add.
      rewrite (str_drop_app (str_take 10 s)) by done.
      by rewrite (str_drop_app "..."). }
  assert (Hshort : (String.length s <= 20)%nat -> truncate_account_name s = s).
  { intros Hlen. unfold truncate_account_name.
    by destruct (Nat.ltb_spec 20 (String.length s)); [lia|]. }
  assert (Hfit : (String.length (truncate_account_name s) <= 20)%nat).
  { destruct (decide (20 < String.length s)%nat) as [Hl|Hl].
    - destruct (Hlong Hl) as [-> _]. lia.
    - rewrite Hshort; lia. }
  split; [done|]. split; [done|]. split; [done|].
  unfold truncate_account_name at 1.
  by destruct (Nat.ltb_spec 20 (String.length (truncate_account_name s)));
    [lia|].
Qed.

(** ** [normalize_tags] *)

Lemma lower_char_idem c : lower_char (lower_char c) = lower_char c.
Proof.
  destruct c as [b0 b1 b2 b3 b4 b5 b6 b7].
  destruct b0, b1, b2, b3, b4, b5, b6, b7; reflexivity.
Qed.

Lemma py_lower_idem s : py_lower (py_lower s) = py_lower s.
Proof.
  induction s as [|c s IH]; [done|]. simpl. by rewrite lower_char_idem, IH.
Qed.

Lemma dict_set_keys k v d :
  (dict_set k v d).*1 = if decide (k ∈ d.*1) then d.*1 else d.*1 ++ [k].
Proof.
  induction d as [|[k' v'] d IH].
  - destruct (decide (k ∈ ([] : pydict).*1)) as [H|H]; [by inversion H|done].
  - cbn [dict_set].
    destruct (decide (k ∈ ((k', v') :: d).*1)) as [H|H];
      destruct (String.eqb_spec k' k) as [->|Hne]; csimpl in *.
    + reflexivity.
    + apply elem_of_cons in H as [->|H]; [done|].
      by rewrite IH, decide_True.
    + destruct H. by left.
    + apply not_elem_of_cons in H as [_ H]. by rewrite IH, decide_False.
Qed.

Lemma dict_set_NoDup k v d : NoDup d.*1 -> NoDup (dict_set k v d).*1.
Proof.
  intros Hnd. rewrite dict_set_keys. case_decide as Hin; [done|].
  apply NoDup_app. split; [done|]. split; [|apply NoDup_singleton].
  intros x Hx Hx'. apply list_elem_of_singleton in Hx' as ->. done.
Qed.

Lemma dict_set_lower k v d :
  py_lower k = k -> lower_keys d -> lower_keys (dict_set k v d).
Proof.
  intros Hk. unfold lower_keys. induction d as [|[k' v'] d IH]; simpl.
  - intros _. by apply Forall_singleton.
  - intros Hd. apply Forall_cons in Hd as [Hk' Hd].
    destruct (String.eqb k' k); apply Forall_cons; split; auto.
Qed.

Lemma dict_get_set k v d k' :
  dict_get k' (dict_set k v d) = if String.eqb k k' then Some v else dict_get k' d.
Proof.
  induction d as [|[k0 v0] d IH]; simpl.
  - done.
  - destruct (String.eqb_spec k0 k) as [->|Hne]; simpl.
    + by destruct (String.eqb k k').
    + rewrite IH. destruct (String.eqb_spec k k') as [->|Hne'].
      * by destruct (String.eqb_spec k0 k').
      * done.
Qed.

Lemma dict_set_fresh k v d : k ∉ d.*1 -> dict_set k v d = d ++ [(k, v)].
Proof.
  induction d as [|[k' v'] d IH]; simpl; [done|]. intros Hk.
  apply not_elem_of_cons in Hk as [Hne Hk].
  destruct (String.eqb_spec k' k) as [->|_]; [done|]. by rewrite IH.
Qed.

Lemma dict_tags_inv d acc :
  lower_keys acc -> NoDup acc.*1 ->
  lower_keys (dict_tags d acc) /\ NoDup (dict_tags d acc).*1.
Proof.
  unfold dict_tags. revert acc. induction d as [|[k v] d IH]; intros acc Hl Hn.
  - done.
  - simpl. apply IH.
    + apply dict_set_lower; [apply py_lower_idem|done].
    + by apply dict_set_NoDup.
Qed.

Lemma dict_tags_get d acc k :
  dict_get k (dict_tags d acc)
  = match last_lowered k d with
    | Some x => Some x
    | None => dict_get k acc
    end.
Proof.
  unfold dict_tags. revert acc. induction d as [|[k' v] d IH]; intros acc.
  - done.
  - simpl. rewrite IH. destruct (last_lowered k d); [done|].
    rewrite dict_get_set. by destruct (String.eqb (py_lower k') k).
Qed.

Lemma dict_tags_same d acc :
  lower_keys d -> NoDup (acc ++ d).*1 -> dict_tags d acc = acc ++ d.
Proof.
  unfold dict_tags. revert acc. induction d as [|[k v] d IH]; intros acc Hl Hn.
  - by rewrite app_nil_r.
  - apply Forall_cons in Hl as [Hk Hl]. simpl in *. rewrite Hk.
    rewrite dict_set_fresh.
    + rewrite IH; [by rewrite <- app_assoc|done|by rewrite <- app_assoc].
    + rewrite fmap_app in Hn. apply NoDup_app in Hn as (_ & Hdisj & _).
      intros Hin. apply (Hdisj _ Hin). by left.
Qed.

Lemma aws_tags_inv l acc out :
  aws_tags l acc = Ok out ->
  lower_keys acc -> NoDup acc.*1 -> lower_keys out /\ NoDup out.*1.
Proof.
  revert acc. induction l as [|tag l IH]; intros acc; simpl.
  - by intros [= <-].
  - destruct (aws_tag_step acc tag) as [acc'|e] eqn:Hstep; [|done].
    intros Hrun Hl Hn. apply (IH acc' Hrun).
    + unfold aws_tag_step in Hstep. repeat case_match; simplify_eq; try done.
      apply dict_set_lower; [apply py_lower_idem|done].
    + unfold aws_tag_step in Hstep. repeat case_match; simplify_eq; try done.
      by apply dict_set_NoDup.
Qed.

(** X8: normalised tags.  Whatever [normalize_tags] returns has its keys in
    lower case and no key twice, and normalising it again changes nothing.
    A dict of tags is always normalised without an exception, and under a
    lower-case key it holds the value of the last input entry whose key has
    that lower-case form; a false input ([None], an empty list or dict)
    gives the empty dict. *)
Theorem normalize_tags_lowercases :
  (forall tags_input out,
      normalize_tags tags_input = Ok out ->
      lower_keys out /\ NoDup out.*1 /\ normalize_tags (VDict out) = Ok out)
  /\ (forall d, exists out,
        normalize_tags (VDict d) = Ok out
        /\ forall k, dict_get k out = last_lowered k d)
  /\ (forall tags_input,
        truthy tags_input = false -> normalize_tags tags_input = Ok []).
Proof.
  assert (Hagain : forall out,
    lower_keys out -> NoDup out.*1 -> normalize_tags (VDict out) = Ok out).
  { intros out Hl Hn. unfold normalize_tags.
    destruct out as [|kv rest] eqn:E; [done|]. rewrite <- E in *.
    assert (truthy (VDict out) = true) as -> by (by rewrite E).
    by rewrite (dict_tags_same out []). }
  split; [|split].
  - intros tags_input out Hrun.
    assert (Hinv : lower_keys out /\ NoDup out.*1).
    { unfold normalize_tags in Hrun.
      destruct (truthy tags_input).
      - destruct tags_input; simplify_eq;
          try (split; [by apply Forall_nil|by apply NoDup_nil]).
        + eapply aws_tags_inv; [exact Hrun|by apply Forall_nil|by apply NoDup_nil].
        + apply dict_tags_inv; [by apply Forall_nil|by apply NoDup_nil].
      - simplify_eq. split; [by apply Forall_nil|by apply NoDup_nil]. }
    destruct Hinv as [Hl Hn]. split; [done|]. split; [done|].
    by apply Hagain.
  - intros d. exists (dict_tags d []). split.
    + unfold normalize_tags. by destruct d.
    + intros k. rewrite dict_tags_get. simpl.
      by destruct (last_lowered k d).
  - intros tags_input Hf. unfold normalize_tags. by rewrite Hf.
Qed.

Example normalize_tags_aws_list :
  normalize_tags
    (VList [ VDict [("Key", VStr "Name"); ("Value", VStr "web-1")];
             VDict [("Key", VStr "Env"); ("Value", VStr "prod")];
             VStr "stray";
             VDict [("Key", VStr "NAME"); ("Value", VStr "web-2")] ])
  = Ok [("name", VStr "web-2"); ("env", VStr "prod")].
Proof. reflexivity. Qed.

(** ** Identifiers from a file *)

Lemma lstrip_head s :
  lstrip s = "" \/ exists c r, lstrip s = String c r /\ py_isspace c = false.
Proof.
  induction s as [|c s IH]; simpl; [by left|].
  destruct (py_isspace c) eqn:Hc; [exact IH|]. right. by exists c, s.
Qed.

Lemma rstrip_head c r :
  py_isspace c = false -> exists r', rstrip (String c r) = String c r'.
Proof.
  intros Hc. simpl. rewrite Hc. destruct (rstrip r); by eauto.
Qed.

Lemma rstrip_idem s : rstrip (rstrip s) = rstrip s.
Proof.
  induction s as [|c s IH]; [done|]. simpl.
  destruct (rstrip s) as [|d x] eqn:Hx.
  - destruct (py_isspace c) eqn:Hc; [done|]. simpl. by rewrite Hc.
  - change (rstrip (String c (String d x))) with
      (match rstrip (String d x) with
       | EmptyString =>
           if py_isspace c then EmptyString else String c EmptyString
       | r' => String c r'
       end).
    by rewrite IH.
Qed.

(** Stripping twice is stripping once. *)
Lemma strip_idem s : strip (strip s) = strip s.
Proof.
  unfold strip. destruct (lstrip_head s) as [->|(c & r & -> & Hc)]; [done|].
  destruct (rstrip_head c r Hc) as [r' Hr]. rewrite Hr.
  simpl lstrip. rewrite Hc. by rewrite <- Hr, rstrip_idem.
Qed.

Lemma split_no_comma s : commas s = 0%nat -> split ","%char s = [s].
Proof.
  induction s as [|c s IH]; [done|]. simpl.
  destruct (Ascii.eqb c ","%char); [done|]. intros H. by rewrite IH.
Qed.

Lemma commas_lstrip s : commas s = 0%nat -> commas (lstrip s) = 0%nat.
Proof.
  induction s as [|c s IH]; [done|]. simpl.
  destruct (Ascii.eqb c ","%char) eqn:Hc; [done|]. intros H.
  destruct (py_isspace c); [by apply IH|]. simpl. by rewrite Hc.
Qed.

Lemma tokens_join l ls :
  tokens (join "," (l :: ls)) = (l :: ls) ≫= tokens.
Proof.
  revert l. induction ls as [|l' ls IH]; intros l.
  - csimpl. by rewrite app_nil_r.
  - change (join "," (l :: l' :: ls)) with (l +:+ "," +:+ join "," (l' :: ls)).
    rewrite tokens_app, IH. done.
Qed.

Lemma nonblank_lines_stripped content :
  Forall (fun l => strip l = l /\ l <> "") (nonblank_lines content).
Proof.
  unfold nonblank_lines. apply Forall_forall. intros l Hl.
  apply list_elem_of_In, List.filter_In in Hl as [Hin Hne].
  apply list_elem_of_In, list_elem_of_fmap in Hin as (x & -> & _).
  split; [apply strip_idem|].
  intros H. rewrite H in Hne. done.
Qed.

(** The lines that [splitlines] returns make up the text. *)
Lemma splitlines_concat s : fold_right append "" (splitlines s) = s.
Proof.
  remember (String.length s) as n eqn:Hn.
  revert s Hn. induction n as [n IH] using lt_wf_ind. intros s ->.
  destruct s as [|c r]; [done|].
  assert (Hr : fold_right append "" (splitlines r) = r).
  { eapply IH; [|done]. simpl. lia. }
  destruct r as [|d r'].
  - simpl. by destruct (is_linebreak c).
  - assert (Hr' : fold_right append "" (splitlines r') = r').
    { eapply IH; [|done]. simpl. lia. }
    change (splitlines (String c (String d r'))) with
      (if is_linebreak c then
         if Ascii.eqb c "013" && Ascii.eqb d "010"
         then String c (String d "") :: splitlines r'
         else String c "" :: splitlines (String d r')
       else match splitlines (String d r') with
            | l :: ls => String c l :: ls
            | [] => [String c ""]
            end).
    destruct (is_linebreak c).
    + destruct (Ascii.eqb c "013" && Ascii.eqb d "010").
      * cbn [fold_right]. by rewrite Hr'.
      * cbn [fold_right]. by rewrite Hr.
    + destruct (splitlines (String d r')) as [|l ls];
        cbn [fold_right] in *; by rewrite <- Hr.
Qed.

(** X9: identifiers from a file.  For [@path] naming a readable file with at
    least one line that is not blank, [process_identifiers_input] returns,
    logs one line with the number of such lines, and leaves the world of
    the core alone; the expression it returns has, as identifiers, those of
    the stripped non-blank lines in file order.  When no line contains a
    comma, the identifiers are exactly the stripped non-blank lines. *)
Theorem identifiers_from_file expanduser fs rest path content s :
  strip rest <> "" ->
  expanduser (strip rest) = Ok path ->
  fs path = Text content ->
  nonblank_lines content <> [] ->
  exists result,
    process_identifiers_input expanduser fs (String "@" rest) s
    = (Done result,
       XState (x_world s)
         (x_out s ++ [LoadedIdentifiers (length (nonblank_lines content)) path]))
    /\ tokens result = nonblank_lines content ≫= tokens
    /\ (Forall (fun l => commas l = 0%nat) (nonblank_lines content) ->
        tokens result = nonblank_lines content).
Proof.
  intros Hrest Hpath Hfile Hlines.
  exists (join "," (nonblank_lines content)).
  assert (Htok : tokens (join "," (nonblank_lines content))
                 = nonblank_lines content ≫= tokens).
  { destruct (nonblank_lines content) as [|l ls]; [done|]. apply tokens_join. }
  split; [|split; [exact Htok|]].
  - unfold process_identifiers_input.
    destruct (String.eqb_spec (strip rest) "") as [H|_]; [done|].
    rewrite Hpath, Hfile.
    destruct (nonblank_lines content) as [|l ls] eqn:Hl; [done|]. done.
  - intros Hfree. rewrite Htok.
    pose proof (nonblank_lines_stripped content) as Hstr.
    clear Htok Hlines.
    induction (nonblank_lines content) as [|l ls IH]; [done|].
    apply Forall_cons in Hfree as [Hl Hfree].
    apply Forall_cons in Hstr as [[Hs _] Hstr].
    csimpl. rewrite IH by done.
    unfold tokens. rewrite (split_no_comma l Hl). simpl. by rewrite Hs.
Qed.

Lemma identifiers_from_file_witness :
  exists result,
    process_identifiers_input ex_expanduser ex_fs "@ ids.txt " ex_state
    = (Done result,
       XState (ex_world "") [LoadedIdentifiers 3 "ids.txt"])
    /\ tokens result = ["i-1"; "web 1"; "i-2"].
Proof.
  destruct (identifiers_from_file ex_expanduser ex_fs " ids.txt " "ids.txt"
              "i-1
  web 1  

i-2" ex_state) as (result & Hrun & _ & Htok);
    [by vm_compute|reflexivity|reflexivity|by vm_compute|].
  exists result. split; [exact Hrun|]. apply Htok.
  vm_compute. repeat constructor.
Defined.

(** X10: how [process_identifiers_input] ends.  The function never touches
    the world of the core.  It returns either its argument, having logged
    nothing (no leading [@]), or after exactly one line that is not an
    error; it leaves through [sys.exit(1)] after exactly one error line;
    and it fails with an exception, having logged nothing, only when the
    home directory cannot be expanded or the file cannot be reached. *)
Theorem identifiers_input_returns_or_exits expanduser fs identifiers s :
  exists o out,
    process_identifiers_input expanduser fs identifiers s
    = (o, XState (x_world s) (x_out s ++ out))
    /\ match o with
       | Done r =>
           (out = [] /\ r = identifiers)
           \/ (exists l, out = [l] /\ is_xerror l = false)
       | Exited c => c = 1 /\ exists l, out = [l] /\ is_xerror l = true
       | Failed e =>
           out = []
           /\ exists rest,
                identifiers = String "@" rest
                /\ (expanduser (strip rest) = Raise e
                    \/ exists path, expanduser (strip rest) = Ok path
                                    /\ fs path = Unreachable e)
       end.
Proof.
  unfold process_identifiers_input.
  assert (Hsame : exists o out,
    xret identifiers s = (o, XState (x_world s) (x_out s ++ out))
    /\ match o with
       | Done r =>
           (out = [] /\ r = identifiers)
           \/ (exists l, out = [l] /\ is_xerror l = false)
       | Exited c => c = 1 /\ exists l, out = [l] /\ is_xerror l = true
       | Failed e =>
           out = []
           /\ exists rest,
                identifiers = String "@" rest
                /\ (expanduser (strip rest) = Raise e
                    \/ exists path, expanduser (strip rest) = Ok path
                                    /\ fs path = Unreachable e)
       end).
  { exists (Done identifiers), []. rewrite app_nil_r. destruct s.
    split; [done|]. by left. }
  destruct identifiers as [|c rest]; [exact Hsame|].
  destruct (Ascii.eqb_spec c "@") as [->|Hc].
  2:{ destruct c as [[] [] [] [] [] [] [] []]; try exact Hsame. done. }
  clear Hsame.
  destruct (String.eqb (strip rest) "").
  { exists (Exited 1), [NoPathAfterAt]. split; [done|]. split; [done|eauto]. }
  destruct (expanduser (strip rest)) as [q|e] eqn:Hhome.
  2:{ exists (Failed e), []. rewrite app_nil_r. destruct s.
      split; [done|]. split; [done|]. exists rest. split; [done|]. by left. }
  destruct (fs q) as [e| |e|content] eqn:Hq.
  - exists (Failed e), []. rewrite app_nil_r. destruct s.
    split; [done|]. split; [done|]. exists rest. split; [done|]. right.
    by exists q.
  - exists (Exited 1), [FileNotFound q]. split; [done|]. split; [done|eauto].
  - exists (Exited 1), [ReadFailed q e]. split; [done|]. split; [done|eauto].
  - destruct (nonblank_lines content) as [|l ls].
    + exists (Exited 1), [NoIdentifiersInFile q].
      split; [done|]. split; [done|eauto].
    + eexists (Done _), [_]. split; [done|]. right. eauto.
Qed.

Lemma identifiers_input_returns_or_exits_witness :
  exists o out,
    process_identifiers_input ex_expanduser ex_fs "@none.txt" ex_state
    = (o, XState (ex_world "") out)
    /\ o = Exited 1 /\ out = [FileNotFound "none.txt"].
Proof.
  destruct (identifiers_input_returns_or_exits ex_expanduser ex_fs
              "@none.txt" ex_state) as (o & out & Hrun & _).
  exists o, out. split; [exact Hrun|].
  vm_compute in Hrun. by injection Hrun as <- <-.
Defined.

(** ** The scripts: calls of the core *)

Lemma core_run {A} (m : M A) s a w' evs :
  m (x_world s) = (Ok a, w') ->
  w_log w' = w_log (x_world s) ++ evs ->
  core m s = (Done a, XState w' (x_out s ++ (Core <$> evs))).
Proof.
  intros Hm Hlog. unfold core. rewrite Hm, Hlog.
  by rewrite drop_app_length.
Qed.

(** ** [csp/vm.py]: which handler gets which item *)

Lemma by_cloud_lookup {V} (a b c : V) key :
  is_Some (by_cloud a b c !! key) <-> key ∈ providers.
Proof.
  unfold by_cloud, providers.
  rewrite !lookup_insert_is_Some, lookup_empty, !elem_of_cons, elem_of_nil.
  split.
  - intros [->|[_ [->|[_ [->|[_ [? ?]]]]]]]; [by eauto..|done].
  - intros [->|[->|[->|[]]]].
    + right. split; [done|]. right. split; [done|]. by left.
    + right. split; [done|]. by left.
    + by left.
Qed.

(** A run with confirmation, whatever the key read at the prompt: it
    returns, and the handlers are called exactly when the list is not empty
    and the key is [y] or [Y]. *)
Lemma execute_items_asked items ops descr max_workers order w :
  tags_ok (w_heap w) items = true ->
  0 < max_workers ->
  exists r w' evs,
    execute_items_operation items ops descr true max_workers order w
    = (Ok r, w')
    /\ w_log w' = w_log w ++ evs
    /\ w_heap w' = w_heap w
    /\ w_calls w'
       = w_calls w ++ (if bool_decide (items <> []) && accepts (w_stdin w)
                       then calls_of (w_heap w) ops items else []).
Proof.
  intros Htags Hmw. destruct (decide (items = [])) as [->|Hne].
  { exists None, (logged w [LogInfo NoItems]), [LogInfo NoItems].
    split; [reflexivity|]. rewrite bool_decide_eq_false_2 by (by intros H).
    cbn. by rewrite app_nil_r. }
  rewrite (bool_decide_eq_true_2 _ Hne). cbn [andb].
  pose proof (confirm_action_run items
                (descr +:+ " " +:+ pretty (length items) +:+ " item(s)") w
                Htags Hne) as Hconf.
  destruct (accepts (w_stdin w)) eqn:Hacc.
  - destruct (execute_items_run items ops descr true max_workers order w _
                Hne Hconf Htags Hmw) as [evs Hrun].
    eexists _, _, _. split; [exact Hrun|].
    unfold called, logged, set_calls, set_log, set_stdin.
    cbn [w_log w_heap w_calls w_stdin].
    split; [by rewrite <- app_assoc|]. by split.
  - destruct items as [|x l]; [done|].
    eexists _, _, _. split.
    { rewrite execute_items_unfold, (bind_Ok _ _ _ _ _ Hconf). reflexivity. }
    unfold called, logged, set_calls, set_log, set_stdin.
    cbn [w_log w_heap w_calls w_stdin].
    split; [by rewrite <- app_assoc|]. split; [done|]. by rewrite app_nil_r.
Qed.

Lemma provider_tag_known h item key :
  key ∈ providers ->
  provider_tag h item = Some key
  <-> exists tag, field h item "cloud" = Some (VStr tag) /\ py_lower tag = key.
Proof.
  intros Hkey. unfold provider_tag. split.
  - destruct (field h item "cloud") as [[| | |tag| |]|]; try done.
    + intros [= <-]. by eauto.
    + intros [= <-]. unfold providers in Hkey.
      rewrite !elem_of_cons, elem_of_nil in Hkey. by destruct Hkey as [|[|[|]]].
  - intros (tag & -> & <-). done.
Qed.

(** A confirmed operation called from a script, for a handler table with
    the three providers as keys. *)
Lemma execute_in_script (ops : gmap string handler) descr vms order s :
  tags_ok (w_heap (x_world s)) vms = true ->
  (forall key, is_Some (ops !! key) <-> key ∈ providers) ->
  exists s' calls,
    xbind (core (execute_items_operation vms ops descr true 10 order))
      (fun _ => xret tt) s = (Done tt, s')
    /\ w_heap (x_world s') = w_heap (x_world s)
    /\ w_calls (x_world s') = w_calls (x_world s) ++ calls
    /\ forall key item,
         Call key item ∈ calls
         <-> accepts (w_stdin (x_world s)) = true
             /\ item ∈ vms
             /\ key ∈ providers
             /\ exists tag,
                  field (w_heap (x_world s)) item "cloud" = Some (VStr tag)
                  /\ py_lower tag = key.
Proof.
  intros Htags Hops.
  destruct (execute_items_asked vms ops descr 10 order (x_world s) Htags)
    as (r & w' & evs & Hrun & Hlog & Hheap & Hcalls); [done|].
  eexists _, _. split.
  { unfold xbind. by rewrite (core_run _ _ _ _ _ Hrun Hlog). }
  cbn [x_world]. split; [exact Hheap|]. split; [exact Hcalls|].
  intros key item.
  destruct (accepts (w_stdin (x_world s))) eqn:Hacc.
  - destruct (decide (vms = [])) as [->|Hne].
    + rewrite bool_decide_eq_false_2 by (by intros H). cbn [andb].
      rewrite elem_of_nil. split; [done|]. intros (_ & H & _).
      by apply elem_of_nil in H.
    + rewrite (bool_decide_eq_true_2 _ Hne). cbn [andb].
      rewrite calls_of_elem, Hops. split.
      * intros (Hin & Htag & Hkey). repeat split; try done.
        by apply provider_tag_known.
      * intros (_ & Hin & Hkey & Htag). repeat split; try done.
        by apply provider_tag_known.
  - rewrite andb_false_r, elem_of_nil. split; [done|]. by intros [? _].
Qed.

Section CspDispatch.

Variables aws_delete azure_delete gcp_delete : handler.
Variables aws_add_tag azure_add_tag gcp_add_tag : string -> string -> handler.
Variables aws_set_protection azure_set_protection gcp_set_protection
  : bool -> handler.

Local Abbreviation csp_run :=
  (csp_apply aws_delete azure_delete gcp_delete
     aws_add_tag azure_add_tag gcp_add_tag
     aws_set_protection azure_set_protection gcp_set_protection).


End CspDispatch.


(** ** The aggregator as the scripts use it *)

Lemma for_fold_keeps {A S} (P : world -> Prop) (body : S -> A -> M S) l :
  (forall s x w r w', body s x w = (r, w') -> P w -> P w') ->
  forall s w r w', for_fold body l s w = (r, w') -> P w -> P w'.
Proof.
  intros Hbody. induction l as [|x l IH]; intros s w r w'; simpl.
  - by intros [= <- <-].
  - unfold bind. destruct (body s x w) as [[s1|e] w1] eqn:Hx.
    + intros Hl Hw. eapply IH; [exact Hl|]. by eapply Hbody.
    + intros [= <- <-] Hw. by eapply Hbody.
Qed.

Section AggregatorRecords.

Context {A : Type}.

(** The aggregator only reads the clock. *)
Lemma discover_beside_clock
    (funcs : list (string * (unit -> result (list A)))) max_workers order
    w r w' :
  discover_across_clouds funcs max_workers order w = (r, w') ->
  beside_clock w w'.
Proof.
  unfold discover_across_clouds, bind at 1, now at 1.
  set (w0 := set_ticks w (S (w_ticks w))).
  assert (H0 : beside_clock w w0) by done.
  unfold thread_pool. destruct (max_workers <=? 0).
  { unfold bind, raise. by intros [= <- <-]. }
  unfold bind at 1, ret at 1. unfold bind at 1.
  destruct (for_fold submit_cloud funcs _ w0) as [[sub|e] w1] eqn:Hsub.
  2:{ intros [= <- <-].
      eapply (for_fold_keeps (beside_clock w)); [|exact Hsub|exact H0].
      intros s x v r0 v'. unfold submit_cloud, bind, now, ret.
      intros [= <- <-]. done. }
  assert (H1 : beside_clock w w1).
  { eapply (for_fold_keeps (beside_clock w)); [|exact Hsub|exact H0].
    intros s x v r0 v'. unfold submit_cloud, bind, now, ret.
    intros [= <- <-]. done. }
  unfold bind at 1.
  destruct (for_fold collect_cloud _ _ w1) as [[st|e] w2] eqn:Hcol.
  2:{ intros [= <- <-].
      eapply (for_fold_keeps (beside_clock w)); [|exact Hcol|exact H1].
      intros s x v r0 v'. unfold collect_cloud, bind, now, start_of, ret, raise.
      simpl. destruct (s.2 !! x.1) as [rec|]; [|by intros [= <- <-]].
      destruct (start_time rec); [|by intros [= <- <-]].
      destruct x.2; by intros [= <- <-]. }
  assert (H2 : beside_clock w w2).
  { eapply (for_fold_keeps (beside_clock w)); [|exact Hcol|exact H1].
    intros s x v r0 v'. unfold collect_cloud, bind, now, start_of, ret, raise.
    simpl. destruct (s.2 !! x.1) as [rec|]; [|by intros [= <- <-]].
    destruct (start_time rec); [|by intros [= <- <-]].
    destruct x.2; by intros [= <- <-]. }
  unfold bind, now, start_of, ret, raise. simpl.
  destruct (st.2 !! "all") as [rec|]; [|by intros [= <- <-]].
  destruct (start_time rec); by intros [= <- <-].
Qed.

(** The records the aggregator leaves: every provider has a duration and
    the record of its outcome, and the aggregate has a duration and the
    length of the merged list. *)
Lemma aggregator_records (funcs : list (string * (unit -> result (list A))))
    max_workers order w :
  0 < max_workers ->
  NoDup funcs.*1 ->
  "all" ∉ funcs.*1 ->
  order ≡ₚ seq 0 (length funcs) ->
  exists d w',
    discover_across_clouds funcs max_workers order w = (Ok d, w')
    /\ items d ≡ₚ funcs ≫= cloud_block
    /\ (exists ra da, stats d !! "all" = Some ra /\ duration ra = Some da
                      /\ count ra = Some (length (items d)))
    /\ (forall name f, (name, f) ∈ funcs ->
          exists r dr, stats d !! name = Some r /\ duration r = Some dr
                       /\ provider_record (f tt) r).
Proof.
  intros Hmw Hnd Hall Hperm.
  set (clock := w_clock w). set (k0 := w_ticks w).
  set (w0 := set_ticks w (S k0)).
  destruct (submit_loop_timed funcs {[ "all" := started (clock k0) ]} [] w0)
    as (stats1 & w1 & Hsub & Hclock1 & Hticks1 & Hdom1 & Hstats1).
  simpl in Hsub, Hclock1, Hticks1. fold clock in Hclock1.
  set (futures := future_of <$> funcs) in *.
  set (names := funcs.*1) in *.
  set (k1 := (S k0 + length funcs)%nat) in *.
  set (D := ({["all"]} ∪ list_to_set names : gset string)).
  set (cs := as_completed futures order).
  assert (Hcs : cs ≡ₚ futures).
  { apply as_completed_perm. unfold futures. by rewrite length_fmap. }
  assert (Hfn : futures.*1 = names).
  { unfold futures, names. rewrite <- list_fmap_compose.
    by apply list_fmap_ext. }
  assert (Hnd' : NoDup cs.*1) by (by rewrite Hcs, Hfn).
  destruct (for_fold_rule_w
              (fun pre st w => collecting names pre st
                               /\ collecting_timed clock k0 k1 names D pre st w)
              collect_cloud cs ([], stats1) w1)
    as (st2 & w2 & Hloop & [Hitems Hrec]
        & Hclock2 & Hticks2 & Hdom2 & Hagg2 & Hstats2).
  { split.
    - split; [done|]. intros name Hname. split; [by inversion 1|]. intros _.
      destruct (Hstats1 name) as [Hin _].
      destruct (Hin Hname) as (j & _ & Hr). by eauto.
    - split; [done|]. split; [simpl; lia|]. split.
      { simpl. by rewrite Hdom1, dom_singleton_L. }
      split.
      { simpl. destruct (Hstats1 "all") as [_ Hout]. rewrite Hout by done.
        by rewrite lookup_singleton_eq. }
      intros name Hname. split; [by inversion 1|]. intros _.
      destruct (Hstats1 name) as [Hin _].
      destruct (Hin Hname) as (j & Hj & Hr).
      exists j. split; [simpl in Hj; lia|done]. }
  { intros pre x post st v Hl [Hpre Hpret].
    assert (Hx : x.1 ∈ names).
    { rewrite <- Hfn. apply list_elem_of_fmap_2.
      rewrite <- Hcs, Hl. apply elem_of_app. right. by left. }
    assert (Hfresh : x.1 ∉ pre.*1).
    { rewrite Hl, fmap_app, fmap_cons in Hnd'.
      apply NoDup_app in Hnd' as (_ & Hdisj & _). intros Hin.
      apply (Hdisj _ Hin). by left. }
    destruct (collect_cloud_step names pre x st v Hx Hfresh Hpre)
      as (st' & v' & Hstep & Hpost).
    destruct (collect_cloud_timed clock k0 k1 names D pre x st v Hx Hfresh
                Hall Hpret) as (st'' & v'' & Hstep' & Hpostt).
    rewrite Hstep in Hstep'. injection Hstep' as <- <-.
    by exists st', v'. }
  set (e := clock (k1 + length cs)%nat).
  eexists _, _. split.
  { unfold discover_across_clouds.
    unfold bind at 1, now at 1. fold clock k0 w0.
    unfold thread_pool. destruct (Z.leb_spec max_workers 0); [lia|].
    unfold bind at 1, ret at 1.
    rewrite (bind_Ok _ _ _ _ _ Hsub). simpl fst. simpl snd. fold cs.
    rewrite (bind_Ok _ _ _ _ _ Hloop).
    unfold bind at 1, now at 1. rewrite Hclock2, Hticks2. fold e.
    unfold bind, start_of, ret. rewrite Hagg2. simpl. reflexivity. }
  simpl. split.
  { rewrite Hitems, Hcs. unfold futures. by rewrite future_blocks. }
  split.
  { rewrite lookup_alter_eq, Hagg2. simpl. by eauto. }
  intros name f Hin.
  assert (Hname : name ∈ names).
  { by apply (list_elem_of_fmap_2 fst _ (name, f)). }
  rewrite lookup_alter_ne by (by intros <-).
  assert (Hf : (name, f tt) ∈ cs).
  { rewrite Hcs. by apply (list_elem_of_fmap_2 future_of _ (name, f)). }
  destruct (Hrec name Hname) as [Hdone _].
  destruct (Hdone (name, f tt) Hf eq_refl) as (r & Hr & _ & Hprov).
  destruct (Hstats2 name Hname) as [Hdonet _].
  destruct Hdonet as (r' & Hr' & j & j' & _ & _ & _ & _ & Hd).
  { by apply (list_elem_of_fmap_2 fst _ (name, f tt)). }
  rewrite Hr in Hr'. injection Hr' as <-. by eauto.
Qed.

End AggregatorRecords.

(** ** [log_discovery_stats] and [refresh] *)

Lemma log_cloud_stats_run {A} stats rt cloud (out : result (list A)) r d s :
  stats !! cloud = Some r ->
  duration r = Some d ->
  provider_record out r ->
  log_cloud_stats stats rt cloud s
  = (Done tt, XState (x_world s) (x_out s ++ summary_lines rt cloud out d)).
Proof.
  intros Hr Hd Hrec. unfold log_cloud_stats. rewrite Hr, Hd.
  destruct out as [resources|e]; destruct Hrec as (Hst & Hn & He);
    rewrite Hn, Hst; unfold xbind, stats_index, xret, xemit; simpl.
  - done.
  - rewrite He. simpl. by rewrite <- app_assoc.
Qed.

Section RefreshProofs.

Context {A : Type}.
Variables aws_discover azure_discover gcp_discover : unit -> result (list A).
Variable save_to_json : list A -> string -> X unit.
Variable save_vms_to_excel : list A -> string -> X unit.
Variable inventory_dir : string.

(** X12: [refresh] reports every provider and reaches the saving.  Whatever
    the three discovery functions do and in whatever order they complete,
    the discovery returns, and the summary is logged without a [KeyError]:
    the title, then for [aws], [azure] and [gcp] in this order one line with
    the number of resources found (0 for a provider that failed) followed by
    an error line for a provider that failed, then the total, which is the
    length of the merged list.  The merged list holds the results of the
    providers that returned, and it is what both writers are called with. *)
Theorem refresh_reports_every_provider order s :
  order ≡ₚ seq 0 3 ->
  exists d w' total_time aws_time azure_time gcp_time,
    csp_discover aws_discover azure_discover gcp_discover order (x_world s)
    = (Ok d, w')
    /\ items d ≡ₚ found (aws_discover tt) ++ found (azure_discover tt)
                   ++ found (gcp_discover tt)
    /\ refresh aws_discover azure_discover gcp_discover save_to_json
         save_vms_to_excel inventory_dir order s
       = xbind (save_to_json (items d) (inventory_dir +:+ "/vm.json"))
           (fun _ => save_vms_to_excel (items d)
                       (inventory_dir +:+ "/vm.xlsx"))
           (XState w'
              (x_out s
               ++ [SummaryTitle; SummaryRule]
               ++ summary_lines "VM" "aws" (aws_discover tt) aws_time
               ++ summary_lines "VM" "azure" (azure_discover tt) azure_time
               ++ summary_lines "VM" "gcp" (gcp_discover tt) gcp_time
               ++ [SummaryRule; TotalDiscovered "VM" (length (items d));
                   TotalTime total_time])).
Proof.
  intros Hperm.
  set (funcs := [("aws", aws_discover); ("azure", azure_discover);
                 ("gcp", gcp_discover)]).
  destruct (aggregator_records funcs 3 order (x_world s))
    as (d & w' & Hrun & Hitems & (ra & da & Hra & Hda & Hna) & Hrec);
    [done|compute_done|compute_done|done|].
  destruct (Hrec "aws" aws_discover) as (r1 & d1 & Hr1 & Hd1 & Hp1);
    [by left|].
  destruct (Hrec "azure" azure_discover) as (r2 & d2 & Hr2 & Hd2 & Hp2);
    [right; by left|].
  destruct (Hrec "gcp" gcp_discover) as (r3 & d3 & Hr3 & Hd3 & Hp3);
    [right; right; by left|].
  exists d, w', da, d1, d2, d3. split; [exact Hrun|]. split.
  { rewrite Hitems. unfold funcs. csimpl. by rewrite app_nil_r. }
  destruct (discover_beside_clock _ _ _ _ _ _ Hrun) as (_ & Hlog & _).
  unfold refresh. unfold xbind at 1.
  rewrite (core_run _ s d w' []); [|exact Hrun|by rewrite Hlog, app_nil_r].
  unfold xbind at 1.
  assert (Hsum : log_discovery_stats (stats d) "VM"
                   (XState w' (x_out s ++ (Core <$> [])))
    = (Done tt,
       XState w'
         (x_out s
          ++ [SummaryTitle; SummaryRule]
          ++ summary_lines "VM" "aws" (aws_discover tt) d1
          ++ summary_lines "VM" "azure" (azure_discover tt) d2
          ++ summary_lines "VM" "gcp" (gcp_discover tt) d3
          ++ [SummaryRule; TotalDiscovered "VM" (length (items d));
              TotalTime da]))).
  { unfold log_discovery_stats. cbn [fmap list_fmap]. rewrite app_nil_r.
    unfold xbind at 1. unfold xemit at 1. cbn [x_world x_out].
    unfold xbind at 1. unfold xemit at 1. cbn [x_world x_out].
    unfold xbind at 1. cbn [xfor_each].
    unfold xbind at 1.
    rewrite (log_cloud_stats_run _ _ _ _ _ _ _ Hr1 Hd1 Hp1).
    unfold xbind at 1.
    rewrite (log_cloud_stats_run _ _ _ _ _ _ _ Hr2 Hd2 Hp2).
    unfold xbind at 1.
    rewrite (log_cloud_stats_run _ _ _ _ _ _ _ Hr3 Hd3 Hp3).
    unfold xret at 1. cbn [x_world x_out].
    rewrite Hra. unfold xbind, xemit, stats_index, xret. cbn [x_world x_out].
    rewrite Hna, Hda. cbn [x_world x_out]. f_equal. f_equal.
    rewrite <- !app_assoc. reflexivity. }
  rewrite Hsum. reflexivity.
Qed.

End RefreshProofs.

Lemma refresh_reports_every_provider_witness :
  exists d w',
    csp_discover ex_aws_discover ex_azure_discover ex_gcp_discover
      [2; 0; 1]%nat (ex_world "") = (Ok d, w')
    /\ length (items d) = 3%nat
    /\ (refresh ex_aws_discover ex_azure_discover ex_gcp_discover
          (fun _ _ => xret tt) (fun _ _ => xret tt) "inventory"
          [2; 0; 1]%nat ex_state).1 = Done tt.
Proof.
  destruct (refresh_reports_every_provider ex_aws_discover ex_azure_discover
              ex_gcp_discover (fun _ _ => xret tt) (fun _ _ => xret tt)
              "inventory" [2; 0; 1]%nat ex_state)
    as (d & w' & ta & t1 & t2 & t3 & Hrun & Hitems & Href).
  - vm_compute. solve_Permutation.
  - exists d, w'. split; [exact Hrun|]. split.
    + by rewrite Hitems.
    + by rewrite Href.
Defined.

(** ** [print_vms]: what the table shows *)

Lemma tidy_app s t : tidy s = true -> tidy t = true -> tidy (s +:+ t) = true.
Proof.
  induction s as [|c s IH]; simpl; [done|].
  intros [Hc Hs]%andb_prop Ht. by rewrite Hc, IH.
Qed.

Lemma tidy_take n s : tidy s = true -> tidy (str_take n s) = true.
Proof.
  revert s. induction n as [|n IH]; intros [|c s]; simpl; try done.
  intros [Hc Hs]%andb_prop. by rewrite Hc, IH.
Qed.

Lemma tidy_drop n s : tidy s = true -> tidy (str_drop n s) = true.
Proof.
  revert s. induction n as [|n IH]; intros [|c s]; simpl; try done.
  intros [Hc Hs]%andb_prop. by apply IH.
Qed.

Lemma solid_tidy s : solid s = true -> tidy s = true.
Proof.
  induction s as [|c s IH]; simpl; [done|].
  intros [Hc Hs]%andb_prop. rewrite Hc, IH by done. by rewrite orb_true_r.
Qed.

Lemma words_solid s : Forall (fun w => solid w = true) (words s).
Proof.
  induction s as [|c s IH]; [by constructor|].
  cbn [words]. destruct (py_isspace c) eqn:Hc; [exact IH|].
  destruct s as [|d s]; [|destruct (py_isspace d) eqn:Hd].
  - constructor; [|by constructor]. simpl. by rewrite Hc.
  - constructor; [|exact IH]. simpl. by rewrite Hc.
  - destruct (words (String d s)) as [|h t].
    + constructor; [|by constructor]. simpl. by rewrite Hc.
    + apply Forall_cons in IH as [Hh Ht]. constructor; [|exact Ht].
      simpl. by rewrite Hc, Hh.
Qed.

Lemma join_tidy ws :
  Forall (fun w => solid w = true) ws -> tidy (join " " ws) = true.
Proof.
  induction ws as [|w ws IH]; [done|]. intros [Hw Hws]%Forall_cons.
  destruct ws as [|w' ws]; [by apply solid_tidy|].
  change (join " " (w :: w' :: ws)) with (w +:+ " " +:+ join " " (w' :: ws)).
  apply tidy_app; [by apply solid_tidy|]. apply tidy_app; [done|by apply IH].
Qed.

Lemma str_last_length n s :
  String.length (str_last n s) = Nat.min n (String.length s).
Proof. unfold str_last. rewrite str_drop_length. lia. Qed.

Lemma truncate_account_name_length s :
  (String.length (truncate_account_name s) <= 20)%nat.
Proof.
  unfold truncate_account_name.
  destruct (Nat.ltb_spec 20 (String.length s)); [|done].
  rewrite !str_app_length, str_take_length, str_last_length.
  change (String.length "...") with 3%nat. lia.
Qed.

Section PrintVmsProofs.

Variable dict_slice_error : exn.

(** The name of a VM whose name and id are strings: at most 32 characters,
    and no whitespace but single blanks. *)
Lemma vm_name_run vm w :
  str_or_absent (w_heap w) vm "name" = true ->
  str_or_absent (w_heap w) vm "id" = true ->
  exists name,
    vm_name vm w = (Ok name, w)
    /\ (String.length name <= 32)%nat /\ tidy name = true.
Proof.
  unfold str_or_absent. intros Hname Hid.
  assert (Hcut : forall s,
    (String.length
       (let name := join " " (words s) in
        if (32 <? String.length name)%nat
        then str_take 22 name +:+ "..." +:+ str_last 7 name else name)
     <= 32)%nat
    /\ tidy (let name := join " " (words s) in
             if (32 <? String.length name)%nat
             then str_take 22 name +:+ "..." +:+ str_last 7 name else name)
       = true).
  { intros s. cbv zeta.
    pose proof (join_tidy (words s) (words_solid s)) as Ht.
    destruct (Nat.ltb_spec 32 (String.length (join " " (words s)))).
    - split.
      + rewrite !str_app_length, str_take_length, str_last_length.
        change (String.length "...") with 3%nat. lia.
      + apply tidy_app; [by apply tidy_take|].
        apply tidy_app; [done|]. by apply tidy_drop.
    - split; [lia|done]. }
  unfold vm_name, item_get_default, item_get, bind, ret. simpl.
  destruct (field (w_heap w) vm "name") as [[| | |s| |]|] eqn:Hn; try done;
    simpl.
  - destruct (String.eqb (strip s) "").
    + destruct (field (w_heap w) vm "id") as [[| | |i| |]|] eqn:Hi; try done;
        simpl; eexists; (split; [reflexivity|]);
        first [apply Hcut | split; [simpl; lia|done]].
    + eexists. split; [reflexivity|]. apply Hcut.
  - destruct (field (w_heap w) vm "id") as [[| | |i| |]|] eqn:Hi; try done;
      simpl; eexists; (split; [reflexivity|]);
      first [apply Hcut | split; [simpl; lia|done]].
Qed.

Lemma vm_table_step_run table_data entry w :
  showable (w_heap w) entry.2 = true ->
  exists row,
    vm_table_step dict_slice_error table_data entry w
    = (Ok (table_data ++ [row]), w)
    /\ shows (w_heap w) entry row.
Proof.
  unfold showable. intros Hok.
  apply andb_prop in Hok as [Hok Haid].
  apply andb_prop in Hok as [Hok Haname].
  apply andb_prop in Hok as [Hname Hid].
  destruct (vm_name_run entry.2 w Hname Hid) as (name & Hrun & Hlen & Htidy).
  unfold vm_table_step. rewrite (bind_Ok _ _ _ _ _ Hrun).
  unfold str_or_absent in Haid, Haname.
  unfold item_get_default, item_get, bind, ret, truncate_account_value. simpl.
  destruct (field (w_heap w) entry.2 "account_name") as [[| | |a| |]|];
    try done; simpl.
  - eexists. split; [reflexivity|]. repeat split; try done. simpl.
    eexists. split; [done|]. apply truncate_account_name_length.
  - destruct (field (w_heap w) entry.2 "account_id") as [[| | |a| |]|];
      try done; simpl; (eexists; split; [reflexivity|]);
      (repeat split; try done); simpl; (eexists; split; [done|]);
      apply truncate_account_name_length.
Qed.

Lemma vm_table_run (entries : list (nat * loc)) w :
  Forall (fun e => showable (w_heap w) e.2 = true) entries ->
  exists table_data,
    for_fold (vm_table_step dict_slice_error) entries [] w
    = (Ok table_data, w)
    /\ Forall2 (shows (w_heap w)) entries table_data.
Proof.
  intros Hok.
  destruct (for_fold_rule_w
              (fun pre st w' => w' = w /\ Forall2 (shows (w_heap w)) pre st)
              (vm_table_step dict_slice_error) entries [] w)
    as (table_data & w' & Hrun & -> & Hrows).
  - split; [done|]. constructor.
  - intros pre x post st v Hl [-> Hpre].
    destruct (vm_table_step_run st x w) as (row & Hstep & Hrow).
    { rewrite Forall_forall in Hok. apply Hok. rewrite Hl.
      apply elem_of_app. right. by left. }
    exists (st ++ [row]), w. split; [exact Hstep|]. split; [done|].
    apply Forall2_app; [exact Hpre|].
    constructor; [exact Hrow|constructor].
  - by exists table_data.
Qed.

End PrintVmsProofs.

Lemma showable_keys_ok h vms :
  Forall (fun vm => showable h vm = true) vms ->
  keys_ok h "id" vms = true /\ keys_ok h "name" vms = true.
Proof.
  intros Hok. unfold keys_ok. rewrite !forallb_forall.
  split; intros vm Hin%list_elem_of_In;
    rewrite Forall_forall in Hok; specialize (Hok vm Hin);
    unfold showable in Hok;
    apply andb_prop in Hok as [Hok _]; apply andb_prop in Hok as [Hok _];
    apply andb_prop in Hok as [Hname Hid];
    unfold str_or_absent in *; unfold key_ok.
  - destruct (field h vm "id") as [[| | |i| |]|]; try done.
    simpl. by destruct (String.eqb i "").
  - destruct (field h vm "name") as [[| | |i| |]|]; try done.
    simpl. by destruct (String.eqb i "").
Qed.

(** The numeral of a position as the identifier expression. *)
Lemma find_by_numeral w items id_key name_key k x :
  keys_ok (w_heap w) id_key items = true ->
  keys_ok (w_heap w) name_key items = true ->
  items !! k = Some x ->
  find_items_by_identifier items (pretty (Z.of_nat (S k))) id_key name_key w
  = (Ok [x], w).
Proof.
  intros Hid Hname Hx. rewrite find_items_run by done.
  rewrite tokens_pretty. csimpl. rewrite !app_nil_r.
  unfold selected, complaints, resolve. rewrite py_int_pretty.
  pose proof (lookup_lt_Some _ _ _ Hx) as Hlt.
  replace ((1 <=? Z.of_nat (S k)) && (Z.of_nat (S k) <=? Z.of_nat (length items)))
    with true
    by (symmetry; apply andb_true_intro; split; apply Z.leb_le; lia).
  replace (Z.to_nat (Z.of_nat (S k) - 1)) with k by lia.
  cbn [fst snd]. rewrite Hx. cbn. by rewrite logged_nil.
Qed.

(** X13: the table of [print_vms].  For VMs whose name, id and account are
    strings where present, [print_vms] does not fail and changes nothing.
    For the empty list it logs one line.  Otherwise it logs the number of
    VMs and prints a table with one row per VM in list order.  The row of
    the [k]-th VM is numbered [k], starting from 1, shows a name of at most
    32 characters without whitespace other than single blanks, and an
    account of at most 20 characters; and the number of a row, given as
    the identifier expression to [find_items_by_identifier] over the same
    list, selects exactly the VM of that row. *)
Theorem print_vms_numbers_select dict_slice_error vms s :
  Forall (fun vm => showable (w_heap (x_world s)) vm = true) vms ->
  (vms = [] ->
   print_vms dict_slice_error vms s
   = (Done tt, XState (x_world s) (x_out s ++ [NoVmsFound])))
  /\ (vms <> [] ->
      exists table_data,
        print_vms dict_slice_error vms s
        = (Done tt,
           XState (x_world s)
             (x_out s ++ [FoundVms (length vms); VmTable table_data;
                          BlankLine]))
        /\ length table_data = length vms
        /\ forall k vm, vms !! k = Some vm ->
             exists row,
               table_data !! k = Some row
               /\ shows (w_heap (x_world s)) (S k, vm) row
               /\ find_items_by_identifier vms
                    (pretty (Z.of_nat (row_idx row))) "id" "name" (x_world s)
                  = (Ok [vm], x_world s)).
Proof.
  intros Hok. split; [by intros ->|]. intros Hne.
  assert (Hunfold : print_vms dict_slice_error vms s
    = xbind (xemit (FoundVms (length vms)))
        (fun _ =>
           xbind (core (for_fold (vm_table_step dict_slice_error)
                          (zip (seq 1 (length vms)) vms) []))
             (fun table_data =>
                xbind (xemit (VmTable table_data))
                  (fun _ => xemit BlankLine))) s).
  { by destruct vms. }
  set (entries := zip (seq 1 (length vms)) vms) in *.
  destruct (vm_table_run dict_slice_error entries (x_world s))
    as (table_data & Hrun & Hrows).
  { apply Forall_forall. intros [i vm] Hin. rewrite Forall_forall in Hok.
    apply Hok. apply (elem_of_zip_r _ _ _ _ Hin). }
  exists table_data. split.
  { rewrite Hunfold. unfold xbind at 1, xemit at 1. cbn [x_world x_out].
    unfold xbind at 1.
    erewrite (core_run _ _ _ _ []); [|exact Hrun|by rewrite app_nil_r].
    unfold xbind, xemit. cbn [x_world x_out fmap list_fmap].
    rewrite app_nil_r, <- !app_assoc. reflexivity. }
  assert (Hlen : length entries = length vms).
  { unfold entries. rewrite length_zip, length_seq. lia. }
  split; [by rewrite <- (Forall2_length _ _ _ Hrows)|].
  intros k vm Hk.
  assert (He : entries !! k = Some (S k, vm)).
  { unfold entries. apply lookup_zip_with_Some. exists (S k), vm.
    split; [done|]. split; [|done].
    apply lookup_seq. split; [done|]. by apply lookup_lt_Some in Hk. }
  destruct (Forall2_lookup_l _ _ _ _ _ Hrows He) as (row & Hrow & Hshows).
  exists row. split; [done|]. split; [done|].
  destruct Hshows as [-> _]. cbn [fst].
  destruct (showable_keys_ok _ _ Hok) as [Hid Hname].
  by apply find_by_numeral.
Qed.

Lemma print_vms_numbers_select_witness :
  exists table_data,
    print_vms (TypeError "unhashable type") [1; 2; 3]%positive ex_state
    = (Done tt,
       XState (ex_world "") [FoundVms 3; VmTable table_data; BlankLine])
    /\ length table_data = 3%nat.
Proof.
  destruct (print_vms_numbers_select (TypeError "unhashable type")
              [1; 2; 3]%positive ex_state) as [_ H].
  - repeat constructor.
  - destruct (H ltac:(done)) as (table_data & Hrun & Hlen & _).
    by exists table_data.
Defined.

(** ** [vm.py]: loading the inventory *)

Lemma alloc_loop_run (objects : list Item) acc w :
  exists locs h',
    for_fold (fun acc d => l <~ alloc d ;; ret (acc ++ [l])) objects acc w
    = (Ok locs, set_heap w h')
    /\ forall l d, w_heap w !! l = Some d -> h' !! l = Some d.
Proof.
  revert acc w. induction objects as [|d objects IH]; intros acc w.
  - exists acc, (w_heap w). split; [by destruct w|done].
  - cbn [for_fold]. unfold bind at 1. unfold bind at 1, alloc at 1, ret at 1.
    set (l := fresh (dom (w_heap w))).
    destruct (IH (acc ++ [l]) (set_heap w (<[l := d]> (w_heap w))))
      as (locs & h' & Hrun & Hold).
    exists locs, h'. split; [by rewrite Hrun|].
    intros l0 d0 Hl0. apply Hold. cbn.
    rewrite lookup_insert_ne; [done|]. intros <-.
    assert (Hfresh : l ∉ dom (w_heap w)) by apply is_fresh.
    apply Hfresh, elem_of_dom. by eexists.
Qed.

(** Loading creates objects and touches nothing else. *)
Lemma alloc_all_run (objects : list Item) w :
  exists locs h',
    alloc_all objects w = (Ok locs, set_heap w h')
    /\ forall l d, w_heap w !! l = Some d -> h' !! l = Some d.
Proof. apply alloc_loop_run. Qed.

Section MainSafety.

Context {A : Type}.
Variables aws_delete azure_delete gcp_delete : handler.
Variables aws_add_tag azure_add_tag gcp_add_tag : string -> string -> handler.
Variables aws_set_protection azure_set_protection gcp_set_protection
  : bool -> handler.
Variables aws_discover azure_discover gcp_discover : unit -> result (list A).
Variable save_to_json : list A -> string -> X unit.
Variable save_vms_to_excel : list A -> string -> X unit.
Variable inventory_dir : string.
Variable expanduser : string -> result string.
Variable fs : string -> file.
Variable json_files : string -> json_file.
Variable dict_slice_error : exn.

Local Abbreviation vm_main :=
  (main aws_delete azure_delete gcp_delete aws_add_tag azure_add_tag
     gcp_add_tag aws_set_protection azure_set_protection gcp_set_protection
     aws_discover azure_discover gcp_discover save_to_json save_vms_to_excel
     inventory_dir expanduser fs json_files dict_slice_error).

(** X14: deleting needs a filter.  When [vm.py] is run with [--delete] and
    without [-i] (and without [--refresh]), no handler is invoked, nothing
    is read from the terminal and no object that existed is changed,
    whatever the other arguments, the inventory and the file system are.
    The run ends in one of three ways: it returns after logging the two
    error lines about the missing filter and nothing else; it leaves
    through [sys.exit(1)] after one error line; or it fails with the
    exception that reading the inventory raised. *)
Theorem delete_requires_filter parsed order discovery_order s :
  a_refresh parsed = false ->
  a_delete parsed = true ->
  given (a_vms parsed) = false ->
  exists o s',
    vm_main parsed order discovery_order s = (o, s')
    /\ w_calls (x_world s') = w_calls (x_world s)
    /\ w_stdin (x_world s') = w_stdin (x_world s)
    /\ (forall l d, w_heap (x_world s) !! l = Some d ->
                    w_heap (x_world s') !! l = Some d)
    /\ match o with
       | Done _ =>
           x_out s' = x_out s ++ [DeleteNeedsFilter; DeletePreventsAccident]
       | Exited c =>
           c = 1 /\ exists l, x_out s' = x_out s ++ [l] /\ is_xerror l = true
       | Failed e =>
           json_files (get_inventory_path inventory_dir "vm" "json")
           = JsonFails e
       end.
Proof.
  intros Hrefresh Hdelete Hvms. unfold main, parse_arguments.
  destruct ((given (a_tag parsed) && negb (given (a_value parsed)))
            || (given (a_value parsed) && negb (given (a_tag parsed)))).
  { eexists _, _. split; [reflexivity|]. cbn. repeat split; try done.
    by eauto. }
  unfold xbind at 1, xret at 1. rewrite Hrefresh.
  unfold xbind at 1, load_from_json.
  destruct (json_files (get_inventory_path inventory_dir "vm" "json"))
    as [| |e|objects] eqn:Hfile.
  - eexists _, _. split; [reflexivity|]. cbn. repeat split; try done.
    by eauto.
  - eexists _, _. split; [reflexivity|]. cbn. repeat split; try done.
    by eauto.
  - eexists _, _. split; [reflexivity|]. cbn. by repeat split.
  - destruct (alloc_all_run objects (x_world s)) as (locs & h' & Hrun & Hold).
    rewrite (core_run _ _ _ _ [] Hrun) by (cbn; by rewrite app_nil_r).
    rewrite Hvms. unfold apply_action. rewrite Hdelete. cbn [negb].
    eexists _, _. split; [reflexivity|]. cbn.
    rewrite app_nil_r, <- app_assoc. by repeat split.
Qed.

End MainSafety.

Lemma delete_requires_filter_witness :
  exists s',
    ex_main (Namespace false None true None None None) [] [] (ex_start "y")
    = (Done tt, s')
    /\ w_calls (x_world s') = []
    /\ x_out s' = [DeleteNeedsFilter; DeletePreventsAccident].
Proof.
  destruct (delete_requires_filter ex_yes ex_no ex_boom (fun _ _ => ex_yes)
              (fun _ _ => ex_no) (fun _ _ => ex_boom) (fun _ => ex_yes)
              (fun _ => ex_no) (fun _ => ex_boom) ex_aws_discover
              ex_azure_discover ex_gcp_discover (fun _ _ => xret tt)
              (fun _ _ => xret tt) "inventory" ex_expanduser ex_fs
              ex_json_files (TypeError "unhashable type")
              (Namespace false None true None None None) [] [] (ex_start "y")
              eq_refl eq_refl eq_refl)
    as (o & s' & Hrun & Hcalls & _ & _ & Hout).
  assert (Ho : (ex_main (Namespace false None true None None None) [] []
                  (ex_start "y")).1 = Done tt) by (vm_compute; reflexivity).
  unfold ex_main in Ho. rewrite Hrun in Ho. simpl in Ho. subst o.
  exists s'. by split.
Defined.

(** ** [vm.py]: the action goes to the selection *)

Lemma process_plain_identifiers expanduser fs ids s :
  (forall rest, ids <> String "@" rest) ->
  process_identifiers_input expanduser fs ids s = (Done ids, s).
Proof.
  intros Hplain. unfold process_identifiers_input.
  destruct ids as [|c rest]; [done|].
  destruct (Ascii.eqb_spec c "@") as [->|Hc]; [by destruct (Hplain rest)|].
  by destruct c as [[] [] [] [] [] [] [] []].
Qed.

Lemma tags_ok_within h items sel :
  (forall x, x ∈ sel -> x ∈ items) ->
  tags_ok h items = true -> tags_ok h sel = true.
Proof.
  unfold tags_ok. rewrite !forallb_forall. intros Hsub Hok x Hx.
  apply Hok. apply list_elem_of_In, Hsub. by apply list_elem_of_In.
Qed.

Section MainAction.

Context {A : Type}.
Variables aws_delete azure_delete gcp_delete : handler.
Variables aws_add_tag azure_add_tag gcp_add_tag : string -> string -> handler.
Variables aws_set_protection azure_set_protection gcp_set_protection
  : bool -> handler.
Variables aws_discover azure_discover gcp_discover : unit -> result (list A).
Variable save_to_json : list A -> string -> X unit.
Variable save_vms_to_excel : list A -> string -> X unit.
Variable inventory_dir : string.
Variable expanduser : string -> result string.
Variable fs : string -> file.
Variable json_files : string -> json_file.
Variable dict_slice_error : exn.

Local Abbreviation vm_main :=
  (main aws_delete azure_delete gcp_delete aws_add_tag azure_add_tag
     gcp_add_tag aws_set_protection azure_set_protection gcp_set_protection
     aws_discover azure_discover gcp_discover save_to_json save_vms_to_excel
     inventory_dir expanduser fs json_files dict_slice_error).


End MainAction.


(** ** The providers: [discover] never raises *)

Section ProviderProofs.

Context {A : Type}.

(** The executor called from a script, for tasks whose contexts name the
    cloud. *)
Lemma execute_discovery_in_script (tasks : list (task A)) max_workers order s :
  0 < max_workers ->
  Forall (fun t => is_Some (context t !! "cloud")) tasks ->
  order ≡ₚ seq 0 (length tasks) ->
  core (execute_discovery_tasks tasks max_workers order) s
  = (Done (as_completed tasks order ≫= task_block),
     XState (logged (x_world s) (task_lines tasks order))
       (x_out s ++ (Core <$> task_lines tasks order))).
Proof.
  intros Hmw Hctx Hperm. apply core_run; [|done].
  unfold execute_discovery_tasks, task_lines.
  destruct tasks as [|t0 ts] eqn:E.
  { apply Permutation_nil_r in Hperm as ->. by rewrite logged_nil. }
  rewrite <- E in *. clear E t0 ts.
  assert (Hok : Forall (fun t : task A => is_Some (context t !! "cloud"))
                  (as_completed tasks order)).
  { apply Forall_forall. intros t Ht. apply as_completed_elem in Ht.
    rewrite Forall_forall in Hctx. by apply Hctx. }
  unfold thread_pool. destruct (Z.leb_spec max_workers 0); [lia|].
  unfold bind at 1, ret at 1.
  change (map (fun t : task A => (func t (args t), context t)) tasks)
    with ((fun t : task A => (func t (args t), context t)) <$> tasks).
  rewrite as_completed_fmap.
  rewrite (bind_Ok _ _ _ _ _
             (discovery_loop_lines (length tasks) _ ([], 0%nat)
                (x_world s) Hok)).
  reflexivity.
Qed.

Variable get_aws_profiles : result (list string).
Variable describe_regions : string -> result (list string).
Variable get_azure_subs : result (list string).
Variable get_gcp_projects : result (list string).
Variables aws_get_vms azure_get_vms gcp_get_vms
  : list string -> result (list A).

Lemma azure_build_run (f : list string -> result (list A)) resource_name s :
  azure_build_discovery_tasks get_azure_subs f resource_name s
  = (Done (azure_task f resource_name <$> configured get_azure_subs),
     XState (x_world s)
       (x_out s ++ config_line AzureBuildError get_azure_subs)).
Proof.
  unfold azure_build_discovery_tasks, xtry, xbind, xlift, configured,
    config_line.
  destruct get_azure_subs as [[|sub subs]|e]; cbn.
  - by rewrite app_nil_r; destruct s.
  - by rewrite app_nil_r; destruct s.
  - done.
Qed.

Lemma gcp_build_run (f : list string -> result (list A)) resource_name s :
  gcp_build_discovery_tasks get_gcp_projects f resource_name s
  = (Done (gcp_task f resource_name <$> configured get_gcp_projects),
     XState (x_world s)
       (x_out s ++ config_line GcpBuildError get_gcp_projects)).
Proof.
  unfold gcp_build_discovery_tasks, xtry, xbind, xlift, configured,
    config_line.
  destruct get_gcp_projects as [[|p ps]|e]; cbn.
  - by rewrite app_nil_r; destruct s.
  - by rewrite app_nil_r; destruct s.
  - done.
Qed.

(** X16: the discovery of Azure and of GCP never raises.  Whatever the
    configuration and the provider do, and in whatever order the tasks
    complete, [discover] of [azuresvc/vm.py] and of [gcpsvc/vm.py] returns.
    There is one task per configured subscription or project; the result
    holds the VMs of the accounts whose listing returned, and one line is
    logged per account.  When the configuration cannot be read, one line is
    printed and the result is empty. *)
Theorem account_discovery_never_raises order s :
  (order ≡ₚ seq 0 (length (configured get_azure_subs)) ->
   exists out lines,
     azure_vm_discover get_azure_subs azure_get_vms order s
     = (Done out,
        XState (logged (x_world s) lines)
          (x_out s ++ config_line AzureBuildError get_azure_subs
           ++ (Core <$> lines)))
     /\ out ≡ₚ configured get_azure_subs
               ≫= (fun sub => found (azure_get_vms [sub]))
     /\ length lines = length (configured get_azure_subs))
  /\ (order ≡ₚ seq 0 (length (configured get_gcp_projects)) ->
      exists out lines,
        gcp_vm_discover get_gcp_projects gcp_get_vms order s
        = (Done out,
           XState (logged (x_world s) lines)
             (x_out s ++ config_line GcpBuildError get_gcp_projects
              ++ (Core <$> lines)))
        /\ out ≡ₚ configured get_gcp_projects
                  ≫= (fun project => found (gcp_get_vms [project]))
        /\ length lines = length (configured get_gcp_projects)).
Proof.
  split; intros Hperm.
  - set (tasks := azure_task azure_get_vms "VM" <$> configured get_azure_subs).
    assert (Hlen : length tasks = length (configured get_azure_subs)).
    { unfold tasks. by rewrite length_fmap. }
    rewrite <- Hlen in Hperm.
    exists (as_completed tasks order ≫= task_block), (task_lines tasks order).
    split; [|split].
    + unfold azure_vm_discover, xbind. rewrite azure_build_run. fold tasks.
      rewrite execute_discovery_in_script; [|done| |done].
      * cbn [x_world x_out]. by rewrite <- app_assoc.
      * apply Forall_forall. intros t (sub & -> & _)%list_elem_of_fmap.
        by eexists.
    + rewrite (as_completed_perm tasks order Hperm). unfold tasks.
      rewrite list_fmap_bind. done.
    + unfold task_lines. rewrite length_imap.
      by rewrite (as_completed_perm tasks order Hperm).
  - set (tasks := gcp_task gcp_get_vms "VM" <$> configured get_gcp_projects).
    assert (Hlen : length tasks = length (configured get_gcp_projects)).
    { unfold tasks. by rewrite length_fmap. }
    rewrite <- Hlen in Hperm.
    exists (as_completed tasks order ≫= task_block), (task_lines tasks order).
    split; [|split].
    + unfold gcp_vm_discover, xbind. rewrite gcp_build_run. fold tasks.
      rewrite execute_discovery_in_script; [|done| |done].
      * cbn [x_world x_out]. by rewrite <- app_assoc.
      * apply Forall_forall. intros t (p & -> & _)%list_elem_of_fmap.
        by eexists.
    + rewrite (as_completed_perm tasks order Hperm). unfold tasks.
      rewrite list_fmap_bind. done.
    + unfold task_lines. rewrite length_imap.
      by rewrite (as_completed_perm tasks order Hperm).
Qed.

End ProviderProofs.

Section AwsDiscover.

Context {A : Type}.
Variable get_aws_profiles : result (list string).
Variable describe_regions : string -> result (list string).
Variable aws_get_vms : list string -> result (list A).

Lemma aws_build_run resource_name w :
  build_discovery_tasks get_aws_profiles describe_regions aws_get_vms
    resource_name w
  = (Ok (configured get_aws_profiles
           ≫= profile_tasks get_aws_profiles describe_regions aws_get_vms
                resource_name),
     logged w (aws_build_prints get_aws_profiles describe_regions)).
Proof.
  unfold aws_build_prints, configured.
  destruct get_aws_profiles as [profiles|e] eqn:Hcfg; cbv beta iota.
  - rewrite <- Hcfg. apply try_except_Ok.
    assert (Hp : get_profiles get_aws_profiles w = (Ok profiles, w)).
    { unfold get_profiles, lift. by rewrite Hcfg. }
    rewrite (bind_Ok _ _ _ _ _ Hp). destruct profiles as [|p ps].
    + by rewrite logged_nil.
    + exact (profile_loop_run get_aws_profiles describe_regions aws_get_vms
               resource_name (p :: ps) [] w).
  - unfold build_discovery_tasks, try_except, bind, get_profiles, lift.
    reflexivity.
Qed.

Lemma profile_tasks_cloud resource_name profile (t : task A) :
  t ∈ profile_tasks get_aws_profiles describe_regions aws_get_vms
        resource_name profile ->
  is_Some (context t !! "cloud").
Proof.
  unfold profile_tasks.
  destruct (regions_of get_aws_profiles describe_regions profile);
    [|by intros ?%elem_of_nil].
  intros (r & -> & _)%list_elem_of_fmap. by eexists.
Qed.

(** X17: the discovery of AWS never raises.  Whatever the configuration
    and the provider do, and in whatever order the tasks complete,
    [discover] of [awssvc/vm.py] returns.  The tasks are those of the
    profiles whose regions can be listed; the result holds the VMs of the
    tasks whose listing returned.  Before the one line per task, a line is
    printed for every profile whose regions cannot be listed, or one line
    when the configuration cannot be read. *)
Theorem aws_discovery_never_raises order s :
  let tasks :=
    configured get_aws_profiles
      ≫= profile_tasks get_aws_profiles describe_regions aws_get_vms "VM" in
  order ≡ₚ seq 0 (length tasks) ->
  exists out lines,
    aws_vm_discover get_aws_profiles describe_regions aws_get_vms order s
    = (Done out,
       XState
         (logged (x_world s)
            (aws_build_prints get_aws_profiles describe_regions ++ lines))
         (x_out s
          ++ (Core <$> aws_build_prints get_aws_profiles describe_regions)
          ++ (Core <$> lines)))
    /\ out ≡ₚ tasks ≫= task_block
    /\ length lines = length tasks.
Proof.
  intros tasks Hperm.
  exists (as_completed tasks order ≫= task_block), (task_lines tasks order).
  split; [|split].
  - unfold aws_vm_discover, xbind.
    rewrite (core_run _ _ _ _ _ (aws_build_run "VM" (x_world s)) eq_refl).
    fold tasks. rewrite execute_discovery_in_script; [|done| |done].
    + cbn [x_world x_out]. by rewrite logged_app, <- app_assoc.
    + apply Forall_forall. intros t (p & Ht & _)%list_elem_of_bind.
      by eapply profile_tasks_cloud.
  - by rewrite (as_completed_perm tasks order Hperm).
  - unfold task_lines. rewrite length_imap.
    by rewrite (as_completed_perm tasks order Hperm).
Qed.

End AwsDiscover.

Lemma account_discovery_never_raises_witness :
  (azure_vm_discover (Ok ["prod"; "dev"]) ex_get_vms [1; 0]%nat ex_state).1
  = Done [1; 2]%nat
  /\ (gcp_vm_discover (Raise (Error "no config")) ex_get_vms [] ex_state).1
     = Done [].
Proof.
  destruct (account_discovery_never_raises (Ok ["prod"; "dev"])
              (Raise (Error "no config")) ex_get_vms ex_get_vms) with
    (order := [1; 0]%nat) (s := ex_state) as [Hazure _].
  destruct (account_discovery_never_raises (Ok ["prod"; "dev"])
              (Raise (Error "no config")) ex_get_vms ex_get_vms) with
    (order := @nil nat) (s := ex_state) as [_ Hgcp].
  destruct Hazure as (out & lines & Hrun & _);
    [vm_compute; solve_Permutation|].
  destruct Hgcp as (out' & lines' & Hrun' & Hout' & _); [done|].
  split.
  - assert (H : (azure_vm_discover (Ok ["prod"; "dev"]) ex_get_vms
                   [1; 0]%nat ex_state).1 = Done [1; 2]%nat)
      by (vm_compute; reflexivity).
    exact H.
  - rewrite Hrun'. simpl. simpl in Hout'.
    by apply Permutation_nil_r in Hout' as ->.
Defined.

Lemma aws_discovery_never_raises_witness :
  exists out s',
    aws_vm_discover (Ok ["dev"; "prod"])
      (fun p => if String.eqb p "dev" then Ok ["eu"; "us"]
                else Raise (Error "expired"))
      ex_get_vms [1; 0]%nat ex_state = (Done out, s')
    /\ length out = 4%nat.
Proof.
  destruct (aws_discovery_never_raises (Ok ["dev"; "prod"])
              (fun p => if String.eqb p "dev" then Ok ["eu"; "us"]
                        else Raise (Error "expired"))
              ex_get_vms [1; 0]%nat ex_state)
    as (out & lines & Hrun & Hout & _).
  - vm_compute. solve_Permutation.
  - eexists _, _. split; [exact Hrun|]. by rewrite Hout.
Defined.

(** ** [config.py]: the configuration is read once *)

Section ConfigProofs.

Variable config_path : string.
Variable read_text : nat -> config_read.
Variable json_loads : string -> decoded.

Lemma load_config_cached st :
  truthy (cached st) = true ->
  load_config config_path read_text json_loads st = (Ok (cached st), st).
Proof. intros H. unfold load_config. by rewrite H. Qed.

(** X18: the configuration is read once.  When [load_config] returns a
    configuration that is not empty, it has read the file at most once, and
    from then on every call of the three getters, in any number and order,
    answers from that configuration without reading the file again,
    whatever becomes of the file: a key that the configuration has gives
    its value, a missing key the empty list, and a configuration that is
    not an object an [AttributeError].  An empty configuration is not kept:
    the next call reads the file again. *)
Theorem config_is_read_once st config st1 :
  load_config config_path read_text json_loads st = (Ok config, st1) ->
  (reads st1 <= S (reads st))%nat
  /\ (truthy config = true ->
      forall gs,
        call_getters config_path read_text json_loads gs st1
        = ((fun g => config_get config (getter_key g)) <$> gs, st1))
  /\ (truthy config = false ->
      reads (load_config config_path read_text json_loads st1).2
      = S (reads st1)).
Proof.
  intros Hload.
  assert (Hst1 : cached st1 = config /\ (reads st1 <= S (reads st))%nat).
  { unfold load_config in Hload.
    destruct (truthy (cached st)); [injection Hload as <- <-; split; [done|lia]|].
    destruct (read_text (reads st)) as [|e|text]; try done.
    destruct (json_loads text) as [v|msg]; [|done].
    injection Hload as <- <-. split; [done|simpl; lia]. }
  destruct Hst1 as [Hc Hr]. split; [exact Hr|]. split.
  - intros Htrue gs. induction gs as [|g gs IH]; [done|].
    assert (Hg : call_getter config_path read_text json_loads g st1
                 = (config_get config (getter_key g), st1)).
    { rewrite <- Hc in Htrue.
      destruct g; unfold call_getter, get_aws_profiles, get_azure_subs,
        get_gcp_projects, config_getter;
        rewrite (load_config_cached st1 Htrue), Hc; done. }
    cbn [call_getters]. by rewrite Hg, IH.
  - intros Hfalse. unfold load_config. rewrite Hc, Hfalse.
    destruct (read_text (reads st1)) as [|e|text]; try done.
    by destruct (json_loads text).
Qed.

End ConfigProofs.

Lemma config_is_read_once_witness :
  call_getters "config.json"
    (fun n => match n with
              | O => ConfigText "{}"
              | _ => ConfigMissing
              end)
    (fun _ => Decoded (VDict [("aws_profiles", VList [VStr "dev"])]))
    [GcpProjects; AwsProfiles]
    (ConfigState (VDict [("aws_profiles", VList [VStr "dev"])]) 1)
  = ([Ok (VList []); Ok (VList [VStr "dev"])],
     ConfigState (VDict [("aws_profiles", VList [VStr "dev"])]) 1).
Proof.
  pose proof (config_is_read_once "config.json"
                (fun n => match n with
                          | O => ConfigText "{}"
                          | _ => ConfigMissing
                          end)
                (fun _ => Decoded (VDict [("aws_profiles", VList [VStr "dev"])]))
                config_initial (VDict [("aws_profiles", VList [VStr "dev"])])
                (ConfigState (VDict [("aws_profiles", VList [VStr "dev"])]) 1)
                eq_refl) as (_ & H & _).
  rewrite (H eq_refl [GcpProjects; AwsProfiles]). reflexivity.
Defined.

(** ** [refresh_all.py] never prints the total time *)

(** X19: [refresh_all.py] ends with an exception.  [main] never returns
    normally, whatever the two refreshes do.  When both refreshes return,
    the clock was read twice, the last lines are the two that announce the
    end of the refresh, and the run fails with the [AttributeError] for
    [vm.INVENTORY_JSON_PATH], a name that [vm.py] does not define: the
    names of the inventory files and the total time are not printed. *)
Theorem refresh_all_fails vm_refresh vpc_refresh name_of s :
  exists o s',
    refresh_all_main vm_refresh vpc_refresh name_of s = (o, s')
    /\ (forall u, o <> Done u)
    /\ forall s1 s2,
         vm_refresh (refresh_started s) = (Done tt, s1) ->
         vpc_refresh s1 = (Done tt, s2) ->
         o = Failed (AttributeError "INVENTORY_JSON_PATH")
         /\ w_ticks (x_world s') = S (w_ticks (x_world s2))
         /\ x_out s' = x_out s2 ++ [RefreshComplete; InventoryUpdated].
Proof.
  unfold refresh_all_main.
  unfold xbind at 1, xemit at 1. unfold xbind at 1.
  assert (Hnow : forall st,
    core now st = (Done (w_clock (x_world st) (w_ticks (x_world st))),
                   XState (set_ticks (x_world st) (S (w_ticks (x_world st))))
                     (x_out st))).
  { intros st. unfold core, now. cbn. rewrite drop_all. cbn.
    by rewrite app_nil_r. }
  rewrite Hnow. cbn [x_world x_out]. fold (refresh_started s).
  unfold xbind at 1.
  destruct (vm_refresh (refresh_started s)) as [[[]|e|c] s1] eqn:Hvm.
  2:{ eexists _, _. split; [reflexivity|]. split; [done|]. by intros. }
  2:{ eexists _, _. split; [reflexivity|]. split; [done|]. by intros. }
  unfold xbind at 1.
  destruct (vpc_refresh s1) as [[[]|e|c] s2] eqn:Hvpc.
  2:{ eexists _, _. split; [reflexivity|]. split; [done|].
      intros s1' s2' [= <-]. by rewrite Hvpc. }
  2:{ eexists _, _. split; [reflexivity|]. split; [done|].
      intros s1' s2' [= <-]. by rewrite Hvpc. }
  unfold xbind at 1. rewrite (Hnow s2).
  eexists _, _. split; [reflexivity|]. split; [done|].
  intros s1' s2' [= <-]. rewrite Hvpc. intros [= <-].
  cbn. rewrite <- app_assoc. done.
Qed.

Lemma refresh_all_fails_witness :
  (refresh_all_main (xret tt) (xret tt) (fun _ => Ok "vm.json") ex_state).1
  = Failed (AttributeError "INVENTORY_JSON_PATH").
Proof.
  destruct (refresh_all_fails (xret tt) (xret tt) (fun _ => Ok "vm.json")
              ex_state) as (o & s' & Hrun & _ & H).
  destruct (H _ _ eq_refl eq_refl) as [-> _]. by rewrite Hrun.
Defined.

(** ** [print_vpcs]: default VPCs are passed over and the numbers stay *)

Section PrintVpcsProofs.

Variable dict_slice_error : exn.

Lemma as_strs_run l w :
  forallb (fun x => match x with VStr _ => true | _ => false end) l = true ->
  exists strs, as_strs l w = (Ok strs, w).
Proof.
  induction l as [|x l IH]; [by eexists|]. simpl.
  destruct x as [| | |s| |]; try done. intros Hl.
  destruct (IH Hl) as [strs Hstrs]. unfold bind. rewrite Hstrs. by eexists.
Qed.

Lemma forallb_take {B} (f : B -> bool) n l :
  forallb f l = true -> forallb f (take n l) = true.
Proof.
  revert n. induction l as [|x l IH]; intros [|n]; simpl; try done.
  intros [Hx Hl]%andb_prop. by rewrite Hx, IH.
Qed.

Lemma vpc_cidr_run vpc w :
  match field (w_heap w) vpc "cidr_block",
        field (w_heap w) vpc "address_prefixes" with
  | None, Some v => prefixes_ok v
  | _, _ => true
  end = true ->
  exists cidr, vpc_cidr dict_slice_error vpc w = (Ok cidr, w).
Proof.
  unfold vpc_cidr, item_get, bind, ret. simpl.
  destruct (field (w_heap w) vpc "cidr_block") as [c|]; [by eexists|].
  destruct (field (w_heap w) vpc "address_prefixes") as [v|]; [|by eexists].
  intros Hv. destruct (truthy v) eqn:Ht; [|by eexists].
  unfold prefixes_ok in Hv. rewrite Ht in Hv.
  destruct v as [| | |s|l|d]; try done; unfold address_cidr.
  - by eexists.
  - destruct (as_strs_run (take 2 l) w (forallb_take _ 2 l Hv)) as [strs Hs].
    unfold bind. rewrite Hs. by eexists.
Qed.

Lemma truncate_account_str s w :
  truncate_account_value dict_slice_error (VStr s) w
  = (Ok (VStr (truncate_account_name s)), w).
Proof. done. Qed.

Lemma vpc_account_run vpc w :
  str_or_absent (w_heap w) vpc "profile" = true ->
  str_or_absent (w_heap w) vpc "account_id" = true ->
  exists account, vpc_account dict_slice_error vpc w = (Ok account, w).
Proof.
  unfold str_or_absent, vpc_account, item_get, bind, ret. simpl.
  destruct (field (w_heap w) vpc "profile") as [[| | |p| |]|]; try done;
    [by eexists|].
  intros _.
  destruct (field (w_heap w) vpc "account_id") as [[| | |a| |]|]; try done;
    by eexists.
Qed.

Lemma vpc_name_run vpc w :
  exists name, vpc_name vpc w = (Ok name, w).
Proof.
  unfold vpc_name, item_get_default, item_get, bind, ret. simpl.
  destruct (_ || _); by eexists.
Qed.

(** One VPC: a default one leaves the table as it is, another one adds a
    row with its number. *)
Lemma vpc_table_step_run table_data entry w :
  vpc_showable (w_heap w) entry.2 = true ->
  exists rows,
    vpc_table_step dict_slice_error table_data entry w
    = (Ok (table_data ++ rows), w)
    /\ vrow_idx <$> rows = (shown_vpcs (w_heap w) [entry]).*1.
Proof.
  unfold vpc_showable, shown_vpcs, is_default_vpc. intros Hok.
  unfold vpc_table_step. unfold bind at 1, item_get_default at 1, bind at 1,
    item_get at 1, ret at 1. cbn [List.filter].
  destruct (truthy (default (VBool false)
                      (field (w_heap w) entry.2 "is_default"))) eqn:Hd.
  { exists []. by rewrite app_nil_r. }
  cbn [orb negb] in *.
  apply andb_prop in Hok as [Hok Hcidr].
  apply andb_prop in Hok as [Hok Haid].
  apply andb_prop in Hok as [Hcloud Hprofile].
  destruct (vpc_name_run entry.2 w) as [name Hname].
  rewrite (bind_Ok _ _ _ _ _ Hname).
  unfold bind at 1, item_get_default at 1, bind at 1, item_get at 1, ret at 1.
  unfold str_or_absent in Hcloud.
  assert (Hc : exists cloud,
    as_str "upper" (default (VStr "unknown") (field (w_heap w) entry.2 "cloud"))
      w = (Ok cloud, w)).
  { destruct (field (w_heap w) entry.2 "cloud") as [[| | |c| |]|]; try done;
      by eexists. }
  destruct Hc as [cloud Hc]. cbn [fst snd]. rewrite (bind_Ok _ _ _ _ _ Hc).
  destruct (vpc_account_run entry.2 w Hprofile Haid) as [account Hacc].
  rewrite (bind_Ok _ _ _ _ _ Hacc).
  unfold bind at 1, item_get_default at 1, bind at 1, item_get at 1, ret at 1.
  unfold bind at 1, item_get_default at 1, bind at 1, item_get at 1, ret at 1.
  cbn [fst snd].
  destruct (vpc_cidr_run entry.2 w Hcidr) as [cidr Hci].
  rewrite (bind_Ok _ _ _ _ _ Hci).
  unfold bind, item_get_default, item_get, ret. cbn [fst snd].
  eexists [_]. split; [reflexivity|]. done.
Qed.

Lemma shown_vpcs_app h l1 l2 :
  shown_vpcs h (l1 ++ l2) = shown_vpcs h l1 ++ shown_vpcs h l2.
Proof. apply List.filter_app. Qed.

Lemma vpc_table_run (entries : list (nat * loc)) w :
  Forall (fun e => vpc_showable (w_heap w) e.2 = true) entries ->
  exists table_data,
    for_fold (vpc_table_step dict_slice_error) entries [] w
    = (Ok table_data, w)
    /\ vrow_idx <$> table_data = (shown_vpcs (w_heap w) entries).*1.
Proof.
  intros Hok.
  destruct (for_fold_rule_w
              (fun pre st w' =>
                 w' = w /\ vrow_idx <$> st = (shown_vpcs (w_heap w) pre).*1)
              (vpc_table_step dict_slice_error) entries [] w)
    as (table_data & w' & Hrun & -> & Hrows).
  - done.
  - intros pre x post st v Hl [-> Hpre].
    destruct (vpc_table_step_run st x w) as (rows & Hstep & Hrow).
    { rewrite Forall_forall in Hok. apply Hok. rewrite Hl.
      apply elem_of_app. right. by left. }
    exists (st ++ rows), w. split; [exact Hstep|]. split; [done|].
    by rewrite shown_vpcs_app, !fmap_app, Hpre, Hrow.
  - by exists table_data.
Qed.

End PrintVpcsProofs.

Lemma elem_of_numbered {B} (l : list B) i x :
  (i, x) ∈ zip (seq 1 (length l)) l
  <-> exists k, i = S k /\ l !! k = Some x.
Proof.
  rewrite list_elem_of_lookup. split.
  - intros [k Hk]. apply lookup_zip_with_Some in Hk
      as (i' & x' & [= <- <-] & Hi & Hx).
    apply lookup_seq in Hi as [-> _]. by exists k.
  - intros (k & -> & Hk). exists k. apply lookup_zip_with_Some.
    exists (S k), x. split; [done|]. split; [|done].
    apply lookup_seq. split; [done|]. by apply lookup_lt_Some in Hk.
Qed.

Lemma shown_vpcs_elem h entries e :
  e ∈ shown_vpcs h entries <-> e ∈ entries /\ is_default_vpc h e.2 = false.
Proof.
  unfold shown_vpcs. rewrite !list_elem_of_In, List.filter_In.
  by rewrite negb_true_iff.
Qed.

Lemma shown_vpcs_NoDup h entries :
  NoDup entries.*1 -> NoDup (shown_vpcs h entries).*1.
Proof.
  induction entries as [|e entries IH]; [done|].
  rewrite fmap_cons. intros [Hnotin Hnd]%NoDup_cons.
  unfold shown_vpcs. cbn [List.filter].
  destruct (negb (is_default_vpc h e.2)); [|by apply IH].
  rewrite fmap_cons. apply NoDup_cons. split; [|by apply IH].
  intros (e' & He' & Hin)%list_elem_of_fmap. apply Hnotin.
  apply list_elem_of_fmap. exists e'. split; [done|].
  by apply (shown_vpcs_elem h entries e') in Hin as [? _].
Qed.

(** X20: [print_vpcs] skips the default VPCs and keeps the numbers.  For
    VPCs that can be shown and whose ids and names can be dictionary keys,
    [print_vpcs] of a non-empty list does not fail, changes nothing and
    prints one table.  The table has one row for every VPC that is not a
    default one and none for the others; a row carries the position of its
    VPC in the whole list, counted from 1, so the numbers of the rows skip
    the default VPCs; and the number of a row, given as the identifier
    expression to [find_items_by_identifier] over the same list, selects
    exactly the VPC of that row. *)
Theorem print_vpcs_keeps_numbering dict_slice_error vpcs s :
  Forall (fun vpc => vpc_showable (w_heap (x_world s)) vpc = true) vpcs ->
  keys_ok (w_heap (x_world s)) "id" vpcs = true ->
  keys_ok (w_heap (x_world s)) "name" vpcs = true ->
  vpcs <> [] ->
  exists table_data,
    print_vpcs dict_slice_error vpcs s
    = (Done tt,
       XState (x_world s) (x_out s ++ [VpcTable table_data; BlankLine]))
    /\ NoDup (vrow_idx <$> table_data)
    /\ (forall k vpc, vpcs !! k = Some vpc ->
          S k ∈ vrow_idx <$> table_data
          <-> is_default_vpc (w_heap (x_world s)) vpc = false)
    /\ (forall row, row ∈ table_data ->
          exists k vpc,
            vrow_idx row = S k /\ vpcs !! k = Some vpc
            /\ is_default_vpc (w_heap (x_world s)) vpc = false
            /\ find_items_by_identifier vpcs
                 (pretty (Z.of_nat (vrow_idx row))) "id" "name" (x_world s)
               = (Ok [vpc], x_world s)).
Proof.
  intros Hok Hid Hname Hne.
  assert (Hunfold : print_vpcs dict_slice_error vpcs s
    = xbind (core (for_fold (vpc_table_step dict_slice_error)
                     (zip (seq 1 (length vpcs)) vpcs) []))
        (fun table_data =>
           xbind (xemit (VpcTable table_data)) (fun _ => xemit BlankLine)) s).
  { by destruct vpcs. }
  set (entries := zip (seq 1 (length vpcs)) vpcs) in *.
  destruct (vpc_table_run dict_slice_error entries (x_world s))
    as (table_data & Hrun & Hrows).
  { apply Forall_forall. intros [i vpc] Hin. rewrite Forall_forall in Hok.
    apply Hok. apply (elem_of_zip_r _ _ _ _ Hin). }
  assert (Hmem : forall i, i ∈ vrow_idx <$> table_data
    <-> exists k vpc, i = S k /\ vpcs !! k = Some vpc
                      /\ is_default_vpc (w_heap (x_world s)) vpc = false).
  { intros i. rewrite Hrows, list_elem_of_fmap. split.
    - intros ([i' vpc] & -> & [Hin Hd]%shown_vpcs_elem).
      apply elem_of_numbered in Hin as (k & -> & Hk). by exists k, vpc.
    - intros (k & vpc & -> & Hk & Hd). exists (S k, vpc). split; [done|].
      apply shown_vpcs_elem. split; [|done].
      apply elem_of_numbered. by exists k. }
  exists table_data. split; [|split; [|split]].
  - rewrite Hunfold. unfold xbind at 1.
    erewrite (core_run _ _ _ _ []); [|exact Hrun|by rewrite app_nil_r].
    unfold xbind, xemit. cbn [x_world x_out fmap list_fmap].
    rewrite app_nil_r, <- !app_assoc. reflexivity.
  - rewrite Hrows. apply shown_vpcs_NoDup. unfold entries.
    rewrite fst_zip by (rewrite length_seq; lia). apply NoDup_seq.
  - intros k vpc Hk. rewrite Hmem. split.
    + intros (k' & vpc' & [= <-] & Hk' & Hd). rewrite Hk in Hk'.
      by injection Hk' as <-.
    + intros Hd. by exists k, vpc.
  - intros row Hrow.
    destruct (proj1 (Hmem (vrow_idx row))) as (k & vpc & Hi & Hk & Hd).
    { by apply list_elem_of_fmap_2. }
    exists k, vpc. split; [done|]. split; [done|]. split; [done|].
    rewrite Hi. by apply find_by_numeral.
Qed.

Lemma print_vpcs_keeps_numbering_witness :
  exists table_data,
    print_vpcs (TypeError "unhashable type") [1; 2; 3]%positive
      (XState
         (World (<[2%positive := <["is_default" := VBool true]>
                                   (ex_item "b" "db" "Azure")]> ex_heap)
            [] [] "" (fun n => Z.of_nat n) 0) [])
    = (Done tt,
       XState
         (World (<[2%positive := <["is_default" := VBool true]>
                                   (ex_item "b" "db" "Azure")]> ex_heap)
            [] [] "" (fun n => Z.of_nat n) 0)
         [VpcTable table_data; BlankLine])
    /\ vrow_idx <$> table_data = [1; 3]%nat.
Proof.
  destruct (print_vpcs_keeps_numbering (TypeError "unhashable type")
              [1; 2; 3]%positive
              (XState
                 (World (<[2%positive := <["is_default" := VBool true]>
                                           (ex_item "b" "db" "Azure")]> ex_heap)
                    [] [] "" (fun n => Z.of_nat n) 0) []))
    as (table_data & Hrun & _).
  - repeat constructor.
  - reflexivity.
  - reflexivity.
  - done.
  - exists table_data. split; [exact Hrun|].
    vm_compute in Hrun. by injection Hrun as <-.
Defined.
